(** * Cache service, cache invalidator and fixed-window rate limiter

    A shallow embedding of the cache plugin ([CacheService],
    [CacheInvalidator], [CACHE_PATTERNS]) and of the rate-limit plugin
    ([RateLimitService.checkRateLimit]) of the finance tracker service,
    together with a model of the key-value store they talk to.

    Conventions.
    - A JavaScript [number] the code computes with (a millisecond
      timestamp, a counter, a limit, an id, a TTL) is an integer,
      modelled as [Z].  [Math.floor (a / b)] is [a / b] on [Z] (floor
      division) and [Math.ceil (a / b)] is [- ((- a) / b)], for [b] other
      than 0; where the code divides by a window of 0 and goes on with
      NaN, the definition says so.
    - A cached value ([value: any]) is null, a boolean, a number (an
      integer, a decimal fraction, or one that is not finite), a string,
      a [Date], an array or an object.  A string is the sequence of the
      bytes of its UTF-8 encoding.
    - An [async] method is a function from the state of the world to an
      outcome (a value or a thrown error) and a new state of the world.
    - An optional parameter is an [option]; [None] is the omitted
      argument.
    - A [logger] call writes a log line and nothing else, and only what
      can throw while its argument is built is kept: the
      [new Date (resetTime).toISOString ()] of the two warnings about a
      refused request. *)

From Stdlib Require Import ZArith Ascii String List Bool Lia.
From Stdlib Require Import DecimalString DecimalZ DecimalPos DecimalN.
From stdpp Require Import base option list strings gmap fin_maps.

Local Open Scope string_scope.
Local Open Scope list_scope.
Local Open Scope Z_scope.

(** * Part I: the embedding *)

(** ** Numbers as text *)

Module Num.

(** [String(n)] for an integer [n], as a template literal prints it: the
    decimal digits, with a leading minus sign for a negative one. *)
Definition toString (z : Z) : string :=
  NilZero.string_of_int (Z.to_int z).

(** Reading a decimal integer back, strictly: exactly the text that
    [toString] prints (no leading zeros, no plus sign, no minus zero, no
    blanks). *)
Definition ofString (s : string) : option Z :=
  match NilZero.int_of_string s with
  | Some d =>
      let z := Z.of_int d in
      if String.eqb (toString z) s then Some z else None
  | None => None
  end.

(** The store's reading of a counter: a strict decimal integer in the
    64-bit signed range. *)
Definition string2ll (s : string) : option Z :=
  match ofString s with
  | Some z => if (- 2 ^ 63 <=? z) && (z <? 2 ^ 63) then Some z else None
  | None => None
  end.

(** [Math.floor (a / b)] and [Math.ceil (a / b)] on integers. *)
Definition floor_div (a b : Z) : Z := a / b.
Definition ceil_div (a b : Z) : Z := - ((- a) / b).

End Num.

(** ** Characters and text *)

Definition chars (s : string) : list ascii := list_ascii_of_string s.
Definition text (l : list ascii) : string := string_of_list_ascii l.

Definition is_digit (c : ascii) : bool :=
  (48 <=? N_of_ascii c)%N && (N_of_ascii c <=? 57)%N.

Arguments is_digit : simpl never.

(** The double-quote character. *)
Definition dquote : ascii := Eval cbv in ascii_of_N 34.

(** [strip_prefix lit s] is what follows [lit] in [s], when [s] starts
    with [lit]. *)
Fixpoint strip_prefix (lit s : list ascii) : option (list ascii) :=
  match lit with
  | [] => Some s
  | c :: lit' =>
      match s with
      | c' :: s' => if Ascii.eqb c c' then strip_prefix lit' s' else None
      | [] => None
      end
  end.

(** ** Dates *)

Module Date.

(** A [Date] holds a time value, a number of milliseconds since the epoch
    that is at most 100,000,000 days away from it, or NaN (an invalid
    date). *)
Definition max_time : Z := 8640000000000000.

(** [new Date (t)] holds the time value [t], not NaN. *)
Definition valid (t : Z) : bool := (- max_time <=? t) && (t <=? max_time).

(** Year, month (1 to 12) and day of the month of the day that is [day]
    days after the epoch. *)
Definition civil (day : Z) : Z * Z * Z :=
  let z := day + 719468 in
  let era := z / 146097 in
  let doe := z - era * 146097 in
  let yoe := (doe - doe / 1460 + doe / 36524 - doe / 146096) / 365 in
  let doy := doe - (365 * yoe + yoe / 4 - yoe / 100) in
  let mp := (5 * doy + 2) / 153 in
  let d := doy - (153 * mp + 2) / 5 + 1 in
  let m := if mp <? 10 then mp + 3 else mp - 9 in
  let y := yoe + era * 400 + (if m <=? 2 then 1 else 0) in
  (y, m, d).

(** [n], at least 0, in [width] digits or more. *)
Definition pad (width : nat) (n : Z) : string :=
  let digits := chars (Num.toString n) in
  text (repeat "0"%char (width - List.length digits) ++ digits).

Definition year_text (y : Z) : string :=
  if (0 <=? y) && (y <=? 9999) then pad 4 y
  else (if y <? 0 then "-" else "+") +:+ pad 6 (Z.abs y).

(** [new Date (t).toISOString ()] for a time value [t]; for any other
    number the method throws a RangeError. *)
Definition toISOString (t : Z) : string :=
  let day := t / 86400000 in
  let ms := t mod 86400000 in
  let '(y, m, d) := civil day in
  year_text y +:+ "-" +:+ pad 2 m +:+ "-" +:+ pad 2 d
    +:+ "T" +:+ pad 2 (ms / 3600000)
    +:+ ":" +:+ pad 2 (ms / 60000 mod 60)
    +:+ ":" +:+ pad 2 (ms / 1000 mod 60)
    +:+ "." +:+ pad 3 (ms mod 1000) +:+ "Z".

End Date.

(** ** Glob patterns of the store's KEYS command *)

(** Modelled from the spec: the key-value store is an external
    collaborator and the spec asks it for "delete-by-glob-pattern" and
    [KEYS pattern]; the patterns are the glob style of the store the code
    connects to: a star for any run of characters, a question mark for one
    character, brackets for a character class (with ranges such as [a-z],
    and negated by a leading caret), and a backslash to take the next
    character literally. *)
Module Glob.

Inductive token : Type :=
| Star
| Any
| Lit (c : ascii)
| Class (negated : bool) (items : list (ascii * ascii)).

(** The items of a class, up to the closing bracket (or the end of the
    pattern), and the rest of the pattern after it. *)
Fixpoint class_items (p : list ascii) : list (ascii * ascii) * list ascii :=
  match p with
  | [] => ([], [])
  | c :: p1 =>
      if Ascii.eqb c "\" then
        match p1 with
        | e :: p2 => let '(its, r) := class_items p2 in ((e, e) :: its, r)
        | [] => ([(c, c)], [])
        end
      else if Ascii.eqb c "]" then ([], p1)
      else
        match p1 with
        | d :: hi :: p3 =>
            if Ascii.eqb d "-" then
              let '(its, r) := class_items p3 in
              ((if (N_of_ascii hi <? N_of_ascii c)%N then (hi, c) else (c, hi)) :: its, r)
            else
              let '(its, r) := class_items p1 in ((c, c) :: its, r)
        | _ => let '(its, r) := class_items p1 in ((c, c) :: its, r)
        end
  end.

Fixpoint tokens (fuel : nat) (p : list ascii) : list token :=
  match fuel with
  | O => []
  | S fuel' =>
      match p with
      | [] => []
      | c :: p1 =>
          if Ascii.eqb c "*" then Star :: tokens fuel' p1
          else if Ascii.eqb c "?" then Any :: tokens fuel' p1
          else if Ascii.eqb c "[" then
            match p1 with
            | n :: p2 =>
                if Ascii.eqb n "^"
                then let '(its, r) := class_items p2 in Class true its :: tokens fuel' r
                else let '(its, r) := class_items p1 in Class false its :: tokens fuel' r
            | [] => [Class false []]
            end
          else if Ascii.eqb c "\" then
            match p1 with
            | e :: p2 => Lit e :: tokens fuel' p2
            | [] => [Lit c]
            end
          else Lit c :: tokens fuel' p1
      end
  end.

Definition in_item (c : ascii) (it : ascii * ascii) : bool :=
  (N_of_ascii (fst it) <=? N_of_ascii c)%N && (N_of_ascii c <=? N_of_ascii (snd it))%N.

Fixpoint matches (ts : list token) (s : list ascii) : bool :=
  match ts with
  | [] => match s with [] => true | _ => false end
  | Star :: ts' =>
      (fix star (s : list ascii) : bool :=
         matches ts' s || match s with [] => false | _ :: s' => star s' end) s
  | Any :: ts' =>
      match s with _ :: s' => matches ts' s' | [] => false end
  | Lit c :: ts' =>
      match s with c' :: s' => Ascii.eqb c c' && matches ts' s' | [] => false end
  | Class neg its :: ts' =>
      match s with
      | c' :: s' => xorb neg (existsb (in_item c') its) && matches ts' s'
      | [] => false
      end
  end.

(** [glob pattern key]: does [key] match [pattern]? *)
Definition glob (pattern key : string) : bool :=
  matches (tokens (String.length pattern) (chars pattern)) (chars key).

(** The characters with a special meaning in a pattern. *)
Definition is_meta (c : ascii) : bool :=
  Ascii.eqb c "*" || Ascii.eqb c "?" || Ascii.eqb c "[" || Ascii.eqb c "\".

Definition plain (s : string) : bool := forallb (fun c => negb (is_meta c)) (chars s).

End Glob.

(** ** Values, [JSON.stringify] and [JSON.parse]

    The values the cache is handed ([value: any]) and hands back.  The
    JSON values are [null], booleans, numbers, strings, arrays and
    objects: these are what [JSON.parse] returns.  Beyond them a value
    can be a number that is not finite ([JNaN] stands for NaN and the
    infinities) or a [Date] object, alone or inside an array or an
    object; [JSON.stringify] prints the former as [null] and the latter
    as the string its [toISOString] gives ([null] for an invalid date).
    The values for which [JSON.stringify] gives no text ([undefined],
    functions, symbols) or throws (a BigInt, a cyclic object) are left
    out.

    A number is a finite decimal: [JNum n] is the integer [n], and
    [JFrac negative whole fraction] is the number that is no integer,
    [whole] followed after the decimal point by the digits [fraction]
    (the last of them not 0), negated when [negative].  A string is the
    sequence of the bytes of its UTF-8 encoding.  An object keeps its
    members in insertion order; a well-formed one has no key twice.

    The printer is [JSON.stringify] without indentation.  The reader is a
    recursive-descent [JSON.parse] for the JSON grammar: it skips blanks
    between tokens, reads numbers with a fraction and an exponent,
    rejects raw control characters in strings, decodes every escape
    (a [\u] escape to the bytes of its character, a surrogate pair to
    those of the character it encodes) and lets a repeated key overwrite
    the earlier member. *)

Unset Elimination Schemes.
Inductive json : Type :=
| JNull
| JBool (b : bool)
| JNum (n : Z)
| JFrac (negative : bool) (whole : N) (fraction : string)
| JStr (s : string)
| JNaN
| JDate (t : Z)
| JArr (items : list json)
| JObj (members : list (string * json)).
Set Elimination Schemes.

Module JSON.

Definition hex_digit (n : N) : ascii :=
  if (n <? 10)%N then ascii_of_N (48 + n) else ascii_of_N (87 + n).

Definition hex_value (c : ascii) : option N :=
  let n := N_of_ascii c in
  if (48 <=? n)%N && (n <=? 57)%N then Some (n - 48)%N
  else if (97 <=? n)%N && (n <=? 102)%N then Some (n - 87)%N
  else if (65 <=? n)%N && (n <=? 70)%N then Some (n - 55)%N
  else None.

(** One character of a string, as it is written between the quotes. *)
Definition escape_char (c : ascii) : list ascii :=
  let n := N_of_ascii c in
  if Ascii.eqb c dquote then ["\"; dquote]%char
  else if Ascii.eqb c "\" then ["\"; "\"]%char
  else if (n =? 8)%N then ["\"; "b"]%char
  else if (n =? 9)%N then ["\"; "t"]%char
  else if (n =? 10)%N then ["\"; "n"]%char
  else if (n =? 12)%N then ["\"; "f"]%char
  else if (n =? 13)%N then ["\"; "r"]%char
  else if (n <? 32)%N then ["\"; "u"; "0"; "0"; hex_digit (n / 16); hex_digit (n mod 16)]%char
  else [c].

Definition quote (s : string) : list ascii :=
  dquote :: concat (map escape_char (chars s)) ++ [dquote].

Fixpoint joined (parts : list (list ascii)) : list ascii :=
  match parts with
  | [] => []
  | x :: rest =>
      x ++ match rest with [] => [] | _ => ","%char :: joined rest end
  end.

(** The zeros a run of digits starts with, and the run without them. *)
Fixpoint leading_zeros (l : list ascii) : nat :=
  match l with
  | c :: l' => if Ascii.eqb c "0" then S (leading_zeros l') else O
  | [] => O
  end.

Fixpoint drop_zeros (l : list ascii) : list ascii :=
  match l with
  | c :: l' => if Ascii.eqb c "0" then drop_zeros l' else l
  | [] => []
  end.

(** A number that is no integer, as [Number.prototype.toString] writes
    it: the integer part, the point and the fraction; but from the
    seventh decimal place on ([0.0000001] and below) the first digit, the
    other digits after a point, and the exponent. *)
Definition print_frac (negative : bool) (whole : N) (fraction : list ascii)
  : list ascii :=
  (if negative then ["-"%char] else [])
    ++ match drop_zeros fraction with
       | d :: rest =>
           if (whole =? 0)%N && (6 <=? leading_zeros fraction)%nat then
             d :: match rest with [] => [] | _ => "."%char :: rest end
               ++ "e"%char :: "-"%char
               :: chars (Num.toString (Z.of_nat (S (leading_zeros fraction))))
           else chars (Num.toString (Z.of_N whole)) ++ "."%char :: fraction
       | [] => chars (Num.toString (Z.of_N whole)) ++ "."%char :: fraction
       end.

Fixpoint print (v : json) : list ascii :=
  match v with
  | JNull => chars "null"
  | JBool true => chars "true"
  | JBool false => chars "false"
  | JNum n => chars (Num.toString n)
  | JFrac negative whole fraction => print_frac negative whole (chars fraction)
  | JStr s => quote s
  | JNaN => chars "null"
  | JDate t => if Date.valid t then quote (Date.toISOString t) else chars "null"
  | JArr items => "["%char :: joined (map print items) ++ ["]"%char]
  | JObj members =>
      "{"%char
        :: joined (map (fun kv : string * json => match kv with
                                  | (k, x) => quote k ++ ":"%char :: print x
                                  end) members)
        ++ ["}"%char]
  end.

Definition stringify (v : json) : string := text (print v).

Definition is_ws (c : ascii) : bool :=
  let n := N_of_ascii c in
  (n =? 32)%N || (n =? 9)%N || (n =? 10)%N || (n =? 13)%N.

Arguments is_ws : simpl never.

Fixpoint skip_ws (s : list ascii) : list ascii :=
  match s with
  | c :: s' => if is_ws c then skip_ws s' else s
  | [] => []
  end.

(** The code unit four hexadecimal digits write. *)
Definition hex4 (h1 h2 h3 h4 : ascii) : option N :=
  match hex_value h1, hex_value h2, hex_value h3, hex_value h4 with
  | Some a, Some b, Some c, Some d => Some (((a * 16 + b) * 16 + c) * 16 + d)%N
  | _, _, _, _ => None
  end.

Definition high_surrogate (code : N) : bool :=
  (55296 <=? code)%N && (code <=? 56319)%N.

Definition low_surrogate (code : N) : bool :=
  (56320 <=? code)%N && (code <=? 57343)%N.

(** The character a surrogate pair encodes. *)
Definition code_point (high low : N) : N :=
  (65536 + (high - 55296) * 1024 + (low - 56320))%N.

(** The bytes of a character in UTF-8. *)
Definition utf8 (code : N) : list ascii :=
  if (code <? 128)%N then [ascii_of_N code]
  else if (code <? 2048)%N then
    [ascii_of_N (192 + code / 64); ascii_of_N (128 + code mod 64)]
  else if (code <? 65536)%N then
    [ascii_of_N (224 + code / 4096); ascii_of_N (128 + code / 64 mod 64);
     ascii_of_N (128 + code mod 64)]
  else
    [ascii_of_N (240 + code / 262144); ascii_of_N (128 + code / 4096 mod 64);
     ascii_of_N (128 + code / 64 mod 64); ascii_of_N (128 + code mod 64)].

(** The characters of a string, after the opening quote, up to and
    without the closing one. *)
Fixpoint parse_string (s : list ascii) : option (string * list ascii) :=
  match s with
  | [] => None
  | c :: s1 =>
      if Ascii.eqb c dquote then Some (EmptyString, s1)
      else if Ascii.eqb c "\" then
        match s1 with
        | e :: s2 =>
            if Ascii.eqb e "u" then
              match s2 with
              | h1 :: h2 :: h3 :: h4 :: s3 =>
                  match hex4 h1 h2 h3 h4 with
                  | Some code =>
                      let alone :=
                        match parse_string s3 with
                        | Some (str, r) => Some (text (utf8 code) +:+ str, r)
                        | None => None
                        end in
                      if high_surrogate code then
                        match s3 with
                        | b :: u :: l1 :: l2 :: l3 :: l4 :: s4 =>
                            if Ascii.eqb b "\" && Ascii.eqb u "u" then
                              match hex4 l1 l2 l3 l4 with
                              | Some low =>
                                  if low_surrogate low then
                                    match parse_string s4 with
                                    | Some (str, r) =>
                                        Some (text (utf8 (code_point code low)) +:+ str, r)
                                    | None => None
                                    end
                                  else alone
                              | None => None
                              end
                            else alone
                        | _ => alone
                        end
                      else alone
                  | None => None
                  end
              | _ => None
              end
            else
              let plain (x : ascii) :=
                match parse_string s2 with
                | Some (str, r) => Some (String x str, r)
                | None => None
                end in
              if Ascii.eqb e dquote then plain dquote
              else if Ascii.eqb e "\" then plain "\"%char
              else if Ascii.eqb e "/" then plain "/"%char
              else if Ascii.eqb e "b" then plain (ascii_of_N 8)
              else if Ascii.eqb e "t" then plain (ascii_of_N 9)
              else if Ascii.eqb e "n" then plain (ascii_of_N 10)
              else if Ascii.eqb e "f" then plain (ascii_of_N 12)
              else if Ascii.eqb e "r" then plain (ascii_of_N 13)
              else None
        | [] => None
        end
      else if (N_of_ascii c <? 32)%N then None
      else
        match parse_string s1 with
        | Some (str, r) => Some (String c str, r)
        | None => None
        end
  end.

(** The longest run of digits at the head of [s], and what follows. *)
Fixpoint take_digits (s : list ascii) : list ascii * list ascii :=
  match s with
  | c :: s' =>
      if is_digit c then let '(ds, r) := take_digits s' in (c :: ds, r)
      else ([], s)
  | [] => ([], [])
  end.

(** The number a run of digits writes (0 for no digit). *)
Definition digits_N (ds : list ascii) : N :=
  match NilZero.uint_of_string (text ds) with
  | Some u => N.of_uint u
  | None => 0%N
  end.

(** [.digits], when there is a point. *)
Definition parse_fraction (s : list ascii) : option (list ascii * list ascii) :=
  match s with
  | c :: s1 =>
      if Ascii.eqb c "." then
        match take_digits s1 with
        | ([], _) => None
        | (fs, s2) => Some (fs, s2)
        end
      else Some ([], s)
  | [] => Some ([], s)
  end.

(** [e], a sign or none, and digits, when there is an exponent. *)
Definition parse_exponent (s : list ascii) : option (Z * list ascii) :=
  match s with
  | c :: s1 =>
      if Ascii.eqb c "e" || Ascii.eqb c "E" then
        let '(negative, s2) :=
          match s1 with
          | sign :: t =>
              if Ascii.eqb sign "-" then (true, t)
              else if Ascii.eqb sign "+" then (false, t)
              else (false, s1)
          | [] => (false, s1)
          end in
        match take_digits s2 with
        | ([], _) => None
        | (xs, s3) =>
            let x := Z.of_N (digits_N xs) in
            Some (if negative then - x else x, s3)
        end
      else Some (0, s)
  | [] => Some (0, s)
  end.

(** The digits before and after the point of the number with the digits
    [ds] before and [fs] after it, times ten to the power [x]. *)
Definition shift_point (ds fs : list ascii) (x : Z) : list ascii * list ascii :=
  if 0 <=? x then
    let n := Z.to_nat x in
    (ds ++ firstn n fs ++ repeat "0"%char (n - List.length fs), skipn n fs)
  else
    let n := Z.to_nat (- x) in
    (firstn (List.length ds - n) ds,
     repeat "0"%char (n - List.length ds) ++ skipn (List.length ds - n) ds ++ fs).

(** A run of digits without the zeros it ends with. *)
Definition strip_zeros (l : list ascii) : list ascii := rev (drop_zeros (rev l)).

(** The number with the digits [ds] before and [fs] after the point, times
    ten to the power [x], negated when [negative]. *)
Definition number (negative : bool) (ds fs : list ascii) (x : Z) : json :=
  let '(ds', fs') := shift_point ds fs x in
  let whole := digits_N ds' in
  match strip_zeros fs' with
  | [] => JNum (if negative then - Z.of_N whole else Z.of_N whole)
  | fraction => JFrac negative whole (text fraction)
  end.

(** A number: a minus sign or none; the integer part, which is 0 or
    starts with another digit (it is the text that its value prints as);
    a fraction or none; an exponent or none. *)
Definition parse_number (s : list ascii) : option (json * list ascii) :=
  let '(negative, s1) :=
    match s with
    | c :: t => if Ascii.eqb c "-" then (true, t) else (false, s)
    | [] => (false, s)
    end in
  let '(ds, s2) := take_digits s1 in
  match Num.ofString (text ds) with
  | Some _ =>
      match parse_fraction s2 with
      | Some (fs, s3) =>
          match parse_exponent s3 with
          | Some (x, s4) => Some (number negative ds fs x, s4)
          | None => None
          end
      | None => None
      end
  | None => None
  end.

(** [obj[k] = x]: overwrite the member [k] where it stands, or add it at
    the end. *)
Fixpoint obj_set (k : string) (x : json) (members : list (string * json))
  : list (string * json) :=
  match members with
  | [] => [(k, x)]
  | (k', x') :: rest =>
      if String.eqb k k' then (k', x) :: rest else (k', x') :: obj_set k x rest
  end.

(** The elements of an array after the first blank-skipping look at them:
    [value (, value)* ]].  [p] reads one value; [n] bounds the number of
    elements. *)
Fixpoint parse_elements (p : list ascii -> option (json * list ascii))
    (n : nat) (s : list ascii) (acc : list json) : option (json * list ascii) :=
  match n with
  | O => None
  | S n' =>
      match p s with
      | Some (x, r) =>
          match skip_ws r with
          | c :: r' =>
              if Ascii.eqb c "," then parse_elements p n' r' (acc ++ [x])
              else if Ascii.eqb c "]" then Some (JArr (acc ++ [x]), r')
              else None
          | [] => None
          end
      | None => None
      end
  end.

(** The members of an object: ["key" : value (, "key" : value)* }]. *)
Fixpoint parse_members (p : list ascii -> option (json * list ascii))
    (n : nat) (s : list ascii) (acc : list (string * json))
  : option (json * list ascii) :=
  match n with
  | O => None
  | S n' =>
      match skip_ws s with
      | q :: s1 =>
          if Ascii.eqb q dquote then
            match parse_string s1 with
            | Some (k, s2) =>
                match skip_ws s2 with
                | c :: s3 =>
                    if Ascii.eqb c ":" then
                      match p s3 with
                      | Some (x, s4) =>
                          match skip_ws s4 with
                          | d :: s5 =>
                              if Ascii.eqb d ","
                              then parse_members p n' s5 (obj_set k x acc)
                              else if Ascii.eqb d "}"
                              then Some (JObj (obj_set k x acc), s5)
                              else None
                          | [] => None
                          end
                      | None => None
                      end
                    else None
                | [] => None
                end
            | None => None
            end
          else None
      | [] => None
      end
  end.

Fixpoint parse_value (fuel : nat) (s : list ascii) : option (json * list ascii) :=
  match fuel with
  | O => None
  | S fuel' =>
      match skip_ws s with
      | [] => None
      | c :: r =>
          if Ascii.eqb c "n" then
            match strip_prefix (chars "ull") r with
            | Some r' => Some (JNull, r') | None => None end
          else if Ascii.eqb c "t" then
            match strip_prefix (chars "rue") r with
            | Some r' => Some (JBool true, r') | None => None end
          else if Ascii.eqb c "f" then
            match strip_prefix (chars "alse") r with
            | Some r' => Some (JBool false, r') | None => None end
          else if Ascii.eqb c dquote then
            match parse_string r with
            | Some (str, r') => Some (JStr str, r') | None => None end
          else if Ascii.eqb c "[" then
            match skip_ws r with
            | c' :: r' =>
                if Ascii.eqb c' "]" then Some (JArr [], r')
                else parse_elements (parse_value fuel') (List.length r) r []
            | [] => None
            end
          else if Ascii.eqb c "{" then
            match skip_ws r with
            | c' :: r' =>
                if Ascii.eqb c' "}" then Some (JObj [], r')
                else parse_members (parse_value fuel') (List.length r) r []
            | [] => None
            end
          else parse_number (c :: r)
      end
  end.

(** [JSON.parse]: one value, then nothing but blanks.  [None] stands for
    the [SyntaxError] it throws. *)
Definition parse (s : string) : option json :=
  let l := chars s in
  match parse_value (S (List.length l)) l with
  | Some (v, r) => match skip_ws r with [] => Some v | _ => None end
  | None => None
  end.

(** The digits of a fraction: at least one, the last of them not 0. *)
Definition is_fraction (l : list ascii) : bool :=
  forallb is_digit l
    && match rev l with
       | c :: _ => negb (Ascii.eqb c "0")
       | [] => false
       end.

(** A JSON value: no number that is not finite and no date in it, every
    fraction written with its own digits, and no key twice in any
    object. *)
Fixpoint wf (v : json) : Prop :=
  match v with
  | JFrac _ _ fraction => is_fraction (chars fraction) = true
  | JNaN => False
  | JDate _ => False
  | JArr items => (fix all (l : list json) : Prop :=
                     match l with [] => True | x :: l' => wf x /\ all l' end) items
  | JObj members =>
      NoDup (map fst members)
      /\ (fix all (l : list (string * json)) : Prop :=
            match l with [] => True | (_, x) :: l' => wf x /\ all l' end) members
  | _ => True
  end.

Fixpoint depth (v : json) : nat :=
  match v with
  | JArr items => S (fold_right (fun x d => Nat.max (depth x) d) O items)
  | JObj members =>
      S (fold_right (fun kv d => Nat.max (depth (snd kv)) d) O members)
  | _ => O
  end.

End JSON.

(** ** Asynchronous methods

    An [async] method runs against the state of the world [W] and either
    resolves to a value or rejects with an error; [await] is [bind] and
    [try { ... } catch (error) { ... }] is [try_catch]. *)

Inductive outcome (A : Type) : Type :=
| Ok (a : A)
| Throw (err : string).

Arguments Ok {A} a.
Arguments Throw {A} err.

Definition Async (W A : Type) : Type := W -> outcome A * W.

Definition ret {W A : Type} (a : A) : Async W A := fun w => (Ok a, w).

Definition throw {W A : Type} (err : string) : Async W A := fun w => (Throw err, w).

Definition bind {W A B : Type} (m : Async W A) (k : A -> Async W B) : Async W B :=
  fun w =>
    match m w with
    | (Ok a, w') => k a w'
    | (Throw err, w') => (Throw err, w')
    end.

Definition try_catch {W A : Type} (body : Async W A) (handler : string -> Async W A)
  : Async W A :=
  fun w =>
    match body w with
    | (Ok a, w') => (Ok a, w')
    | (Throw err, w') => handler err w'
    end.

Notation "x <<- m ;; k" := (bind m (fun x => k))
  (at level 100, m at next level, right associativity).

(** [for (const x of xs) { await body(x); }] *)
Fixpoint for_of {W A : Type} (xs : list A) (body : A -> Async W unit) : Async W unit :=
  match xs with
  | [] => ret tt
  | x :: rest => _ <<- body x ;; for_of rest body
  end.

(** ** The store client

    The operations of the [ioredis] client the cache service calls, and
    the wall clock [Date.now ()] of the process.  The code is written
    against this interface; any implementation of it, however it behaves
    or fails, is a store the code may face. *)

Class Redis (W : Type) : Type := {
  Date_now : W -> Z;
  redis_get : string -> Async W (option string);
  redis_setex : string -> Z -> string -> Async W unit;
  redis_del : list string -> Async W Z;
  redis_keys : string -> Async W (list string);
  redis_exists : string -> Async W Z;
  redis_ttl : string -> Async W Z;
  redis_incr : string -> Async W Z;
  redis_expire : string -> Z -> Async W Z
}.

(** ** Cache configuration ([CACHE_TTL], [CACHE_KEYS], [CACHE_PATTERNS]) *)

Module CACHE_TTL.
Definition SHORT : Z := 300.
Definition MEDIUM : Z := 1800.
Definition LONG : Z := 3600.
Definition VERY_LONG : Z := 86400.
End CACHE_TTL.

Module CACHE_KEYS.
Definition USER (userId : string) : string := "user:" +:+ userId.
Definition USER_CATEGORIES (userId : string) : string :=
  "user:" +:+ userId +:+ ":categories".
(** [page || 1] and [limit || 20]: the default stands in for an omitted
    argument and for 0. *)
Definition or_default (n : option Z) (d : Z) : Z :=
  match n with
  | Some z => if z =? 0 then d else z
  | None => d
  end.
Definition USER_EXPENSES (userId : string) (page limit : option Z) : string :=
  "user:" +:+ userId +:+ ":expenses:" +:+ Num.toString (or_default page 1)
    +:+ ":" +:+ Num.toString (or_default limit 20).
Definition USER_EXPENSE_COUNT (userId : string) : string :=
  "user:" +:+ userId +:+ ":expense_count".
Definition CATEGORY (categoryId : Z) : string :=
  "category:" +:+ Num.toString categoryId.
Definition EXPENSE (expenseId : Z) : string :=
  "expense:" +:+ Num.toString expenseId.
Definition CATEGORY_EXPENSE_COUNT (categoryId : Z) : string :=
  "category:" +:+ Num.toString categoryId +:+ ":expense_count".
End CACHE_KEYS.

Module CACHE_PATTERNS.
Definition USER_ALL (userId : string) : string := "user:" +:+ userId +:+ "*".
Definition USER_CATEGORIES (userId : string) : string :=
  "user:" +:+ userId +:+ ":categories*".
Definition USER_EXPENSES (userId : string) : string :=
  "user:" +:+ userId +:+ ":expenses*".
Definition CATEGORY_ALL (categoryId : Z) : string :=
  "category:" +:+ Num.toString categoryId +:+ "*".
Definition EXPENSE_ALL (expenseId : Z) : string :=
  "expense:" +:+ Num.toString expenseId +:+ "*".
End CACHE_PATTERNS.

(** JavaScript truthiness of the arguments the code tests: a string that
    may be [null] or [undefined], and an optional number. *)
Definition truthy_string (s : option string) : bool :=
  match s with
  | Some (String _ _) => true
  | _ => false
  end.

Definition truthy_number (n : option Z) : bool :=
  match n with
  | Some z => negb (z =? 0)
  | None => false
  end.

(** ** [CacheService] *)

Module CacheService.
Section WithStore.
Context {W : Type} `{Redis W}.

(** [JSON.parse (value) as T], throwing on malformed text. *)
Definition JSON_parse (payload : string) : Async W json :=
  match JSON.parse payload with
  | Some v => ret v
  | None => throw "SyntaxError"
  end.

Definition get (key : string) : Async W json :=
  try_catch
    (value <<- redis_get key ;;
     if negb (truthy_string value) then ret JNull
     else JSON_parse (default EmptyString value))
    (fun _ => ret JNull).

Definition set (key : string) (value : json) (ttl : option Z) : Async W bool :=
  let ttl := default CACHE_TTL.MEDIUM ttl in
  try_catch
    (let serialized := JSON.stringify value in
     _ <<- redis_setex key ttl serialized ;;
     ret true)
    (fun _ => ret false).

Definition del (key : string) : Async W bool :=
  try_catch
    (_ <<- redis_del [key] ;;
     ret true)
    (fun _ => ret false).

Definition delPattern (pattern : string) : Async W Z :=
  try_catch
    (keys <<- redis_keys pattern ;;
     if (Z.of_nat (List.length keys) =? 0) then ret 0
     else
       result <<- redis_del keys ;;
       ret result)
    (fun _ => ret 0).

Definition exists_ (key : string) : Async W bool :=
  try_catch
    (result <<- redis_exists key ;;
     ret (result =? 1))
    (fun _ => ret false).

Definition ttl (key : string) : Async W Z :=
  try_catch
    (redis_ttl key)
    (fun _ => ret (-1)).

Definition incr (key : string) (ttl : option Z) : Async W Z :=
  try_catch
    (result <<- redis_incr key ;;
     if truthy_number ttl && (result =? 1) then
       _ <<- redis_expire key (default 0 ttl) ;;
       ret result
     else ret result)
    (fun _ => ret 0).

End WithStore.
End CacheService.

(** ** [CacheInvalidator] *)

Module CacheInvalidator.
Section WithStore.
Context {W : Type} `{Redis W}.

Definition delete_each (patterns : list string) : Async W unit :=
  for_of patterns (fun pattern => _ <<- CacheService.delPattern pattern ;; ret tt).

Definition invalidateUser (userId : string) : Async W unit :=
  let patterns :=
    [ CACHE_PATTERNS.USER_ALL userId;
      CACHE_PATTERNS.USER_CATEGORIES userId;
      CACHE_PATTERNS.USER_EXPENSES userId ] in
  delete_each patterns.

Definition invalidateCategory (categoryId : Z) (userId : option string) : Async W unit :=
  let patterns := [ CACHE_PATTERNS.CATEGORY_ALL categoryId ] in
  let patterns :=
    if truthy_string userId
    then patterns ++ [ CACHE_PATTERNS.USER_CATEGORIES (default EmptyString userId) ]
    else patterns in
  delete_each patterns.

Definition invalidateExpense (expenseId : Z) (userId : option string) : Async W unit :=
  let patterns := [ CACHE_PATTERNS.EXPENSE_ALL expenseId ] in
  let patterns :=
    if truthy_string userId
    then patterns ++ [ CACHE_PATTERNS.USER_EXPENSES (default EmptyString userId) ]
    else patterns in
  delete_each patterns.

Definition invalidateUserExpenses (userId : string) : Async W unit :=
  _ <<- CacheService.delPattern (CACHE_PATTERNS.USER_EXPENSES userId) ;;
  ret tt.

Definition invalidateUserCategories (userId : string) : Async W unit :=
  _ <<- CacheService.delPattern (CACHE_PATTERNS.USER_CATEGORIES userId) ;;
  ret tt.

End WithStore.
End CacheInvalidator.

(** ** [RateLimitService] *)

Record RateLimitResult : Type := {
  allowed : bool;
  remaining : Z;
  resetTime : Z;
  totalHits : Z
}.

Module RateLimitService.
Section WithStore.
Context {W : Type} `{Redis W}.

(** [Math.floor (now / windowMs) * windowMs].  For [windowMs = 0] the
    code has NaN here, in the store key and in [resetTime], where the
    integers have 0. *)
Definition windowStart (now windowMs : Z) : Z :=
  Num.floor_div now windowMs * windowMs.

Definition cacheKey (key : string) (windowStart : Z) : string :=
  "rate_limit:" +:+ key +:+ ":" +:+ Num.toString windowStart.

(** Whether the code's [resetTime] is a time value.  For [windowMs = 0]
    the code's window start, [Math.floor (now / 0) * 0], and with it the
    reset time are NaN, where the integers have 0. *)
Definition reset_is_time_value (windowMs resetTime : Z) : bool :=
  negb (windowMs =? 0) && Date.valid resetTime.

(** The [logger.warn] of a refused request.  The object it is handed
    holds [new Date (resetTime).toISOString ()], which throws a
    RangeError when [resetTime] is no time value; nothing else of the
    call is kept. *)
Definition warn_rate_limit_exceeded (windowMs resetTime : Z) : Async W unit :=
  if reset_is_time_value windowMs resetTime then ret tt
  else throw "RangeError: Invalid time value".

Definition checkRateLimit (key : string) (limit windowMs : Z) : Async W RateLimitResult :=
  fun w =>
    let now := Date_now w in
    let windowStart := windowStart now windowMs in
    let cacheKey := cacheKey key windowStart in
    try_catch
      (currentCount <<- CacheService.incr cacheKey (Some (Num.ceil_div windowMs 1000)) ;;
       let remaining := Z.max 0 (limit - currentCount) in
       let resetTime := windowStart + windowMs in
       let allowed := currentCount <=? limit in
       let result := {| allowed := allowed;
                        remaining := remaining;
                        resetTime := resetTime;
                        totalHits := currentCount |} in
       _ <<- (if negb allowed then warn_rate_limit_exceeded windowMs resetTime
              else ret tt) ;;
       ret result)
      (fun _ =>
         ret {| allowed := true;
                remaining := limit;
                resetTime := now + windowMs;
                totalHits := 0 |})
      w.

(** [cached || 0], for the cached value [getRateLimitInfo] takes for a
    number ([get<number>]): the number itself, or 0 for a falsy value.
    [None] stands for a truthy value that is not a number, which the
    code's own typing rules out and whose arithmetic has no integer
    result. *)
Definition count_or_zero (cached : json) : option Z :=
  match cached with
  | JNum n => Some n
  | JNull => Some 0
  | JBool false => Some 0
  | JStr EmptyString => Some 0
  | _ => None
  end.

Definition getRateLimitInfo (key : string) (limit windowMs : Z)
  : Async W (option RateLimitResult) :=
  fun w =>
    let now := Date_now w in
    let windowStart := windowStart now windowMs in
    let cacheKey := cacheKey key windowStart in
    try_catch
      (cached <<- CacheService.get cacheKey ;;
       match count_or_zero cached with
       | Some currentCount =>
           let remaining := Z.max 0 (limit - currentCount) in
           let resetTime := windowStart + windowMs in
           let allowed := currentCount <=? limit in
           ret (Some {| allowed := allowed;
                        remaining := remaining;
                        resetTime := resetTime;
                        totalHits := currentCount |})
       | None => ret None
       end)
      (fun _ =>
         ret (Some {| allowed := true;
                      remaining := limit;
                      resetTime := now + windowMs;
                      totalHits := 0 |}))
      w.

Definition resetRateLimit (key : string) : Async W bool :=
  try_catch
    (let pattern := "rate_limit:" +:+ key +:+ ":*" in
     deleted <<- CacheService.delPattern pattern ;;
     ret (0 <? deleted))
    (fun _ => ret false).

End WithStore.
End RateLimitService.

(** ** The rate-limit middleware ([createRateLimitMiddleware]) *)

Module Middleware.

(** [limitConfig]: a number of requests per window of so many seconds. *)
Record limitConfig : Type := {
  requests : Z;
  window : Z
}.

(** The [set] object of a request context: its response headers, when it
    has any, and the response status. *)
Record SetObject : Type := {
  headers : option (gmap string string);
  status : option Z
}.

(** What the middleware reads and writes of a request context: the id of
    the user ([context.user?.id]), the two request headers it looks at
    ([context.request?.headers?.get?.(...)]), and [context.set]. *)
Record Context : Type := {
  user_id : option string;
  x_forwarded_for : option string;
  x_real_ip : option string;
  set : option SetObject
}.

(** The body of the 429 response. *)
Record TooManyRequests : Type := {
  success : bool;
  message : string;
  error : string;
  retryAfter : Z
}.

(** [a || b] on strings that may be missing. *)
Definition or_else (a : option string) (b : string) : string :=
  if truthy_string a then default EmptyString a else b.

(** The default rate-limit key: [`${userId}:${ip}`]. *)
Definition defaultKey (context : Context) : string :=
  let userId := or_else (user_id context) "anonymous" in
  let ip := or_else (x_forwarded_for context) (or_else (x_real_ip context) "unknown") in
  userId +:+ ":" +:+ ip.

(** The four rate-limit headers, written when [context.set?.headers]
    exists. *)
Definition with_headers (config : limitConfig) (result : RateLimitResult)
    (context : Context) : Context :=
  match set context with
  | Some {| headers := Some h; status := st |} =>
      {| user_id := user_id context;
         x_forwarded_for := x_forwarded_for context;
         x_real_ip := x_real_ip context;
         set := Some
           {| headers := Some
                (<["X-RateLimit-Used" := Num.toString (totalHits result)]>
                   (<["X-RateLimit-Reset" :=
                        Num.toString (Num.ceil_div (resetTime result) 1000)]>
                      (<["X-RateLimit-Remaining" := Num.toString (remaining result)]>
                         (<["X-RateLimit-Limit" := Num.toString (requests config)]> h))));
              status := st |} |}
  | _ => context
  end.

Section WithStore.
Context {W : Type} `{Redis W}.

(** The middleware: the context as it leaves it, and the body it returns
    ([None] is [undefined]: go on to the next handler).  A refusal is
    logged with the reset time as a date, like in [checkRateLimit], here
    outside any [try].  Writing the status of a context without a [set]
    object throws a [TypeError].  [Date.now ()] is read a second time
    for [retryAfter], after the store has been asked. *)
Definition createRateLimitMiddleware (config : limitConfig)
    (keyGenerator : option (Context -> string)) (context : Context)
  : Async W (Context * option TooManyRequests) :=
  let windowMs := window config * 1000 in
  let key :=
    match keyGenerator with
    | Some generate => generate context
    | None => defaultKey context
    end in
  result <<- RateLimitService.checkRateLimit key (requests config) windowMs ;;
  let context := with_headers config result context in
  if negb (allowed result) then
    _ <<- RateLimitService.warn_rate_limit_exceeded windowMs (resetTime result) ;;
    match set context with
    | Some s =>
        fun w =>
          (Ok ({| user_id := user_id context;
                  x_forwarded_for := x_forwarded_for context;
                  x_real_ip := x_real_ip context;
                  set := Some {| headers := headers s; status := Some 429 |} |},
               Some {| success := false;
                       message := "Too many requests";
                       error := "Rate limit exceeded";
                       retryAfter := Num.ceil_div (resetTime result - Date_now w) 1000 |}),
           w)
    | None => throw "TypeError"
    end
  else ret (context, None).

End WithStore.
End Middleware.

(** ** The [Cacheable] decorator *)

Definition is_null (v : json) : bool :=
  match v with
  | JNull => true
  | _ => false
  end.

Section Decorator.
Context {W : Type} `{Redis W} {A : Type}.

(** The method a [Cacheable (keyGenerator, ttl)] decorator puts in place
    of [method].  A method resolves to a value or to [undefined]
    ([None]). *)
Definition Cacheable (keyGenerator : A -> string) (ttl : option Z)
    (method : A -> Async W (option json)) (args : A) : Async W (option json) :=
  let ttl := default CACHE_TTL.MEDIUM ttl in
  let cacheKey := keyGenerator args in
  cached <<- CacheService.get cacheKey ;;
  if negb (is_null cached) then ret (Some cached)
  else
    result <<- method args ;;
    match result with
    | Some v =>
        if negb (is_null v) then
          _ <<- CacheService.set cacheKey v (Some ttl) ;;
          ret result
        else ret result
    | None => ret result
    end.

End Decorator.

(** ** The plain limiter ([rateLimit]) *)

Module PlainLimiter.
Section WithStore.
Context {W : Type} `{Redis W}.

(** [rateLimit (ip, limit = 60, window = 60)]: it talks to the store
    client directly and rejects with an error when the limit is
    exceeded. *)
Definition rateLimit (ip : string) (limit window : option Z) : Async W unit :=
  let limit := default 60 limit in
  let window := default 60 window in
  let key := "rate:" +:+ ip in
  count <<- redis_incr key ;;
  _ <<- (if count =? 1 then _ <<- redis_expire key window ;; ret tt else ret tt) ;;
  if limit <? count then throw "Rate limit exceeded" else ret tt.

End WithStore.
End PlainLimiter.

(** ** The cache keys of the AI routes *)

Module AIRoutes.
(** [`ai_analysis_${user.id}_${monthsBack}`] and
    [`ai_suggestions_${user.id}_${monthsBack}`]. *)
Definition analysisKey (userId : string) (monthsBack : Z) : string :=
  "ai_analysis_" +:+ userId +:+ "_" +:+ Num.toString monthsBack.
Definition suggestionsKey (userId : string) (monthsBack : Z) : string :=
  "ai_suggestions_" +:+ userId +:+ "_" +:+ Num.toString monthsBack.
End AIRoutes.

(** ** The key-value store *)

(** Modelled from the spec: the store is an external collaborator (a
    single shared key-value server, sections 2 and 6 of the spec), reached
    over a connection that may be down.  It keeps text payloads under
    string keys, each with an optional absolute expiry time, and evicts by
    expiry only.  The commands are the ones the spec lists: [GET],
    [SETEX], [DEL], [KEYS], [EXISTS], [TTL], [INCR] and [EXPIRE]; an
    absent key on [GET] gives the null sentinel, [INCR] on an absent key
    yields 1 and keeps the expiry of a key it finds, [TTL] gives [-1] for
    a key without expiry or an absent key.  Where the spec says nothing
    (an [INCR] on a payload that is no 64-bit integer or is the largest
    one, a [SETEX] with no positive number of seconds) the command is
    refused with an error, as the store's command reference has it.
    Time is in milliseconds.  In [store_client] a command takes no time
    and time passes by [elapse] between calls; [slow_client] is the same
    store with a delay before each answer, and what is said of the
    middleware's second clock reading is said for any client. *)
Record entry : Type := {
  payload : string;
  expire_at : option Z
}.

Record world : Type := {
  clock : Z;
  keyspace : gmap string entry;
  online : bool
}.

Module Store.

Definition with_keyspace (w : world) (m : gmap string entry) : world :=
  {| clock := clock w; keyspace := m; online := online w |}.

(** A key is gone once the clock has passed its expiry time. *)
Definition expired (now : Z) (e : entry) : bool :=
  match expire_at e with
  | Some t => t <? now
  | None => false
  end.

(** The entry a command finds under [k]. *)
Definition live (w : world) (k : string) : option entry :=
  match keyspace w !! k with
  | Some e => if expired (clock w) e then None else Some e
  | None => None
  end.

Definition is_live (w : world) (k : string) : bool :=
  match live w k with Some _ => true | None => false end.

(** Every command first needs the connection. *)
Definition command {A : Type} (run : world -> outcome A * world) : Async world A :=
  fun w => if online w then run w else (Throw "ECONNREFUSED", w).

Definition GET (k : string) : Async world (option string) :=
  command (fun w => (Ok (payload <$> live w k), w)).

Definition SETEX (k : string) (seconds : Z) (v : string) : Async world unit :=
  command (fun w =>
    if seconds <=? 0 then (Throw "ERR invalid expire time in 'setex' command", w)
    else
      (Ok tt,
       with_keyspace w
         (<[k := {| payload := v; expire_at := Some (clock w + seconds * 1000) |}]>
            (keyspace w)))).

Fixpoint del_keys (ks : list string) (w : world) : Z * world :=
  match ks with
  | [] => (0, w)
  | k :: rest =>
      let hit := if is_live w k then 1 else 0 in
      let '(n, w') := del_keys rest (with_keyspace w (delete k (keyspace w))) in
      (hit + n, w')
  end.

Definition DEL (ks : list string) : Async world Z :=
  command (fun w => let '(n, w') := del_keys ks w in (Ok n, w')).

Definition KEYS (pattern : string) : Async world (list string) :=
  command (fun w =>
    (Ok (List.filter (fun k => Glob.glob pattern k && is_live w k)
           (map fst (map_to_list (keyspace w)))),
     w)).

Definition EXISTS (k : string) : Async world Z :=
  command (fun w => (Ok (if is_live w k then 1 else 0), w)).

Definition TTL (k : string) : Async world Z :=
  command (fun w =>
    (Ok match live w k with
        | Some e =>
            match expire_at e with
            | Some t => (t - clock w + 500) / 1000
            | None => -1
            end
        | None => -1
        end,
     w)).

Definition INCR (k : string) : Async world Z :=
  command (fun w =>
    match live w k with
    | None =>
        (Ok 1,
         with_keyspace w (<[k := {| payload := "1"; expire_at := None |}]> (keyspace w)))
    | Some e =>
        match Num.string2ll (payload e) with
        | Some n =>
            if n <? 2 ^ 63 - 1 then
              (Ok (n + 1),
               with_keyspace w
                 (<[k := {| payload := Num.toString (n + 1); expire_at := expire_at e |}]>
                    (keyspace w)))
            else (Throw "ERR increment or decrement would overflow", w)
        | None => (Throw "ERR value is not an integer or out of range", w)
        end
    end).

Definition EXPIRE (k : string) (seconds : Z) : Async world Z :=
  command (fun w =>
    match live w k with
    | None => (Ok 0, w)
    | Some e =>
        if seconds <=? 0 then (Ok 1, with_keyspace w (delete k (keyspace w)))
        else
          (Ok 1,
           with_keyspace w
             (<[k := {| payload := payload e;
                        expire_at := Some (clock w + seconds * 1000) |}]>
                (keyspace w)))
    end).

(** [ms] milliseconds pass. *)
Definition elapse (ms : Z) (w : world) : world :=
  {| clock := clock w + Z.max 0 ms; keyspace := keyspace w; online := online w |}.

(** A reachable store with no key, at time [now]. *)
Definition empty_at (now : Z) : world :=
  {| clock := now; keyspace := ∅; online := true |}.

(** The same store with the connection lost. *)
Definition unplug (w : world) : world :=
  {| clock := clock w; keyspace := keyspace w; online := false |}.

End Store.

#[export] Instance store_client : Redis world := {
  Date_now := clock;
  redis_get := Store.GET;
  redis_setex := Store.SETEX;
  redis_del := Store.DEL;
  redis_keys := Store.KEYS;
  redis_exists := Store.EXISTS;
  redis_ttl := Store.TTL;
  redis_incr := Store.INCR;
  redis_expire := Store.EXPIRE
}.

(** The same store behind a slow connection: a command is answered
    [latency] milliseconds after it was sent. *)
Definition slow_client (latency : Z) : Redis world := {|
  Date_now := clock;
  redis_get := fun k w => Store.GET k (Store.elapse latency w);
  redis_setex := fun k seconds v w => Store.SETEX k seconds v (Store.elapse latency w);
  redis_del := fun ks w => Store.DEL ks (Store.elapse latency w);
  redis_keys := fun pattern w => Store.KEYS pattern (Store.elapse latency w);
  redis_exists := fun k w => Store.EXISTS k (Store.elapse latency w);
  redis_ttl := fun k w => Store.TTL k (Store.elapse latency w);
  redis_incr := fun k w => Store.INCR k (Store.elapse latency w);
  redis_expire := fun k seconds w => Store.EXPIRE k seconds (Store.elapse latency w)
|}.

(** ** Scenario drivers *)

(** A run of [checkRateLimit (key, limit, windowMs)] calls, the i-th one
    made [delays_i] milliseconds after the one before: the results, in
    order, and the store at the end. *)
Fixpoint check_run (key : string) (limit windowMs : Z) (delays : list Z) (w : world)
  : list (outcome RateLimitResult) * world :=
  match delays with
  | [] => ([], w)
  | d :: rest =>
      let '(r, w1) := RateLimitService.checkRateLimit key limit windowMs (Store.elapse d w) in
      let '(rs, w2) := check_run key limit windowMs rest w1 in
      (r :: rs, w2)
  end.

(** One call of a run: [checkRateLimit (call_key, call_limit, call_window)],
    made [call_delay] milliseconds after the call before. *)
Record call : Type := {
  call_delay : Z;
  call_key : string;
  call_limit : Z;
  call_window : Z
}.

(** The store after a run of calls, for any subjects, limits and window
    sizes. *)
Fixpoint calls_run (calls : list call) (w : world) : world :=
  match calls with
  | [] => w
  | c :: rest =>
      calls_run rest
        (snd (RateLimitService.checkRateLimit (call_key c) (call_limit c) (call_window c)
                (Store.elapse (call_delay c) w)))
  end.

(** ** Vocabulary of the properties *)

(** A method run in state [w] rejects, or resolves to [a]. *)
Definition fails {W A : Type} (m : Async W A) (w : W) : Prop :=
  exists err w', m w = (Throw err, w').

Definition returns {W A : Type} (m : Async W A) (w : W) (a : A) : Prop :=
  exists w', m w = (Ok a, w').

Definition resolves {W A : Type} (m : Async W A) (w : W) : Prop :=
  exists a, returns m w a.

(** The store is unreachable in state [w]: every command sent to it
    fails. *)
Definition store_down {W : Type} `{Redis W} (w : W) : Prop :=
  (forall k, fails (redis_get k) w)
  /\ (forall k seconds v, fails (redis_setex k seconds v) w)
  /\ (forall ks, fails (redis_del ks) w)
  /\ (forall pattern, fails (redis_keys pattern) w)
  /\ (forall k, fails (redis_exists k) w)
  /\ (forall k, fails (redis_ttl k) w)
  /\ (forall k, fails (redis_incr k) w)
  /\ (forall k seconds, fails (redis_expire k seconds) w).

(** What [get] makes of the payload the store hands back. *)
Definition decode (value : option string) : json :=
  match value with
  | Some (String c s) =>
      match JSON.parse (String c s) with
      | Some v => v
      | None => JNull
      end
  | _ => JNull
  end.

(** The verdict on hit number [hits]. *)
Definition verdict (limit reset hits : Z) : RateLimitResult :=
  {| allowed := hits <=? limit;
     remaining := Z.max 0 (limit - hits);
     resetTime := reset;
     totalHits := hits |}.

(** The record of the catch block of [checkRateLimit]: the request is let
    through. *)
Definition fail_open (limit reset : Z) : RateLimitResult :=
  {| allowed := true;
     remaining := limit;
     resetTime := reset;
     totalHits := 0 |}.

(** What [checkRateLimit] returns when the counter stands at [hits] after
    its increment: the verdict, unless the request is refused and the
    refusal cannot be logged. *)
Definition answer (limit windowMs now hits : Z) : RateLimitResult :=
  let reset := RateLimitService.windowStart now windowMs + windowMs in
  if (hits <=? limit) || RateLimitService.reset_is_time_value windowMs reset
  then verdict limit reset hits
  else fail_open limit (now + windowMs).

Arguments answer : simpl never.

(** The verdicts of [count] calls in a row, the first of which is hit
    number [from]. *)
Fixpoint verdicts (limit reset from : Z) (count : nat) : list (outcome RateLimitResult) :=
  match count with
  | O => []
  | S count' => Ok (verdict limit reset from) :: verdicts limit reset (from + 1) count'
  end.

(** The time a run of calls takes. *)
Definition total_delay (delays : list Z) : Z :=
  fold_right (fun d acc => Z.max 0 d + acc) 0 delays.

(** Every key the store holds is the counter of a window that has
    started. *)
Definition counters_of_started_windows (w : world) : Prop :=
  forall k e, keyspace w !! k = Some e ->
    exists key start, k = RateLimitService.cacheKey key start /\ start <= clock w.

(** A character a number can go on with: a digit, the point, or the
    letter of an exponent. *)
Definition number_char (c : ascii) : bool :=
  is_digit c || Ascii.eqb c "." || Ascii.eqb c "e" || Ascii.eqb c "E".

(** What may follow a value in a text: the end, or a character a number
    cannot go on with. *)
Definition terminated (rest : list ascii) : Prop :=
  match rest with
  | [] => True
  | c :: _ => number_char c = false
  end.

(** What may follow a run of digits: the end, or a character that is not
    a digit. *)
Definition no_digit_ahead (rest : list ascii) : Prop :=
  match rest with
  | [] => True
  | c :: _ => is_digit c = false
  end.

(** [p] reads the text of [x] back, whatever follows it. *)
Definition reads (p : list ascii -> option (json * list ascii)) (x : json) : Prop :=
  forall rest, terminated rest -> p (JSON.print x ++ rest) = Some (x, rest).

(** One member of an object, as [JSON.print] writes it. *)
Definition print_member (kv : string * json) : list ascii :=
  match kv with
  | (k, x) => JSON.quote k ++ ":"%char :: JSON.print x
  end.

(** [key] starts with the characters of [pre]. *)
Definition has_prefix (pre key : string) : bool :=
  match strip_prefix (chars pre) (chars key) with
  | Some _ => true
  | None => false
  end.

(** A run of [rateLimit (ip, limit, window)] calls of the plain limiter,
    the i-th one made [delays_i] milliseconds after the one before. *)
Fixpoint plain_run (ip : string) (limit window : option Z) (delays : list Z) (w : world)
  : list (outcome unit) * world :=
  match delays with
  | [] => ([], w)
  | d :: rest =>
      let '(r, w1) := PlainLimiter.rateLimit ip limit window (Store.elapse d w) in
      let '(rs, w2) := plain_run ip limit window rest w1 in
      (r :: rs, w2)
  end.

(** The middleware let the request through (it returned [undefined]). *)
Definition passes {C B : Type} (r : outcome (C * option B)) : bool :=
  match r with
  | Ok (_, None) => true
  | _ => false
  end.

(** [checkRateLimit] allowed the request. *)
Definition granted (r : outcome RateLimitResult) : bool :=
  match r with
  | Ok result => allowed result
  | Throw _ => false
  end.

(** A run of requests through one rate-limit middleware, each arriving
    with the same request context, the i-th one [delays_i] milliseconds
    after the one before. *)
Fixpoint middleware_run (config : Middleware.limitConfig)
    (keyGenerator : option (Middleware.Context -> string))
    (context : Middleware.Context) (delays : list Z) (w : world)
  : list (outcome (Middleware.Context * option Middleware.TooManyRequests)) * world :=
  match delays with
  | [] => ([], w)
  | d :: rest =>
      let '(r, w1) :=
        Middleware.createRateLimitMiddleware config keyGenerator context
          (Store.elapse d w) in
      let '(rs, w2) := middleware_run config keyGenerator context rest w1 in
      (r :: rs, w2)
  end.

(** What the plain limiter does on hit number [hit]. *)
Definition plain_verdict (limit hit : Z) : outcome unit :=
  if limit <? hit then Throw "Rate limit exceeded" else Ok tt.

(** * Part II: properties *)

(** ** Numbers as text *)

Lemma to_int_proper (z : Z) :
  Z.to_int z <> Decimal.Pos Decimal.Nil /\ Z.to_int z <> Decimal.Neg Decimal.Nil.
Proof.
  destruct z as [|p|p]; simpl; split; try discriminate;
    intros [= E]; exact (DecimalPos.Unsigned.to_uint_nonnil p E).
Qed.

Lemma int_of_toString (z : Z) :
  NilZero.int_of_string (Num.toString z) = Some (Z.to_int z).
Proof.
  unfold Num.toString. destruct (to_int_proper z) as [Hp Hn].
  now apply NilZero.isi.
Qed.

Lemma toString_inj (a b : Z) : Num.toString a = Num.toString b -> a = b.
Proof.
  intros E. apply DecimalZ.to_int_inj.
  pose proof (int_of_toString a) as Ha. rewrite E, int_of_toString in Ha.
  congruence.
Qed.

Lemma ofString_toString (z : Z) : Num.ofString (Num.toString z) = Some z.
Proof.
  unfold Num.ofString.
  rewrite int_of_toString. cbv zeta. rewrite DecimalZ.of_to, String.eqb_refl.
  reflexivity.
Qed.

Lemma ofString_Some (s : string) (z : Z) :
  Num.ofString s = Some z -> s = Num.toString z.
Proof.
  unfold Num.ofString. destruct (NilZero.int_of_string s) as [d|]; [|discriminate].
  cbv zeta. destruct (String.eqb_spec (Num.toString (Z.of_int d)) s) as [E|]; [|discriminate].
  intros [= <-]. now symmetry.
Qed.

Lemma string2ll_toString (z : Z) :
  - 2 ^ 63 <= z < 2 ^ 63 -> Num.string2ll (Num.toString z) = Some z.
Proof.
  intros [Hlo Hhi]. unfold Num.string2ll. rewrite ofString_toString.
  destruct (Z.leb_spec (- 2 ^ 63) z); [|lia].
  destruct (Z.ltb_spec z (2 ^ 63)); [|lia]. reflexivity.
Qed.

Lemma string2ll_Some (s : string) (z : Z) :
  Num.string2ll s = Some z -> s = Num.toString z /\ - 2 ^ 63 <= z < 2 ^ 63.
Proof.
  unfold Num.string2ll. destruct (Num.ofString s) as [n|] eqn:E; [|discriminate].
  destruct (Z.leb_spec (- 2 ^ 63) n); [|discriminate].
  destruct (Z.ltb_spec n (2 ^ 63)); [|discriminate].
  simpl. intros [= <-]. split; [now apply ofString_Some | lia].
Qed.

(** [Math.floor (now / windowMs) * windowMs] is the multiple of the window
    size at or just below [now]. *)
Lemma floor_div_spec (a b : Z) :
  0 < b ->
  Num.floor_div a b * b <= a < Num.floor_div a b * b + b
  /\ (b | Num.floor_div a b * b).
Proof.
  intros Hb. unfold Num.floor_div. split.
  - pose proof (Z.mul_div_le a b Hb). pose proof (Z.mul_succ_div_gt a b Hb). lia.
  - exists (a / b). reflexivity.
Qed.

Lemma floor_div_unique (a b s : Z) :
  0 < b -> s <= a < s + b -> (b | s) -> Num.floor_div a b * b = s.
Proof.
  intros Hb Hs [q ->]. unfold Num.floor_div. f_equal.
  symmetry. apply (Z.div_unique a b q (a - q * b)); lia.
Qed.

(** [Math.ceil (a / b)] is the least integer whose [b]-fold reaches [a]. *)
Lemma ceil_div_spec (a b : Z) :
  0 < b -> b * (Num.ceil_div a b - 1) < a <= b * Num.ceil_div a b.
Proof.
  intros Hb. unfold Num.ceil_div.
  pose proof (Z.mul_div_le (- a) b Hb). pose proof (Z.mul_succ_div_gt (- a) b Hb). lia.
Qed.

Lemma ceil_div_unique (a b t : Z) :
  0 < b -> b * (t - 1) < a <= b * t -> Num.ceil_div a b = t.
Proof.
  intros Hb Ht. pose proof (ceil_div_spec a b Hb). nia.
Qed.

(** A window given in whole seconds, as the rate-limit middleware passes
    it ([windowMs = window * 1000]), gets a TTL of that many seconds. *)
Lemma ceil_div_seconds (window : Z) : Num.ceil_div (window * 1000) 1000 = window.
Proof. apply ceil_div_unique; lia. Qed.

(** ** Characters and text *)

Lemma chars_text (l : list ascii) : chars (text l) = l.
Proof. apply list_ascii_of_string_of_list_ascii. Qed.

Lemma text_chars (s : string) : text (chars s) = s.
Proof. apply string_of_list_ascii_of_string. Qed.

Lemma chars_app (a b : string) : chars (a +:+ b) = chars a ++ chars b.
Proof. induction a as [|c a IH]; simpl; [reflexivity | now rewrite <- IH]. Qed.

Lemma chars_inj (a b : string) : chars a = chars b -> a = b.
Proof. intros E. rewrite <- (text_chars a), <- (text_chars b). now rewrite E. Qed.

Lemma chars_length (s : string) : List.length (chars s) = String.length s.
Proof. induction s as [|c s IH]; simpl; [reflexivity | now rewrite IH]. Qed.

Lemma strip_prefix_app (lit r : list ascii) : strip_prefix lit (lit ++ r) = Some r.
Proof.
  induction lit as [|c lit IH]; simpl; [reflexivity|].
  now rewrite Ascii.eqb_refl.
Qed.

Lemma uint_digits (d : Decimal.uint) :
  Forall (fun c => is_digit c = true) (chars (NilEmpty.string_of_uint d)).
Proof. induction d; simpl; constructor; auto. Qed.

(** The text of a number is a non-empty run of digits, after a minus sign
    for a negative one. *)
Lemma toString_shape (z : Z) :
  exists (c : ascii) (ds : list ascii),
    Forall (fun c => is_digit c = true) ds
    /\ ((chars (Num.toString z) = c :: ds /\ is_digit c = true)
        \/ (exists d, chars (Num.toString z) = c :: d :: ds /\ c = "-"%char
                      /\ is_digit d = true)).
Proof.
  assert (U : forall p, exists c ds,
             chars (NilZero.string_of_uint (Pos.to_uint p)) = c :: ds
             /\ is_digit c = true /\ Forall (fun c => is_digit c = true) ds).
  { intros p. pose proof (DecimalPos.Unsigned.to_uint_nonnil p) as Hn.
    pose proof (uint_digits (Pos.to_uint p)) as Hd.
    unfold NilZero.string_of_uint.
    destruct (Pos.to_uint p) eqn:E; try congruence;
      simpl in *; inversion Hd; subst; eauto. }
  unfold Num.toString. destruct z as [|p|p]; simpl.
  - exists "0"%char, []. split; [constructor|]. left. split; reflexivity.
  - destruct (U p) as (c & ds & E & Hc & Hds). exists c, ds. split; [exact Hds|].
    left. split; assumption.
  - destruct (U p) as (c & ds & E & Hc & Hds). exists "-"%char, ds. split; [exact Hds|].
    right. exists c. simpl. rewrite E. auto.
Qed.

(** ** [JSON.parse] undoes [JSON.stringify] *)

Lemma json_ind (P : json -> Prop)
    (HNull : P JNull)
    (HBool : forall b, P (JBool b))
    (HNum : forall n, P (JNum n))
    (HFrac : forall negative whole fraction, P (JFrac negative whole fraction))
    (HStr : forall s, P (JStr s))
    (HNaN : P JNaN)
    (HDate : forall t, P (JDate t))
    (HArr : forall items, Forall P items -> P (JArr items))
    (HObj : forall members, Forall (fun kv => P (snd kv)) members -> P (JObj members)) :
  forall v, P v.
Proof.
  fix IH 1. intros [ | b | n | negative whole fraction | s | | t | items | members ].
  - exact HNull.
  - apply HBool.
  - apply HNum.
  - apply HFrac.
  - apply HStr.
  - exact HNaN.
  - apply HDate.
  - apply HArr. induction items as [|x items IHitems]; constructor;
      [apply IH | exact IHitems].
  - apply HObj. induction members as [|[k x] members IHmembers]; constructor;
      [apply IH | exact IHmembers].
Qed.

Lemma wf_JArr (items : list json) : JSON.wf (JArr items) <-> Forall JSON.wf items.
Proof.
  induction items as [|x items IH]; simpl.
  - split; [constructor | trivial].
  - simpl in IH. rewrite IH. split.
    + intros [Hx Hl]. now constructor.
    + intros H. inversion H; subst. now split.
Qed.

Lemma wf_JObj (members : list (string * json)) :
  JSON.wf (JObj members)
  <-> NoDup (map fst members) /\ Forall (fun kv => JSON.wf (snd kv)) members.
Proof.
  simpl. apply and_iff_compat_l.
  induction members as [|[k x] members IH]; simpl.
  - split; [constructor | trivial].
  - rewrite IH. split.
    + intros [Hx Hl]. now constructor.
    + intros H. inversion H; subst. now split.
Qed.

Lemma take_digits_app (ds rest : list ascii) :
  Forall (fun c => is_digit c = true) ds -> no_digit_ahead rest ->
  JSON.take_digits (ds ++ rest) = (ds, rest).
Proof.
  intros Hds Hrest. induction Hds as [|c ds Hc Hds IH]; simpl.
  - destruct rest as [|c r]; [reflexivity|]. simpl in *. now rewrite Hrest.
  - now rewrite Hc, IH.
Qed.

Lemma terminated_no_digit (rest : list ascii) : terminated rest -> no_digit_ahead rest.
Proof.
  destruct rest as [|c r]; [trivial|]. unfold terminated, number_char, no_digit_ahead.
  intros H. now destruct (is_digit c).
Qed.

Lemma digit_not_minus (c : ascii) : is_digit c = true -> Ascii.eqb c "-" = false.
Proof.
  intros H. destruct (Ascii.eqb_spec c "-") as [->|]; [discriminate H | reflexivity].
Qed.

(** The text of a number: a minus sign for a negative one, and the text
    of its absolute value. *)
Lemma toString_sign (n : Z) :
  chars (Num.toString n)
  = (if n <? 0 then ["-"%char] else []) ++ chars (Num.toString (Z.abs n)).
Proof. destruct n as [|p|p]; reflexivity. Qed.

Lemma toString_digits (a : N) :
  Forall (fun c => is_digit c = true) (chars (Num.toString (Z.of_N a)))
  /\ chars (Num.toString (Z.of_N a)) <> [].
Proof.
  destruct a as [|p].
  - split; [repeat constructor | discriminate].
  - change (Num.toString (Z.of_N (N.pos p)))
      with (NilZero.string_of_uint (Pos.to_uint p)).
    pose proof (DecimalPos.Unsigned.to_uint_nonnil p) as Hn.
    pose proof (uint_digits (Pos.to_uint p)) as Hd.
    unfold NilZero.string_of_uint.
    destruct (Pos.to_uint p); try congruence; (split; [exact Hd | discriminate]).
Qed.

Lemma digits_N_toString (a : N) : JSON.digits_N (chars (Num.toString (Z.of_N a))) = a.
Proof.
  unfold JSON.digits_N. rewrite text_chars.
  replace (Num.toString (Z.of_N a)) with (NilZero.string_of_uint (N.to_uint a))
    by (destruct a; reflexivity).
  rewrite NilZero.usu.
  - apply DecimalN.Unsigned.of_to.
  - destruct a; simpl; [discriminate | apply DecimalPos.Unsigned.to_uint_nonnil].
Qed.

(** A single digit is the text of its value. *)
Lemma ofString_digit (c : ascii) :
  is_digit c = true -> exists z, Num.ofString (String c EmptyString) = Some z.
Proof.
  destruct c as [[] [] [] [] [] [] [] []]; intros H; vm_compute in H;
    try discriminate H; eexists; reflexivity.
Qed.

(** After the sign and the digits of the integer part come the fraction
    and the exponent, if any. *)
Lemma parse_number_digits (negative : bool) (ds tail : list ascii) (z : Z) :
  Forall (fun c => is_digit c = true) ds -> ds <> [] ->
  Num.ofString (text ds) = Some z -> no_digit_ahead tail ->
  JSON.parse_number ((if negative then ["-"%char] else []) ++ ds ++ tail)
  = match JSON.parse_fraction tail with
    | Some (fs, s3) =>
        match JSON.parse_exponent s3 with
        | Some (x, s4) => Some (JSON.number negative ds fs x, s4)
        | None => None
        end
    | None => None
    end.
Proof.
  intros Hds Hne Hz Htail. unfold JSON.parse_number.
  destruct negative.
  - cbn [app]. change (Ascii.eqb "-" "-") with true. cbv iota.
    rewrite (take_digits_app ds tail Hds Htail). now rewrite Hz.
  - cbn [app]. destruct ds as [|c ds']; [congruence|].
    rewrite <- app_comm_cons.
    rewrite (digit_not_minus c) by (now inversion Hds).
    rewrite app_comm_cons.
    rewrite (take_digits_app (c :: ds') tail Hds Htail). now rewrite Hz.
Qed.

Lemma parse_fraction_none (rest : list ascii) :
  terminated rest -> JSON.parse_fraction rest = Some ([], rest).
Proof.
  destruct rest as [|c r]; [reflexivity|]. unfold terminated, number_char. intros H.
  apply orb_false_iff in H. destruct H as [H _].
  apply orb_false_iff in H. destruct H as [H _].
  apply orb_false_iff in H. destruct H as [_ H].
  simpl. now rewrite H.
Qed.

Lemma parse_exponent_none (rest : list ascii) :
  terminated rest -> JSON.parse_exponent rest = Some (0, rest).
Proof.
  destruct rest as [|c r]; [reflexivity|]. unfold terminated, number_char. intros H.
  apply orb_false_iff in H. destruct H as [H HE].
  apply orb_false_iff in H. destruct H as [_ He].
  simpl. now rewrite He, HE.
Qed.

Lemma parse_fraction_digits (fs tail : list ascii) :
  Forall (fun c => is_digit c = true) fs -> fs <> [] -> no_digit_ahead tail ->
  JSON.parse_fraction ("."%char :: fs ++ tail) = Some (fs, tail).
Proof.
  intros Hfs Hne Htail. simpl. rewrite (take_digits_app fs tail Hfs Htail).
  destruct fs; [congruence | reflexivity].
Qed.

Lemma parse_exponent_minus (a : N) (rest : list ascii) :
  terminated rest ->
  JSON.parse_exponent
    ("e"%char :: "-"%char :: chars (Num.toString (Z.of_N a)) ++ rest)
  = Some (- Z.of_N a, rest).
Proof.
  intros Hrest. destruct (toString_digits a) as [Hd Hne]. simpl.
  rewrite (take_digits_app _ rest Hd (terminated_no_digit rest Hrest)).
  rewrite digits_N_toString.
  destruct (chars (Num.toString (Z.of_N a))); [congruence | reflexivity].
Qed.

Lemma shift_point_zero (ds fs : list ascii) : JSON.shift_point ds fs 0 = (ds, fs).
Proof. unfold JSON.shift_point. simpl. now rewrite app_nil_r. Qed.

Lemma strip_zeros_fraction (l : list ascii) :
  JSON.is_fraction l = true -> JSON.strip_zeros l = l /\ l <> [].
Proof.
  unfold JSON.is_fraction, JSON.strip_zeros. intros H.
  apply andb_true_iff in H. destruct H as [_ H].
  destruct (rev l) as [|c r] eqn:E; [discriminate|]. split.
  - simpl. destruct (Ascii.eqb c "0"); [discriminate|].
    rewrite <- E. apply rev_involutive.
  - intros ->. discriminate E.
Qed.

Lemma is_fraction_digits (l : list ascii) :
  JSON.is_fraction l = true -> Forall (fun c => is_digit c = true) l.
Proof.
  unfold JSON.is_fraction. intros H. apply andb_true_iff in H. destruct H as [H _].
  apply List.Forall_forall. intros c Hc.
  rewrite forallb_forall in H. now apply H.
Qed.

(** A run of digits is its leading zeros and the rest. *)
Lemma leading_zeros_split (l : list ascii) :
  l = repeat "0"%char (JSON.leading_zeros l) ++ JSON.drop_zeros l.
Proof.
  induction l as [|c l IH]; simpl; [reflexivity|].
  destruct (Ascii.eqb_spec c "0") as [->|]; [|reflexivity].
  simpl. now rewrite <- IH.
Qed.

Lemma drop_zeros_digits (l : list ascii) :
  Forall (fun c => is_digit c = true) l ->
  Forall (fun c => is_digit c = true) (JSON.drop_zeros l).
Proof.
  induction 1 as [|c l Hc Hl IH]; simpl; [constructor|].
  destruct (Ascii.eqb c "0"); [exact IH | now constructor].
Qed.

(** The reader gives an integer back from its text. *)
Lemma parse_number_print (n : Z) (rest : list ascii) :
  terminated rest ->
  JSON.parse_number (chars (Num.toString n) ++ rest) = Some (JNum n, rest).
Proof.
  intros Hrest. rewrite toString_sign, <- app_assoc.
  set (a := Z.to_N (Z.abs n)).
  replace (Z.abs n) with (Z.of_N a) by (unfold a; lia).
  destruct (toString_digits a) as [Hd Hne].
  rewrite (parse_number_digits _ _ rest (Z.of_N a) Hd Hne);
    [ | now rewrite text_chars, ofString_toString | now apply terminated_no_digit ].
  rewrite (parse_fraction_none rest Hrest), (parse_exponent_none rest Hrest).
  unfold JSON.number. rewrite shift_point_zero, digits_N_toString.
  change (JSON.strip_zeros []) with (@nil ascii). cbv iota.
  replace (if n <? 0 then - Z.of_N a else Z.of_N a) with n; [reflexivity|].
  subst a. destruct (Z.ltb_spec n 0); lia.
Qed.

(** The reader gives a number that is no integer back from its text. *)
Lemma parse_number_print_frac (negative : bool) (whole : N) (fraction : string)
    (rest : list ascii) :
  JSON.is_fraction (chars fraction) = true -> terminated rest ->
  JSON.parse_number (JSON.print_frac negative whole (chars fraction) ++ rest)
  = Some (JFrac negative whole fraction, rest).
Proof.
  intros Hf Hrest.
  pose proof (is_fraction_digits _ Hf) as Hdigits.
  destruct (strip_zeros_fraction _ Hf) as [Hstrip Hne].
  pose proof (terminated_no_digit rest Hrest) as Hnd.
  assert (Hplain :
    JSON.parse_number
      (((if negative then ["-"%char] else [])
          ++ chars (Num.toString (Z.of_N whole)) ++ "."%char :: chars fraction) ++ rest)
    = Some (JFrac negative whole fraction, rest)).
  { destruct (toString_digits whole) as [Hd Hnew].
    rewrite <- !app_assoc, <- app_comm_cons.
    rewrite (parse_number_digits _ _ _ (Z.of_N whole) Hd Hnew);
      [ | now rewrite text_chars, ofString_toString | reflexivity ].
    rewrite (parse_fraction_digits _ rest Hdigits Hne Hnd).
    rewrite (parse_exponent_none rest Hrest).
    unfold JSON.number. rewrite shift_point_zero, digits_N_toString, Hstrip.
    destruct (chars fraction) eqn:E; [congruence|]. rewrite <- E, text_chars.
    reflexivity. }
  unfold JSON.print_frac.
  destruct (JSON.drop_zeros (chars fraction)) as [|d r] eqn:Hdrop; [exact Hplain|].
  destruct ((whole =? 0)%N && (6 <=? JSON.leading_zeros (chars fraction))%nat) eqn:Hexp;
    [|exact Hplain].
  apply andb_true_iff in Hexp. destruct Hexp as [Hzero _].
  apply N.eqb_eq in Hzero. subst whole.
  pose proof (drop_zeros_digits _ Hdigits) as Hdr. rewrite Hdrop in Hdr.
  inversion Hdr as [|? ? Hd Hr]; subst.
  destruct (ofString_digit d Hd) as (z & Hz).
  set (zeros := JSON.leading_zeros (chars fraction)) in *.
  replace (Z.of_nat (S zeros)) with (Z.of_N (N.of_nat (S zeros))) by lia.
  assert (Hnumber : JSON.number negative [d] r (- Z.of_N (N.of_nat (S zeros)))
                    = JFrac negative 0 fraction).
  { unfold JSON.number, JSON.shift_point.
    destruct (Z.leb_spec 0 (- Z.of_N (N.of_nat (S zeros)))); [lia|].
    replace (Z.to_nat (- - Z.of_N (N.of_nat (S zeros)))) with (S zeros) by lia.
    change (List.length [d]) with 1%nat.
    replace (1 - S zeros)%nat with 0%nat by lia.
    replace (S zeros - 1)%nat with zeros by lia.
    cbn [firstn skipn]. change ([d] ++ r) with (d :: r).
    rewrite <- Hdrop. unfold zeros. rewrite <- leading_zeros_split, Hstrip.
    change (JSON.digits_N []) with 0%N.
    destruct (chars fraction) eqn:E; [congruence|]. rewrite <- E, text_chars.
    reflexivity. }
  assert (Hone : Forall (fun c => is_digit c = true) [d])
    by (constructor; [exact Hd | constructor]).
  set (exponent := chars (Num.toString (Z.of_N (N.of_nat (S zeros))))).
  destruct r as [|r0 r'].
  - replace (((if negative then ["-"%char] else [])
                ++ d :: [] ++ "e"%char :: "-"%char :: exponent) ++ rest)
      with ((if negative then ["-"%char] else [])
              ++ [d] ++ "e"%char :: "-"%char :: exponent ++ rest)
      by (now rewrite <- app_assoc).
    rewrite (parse_number_digits negative [d] _ z Hone);
      [ | discriminate | exact Hz | reflexivity ].
    change (JSON.parse_fraction ("e"%char :: "-"%char :: exponent ++ rest))
      with (Some (@nil ascii, "e"%char :: "-"%char :: exponent ++ rest)).
    cbv iota. unfold exponent.
    rewrite (parse_exponent_minus _ rest Hrest). now rewrite Hnumber.
  - replace (((if negative then ["-"%char] else [])
                ++ d :: ("."%char :: r0 :: r') ++ "e"%char :: "-"%char :: exponent)
               ++ rest)
      with ((if negative then ["-"%char] else [])
              ++ [d] ++ "."%char :: (r0 :: r')
              ++ "e"%char :: "-"%char :: exponent ++ rest)
      by (rewrite <- app_assoc; cbn [app]; now rewrite <- app_assoc).
    rewrite (parse_number_digits negative [d] _ z Hone);
      [ | discriminate | exact Hz | reflexivity ].
    rewrite (parse_fraction_digits (r0 :: r') _ Hr); [ | discriminate | reflexivity ].
    unfold exponent.
    rewrite (parse_exponent_minus _ rest Hrest). now rewrite Hnumber.
Qed.

(** The first character of a number sends [parse_value] to
    [parse_number]. *)
Lemma number_start_dispatch (c : ascii) :
  is_digit c = true \/ c = "-"%char ->
  JSON.is_ws c = false
  /\ Ascii.eqb c "n" = false /\ Ascii.eqb c "t" = false /\ Ascii.eqb c "f" = false
  /\ Ascii.eqb c dquote = false /\ Ascii.eqb c "[" = false /\ Ascii.eqb c "{" = false
  /\ Ascii.eqb c "]" = false /\ Ascii.eqb c "}" = false.
Proof.
  destruct c as [[] [] [] [] [] [] [] []];
    (intros [H|H]; [vm_compute in H; try discriminate H | try discriminate H]);
    repeat split; reflexivity.
Qed.

Lemma parse_string_escape (c : ascii) (t : list ascii) :
  JSON.parse_string (JSON.escape_char c ++ t)
  = match JSON.parse_string t with
    | Some (str, r) => Some (String c str, r)
    | None => None
    end.
Proof.
  destruct c as [[] [] [] [] [] [] [] []]; reflexivity.
Qed.

Lemma parse_string_body (s : string) (rest : list ascii) :
  JSON.parse_string (concat (map JSON.escape_char (chars s)) ++ dquote :: rest)
  = Some (s, rest).
Proof.
  induction s as [|c s IH]; simpl.
  - reflexivity.
  - rewrite <- app_assoc, parse_string_escape. now rewrite IH.
Qed.

Lemma quote_app (s : string) (rest : list ascii) :
  JSON.quote s ++ rest
  = dquote :: concat (map JSON.escape_char (chars s)) ++ dquote :: rest.
Proof. unfold JSON.quote. simpl. now rewrite <- app_assoc. Qed.

(** The text of a number that is no integer starts with a digit or the
    minus sign. *)
Lemma print_frac_head (negative : bool) (whole : N) (f : list ascii) :
  Forall (fun c => is_digit c = true) f ->
  exists c t, JSON.print_frac negative whole f = c :: t
    /\ (is_digit c = true \/ c = "-"%char).
Proof.
  intros Hf. unfold JSON.print_frac.
  destruct negative; [eexists _, _; split; [reflexivity | now right]|].
  cbn [app]. destruct (toString_digits whole) as [Hd Hne].
  destruct (chars (Num.toString (Z.of_N whole))) as [|c0 t0]; [congruence|].
  inversion Hd as [|? ? Hc0 _]; subst.
  pose proof (drop_zeros_digits f Hf) as Hdrop.
  destruct (JSON.drop_zeros f) as [|d r];
    [eexists _, _; split; [reflexivity | now left]|].
  inversion Hdrop as [|? ? Hd0 _]; subst.
  destruct ((whole =? 0)%N && (6 <=? JSON.leading_zeros f)%nat);
    eexists _, _; (split; [reflexivity | now left]).
Qed.

Lemma print_nonempty (v : json) : JSON.print v <> [].
Proof.
  destruct v as [ | [|] | n | negative whole fraction | s | | t | items | members ];
    try discriminate.
  - destruct (toString_shape n) as (c & ds & _ & [[E _] | (d & E & _)]);
      simpl; rewrite E; discriminate.
  - simpl. unfold JSON.print_frac.
    destruct negative; [discriminate|]. cbn [app].
    destruct (JSON.drop_zeros (chars fraction)) as [|d r];
      [ | destruct ((whole =? 0)%N && (6 <=? JSON.leading_zeros (chars fraction))%nat);
          [discriminate|] ];
      (destruct (chars (Num.toString (Z.of_N whole))); discriminate).
  - simpl. destruct (Date.valid t); discriminate.
Qed.

Lemma print_head (v : json) :
  JSON.wf v ->
  exists c t, JSON.print v = c :: t
    /\ JSON.is_ws c = false /\ Ascii.eqb c "]" = false /\ Ascii.eqb c "}" = false.
Proof.
  destruct v as [ | [|] | n | negative whole fraction | s | | t | items | members ];
    intros Hwf;
    try (eexists _, _; split; [reflexivity | repeat split; reflexivity]).
  - destruct (toString_shape n) as (c & ds & _ & [[E Hc] | (d & E & -> & _)]);
      simpl; rewrite E; eexists _, _; (split; [reflexivity|]).
    + destruct (number_start_dispatch c (or_introl Hc))
        as (? & _ & _ & _ & _ & _ & _ & ? & ?).
      auto.
    + repeat split; reflexivity.
  - simpl in Hwf.
    destruct (print_frac_head negative whole (chars fraction) (is_fraction_digits _ Hwf))
      as (c & t & E & Hc).
    exists c, t. split; [exact E|].
    destruct (number_start_dispatch c Hc) as (? & _ & _ & _ & _ & _ & _ & ? & ?).
    auto.
  - destruct Hwf.
Qed.

Lemma skip_ws_cons (c : ascii) (r : list ascii) :
  JSON.is_ws c = false -> JSON.skip_ws (c :: r) = c :: r.
Proof. intros H. simpl. now rewrite H. Qed.

Lemma joined_one {A : Type} (f : A -> list ascii) (x : A) (rest : list ascii) :
  JSON.joined (map f [x]) ++ rest = f x ++ rest.
Proof. simpl. now rewrite app_nil_r. Qed.

Lemma joined_more {A : Type} (f : A -> list ascii) (x y : A) (l : list A)
    (rest : list ascii) :
  JSON.joined (map f (x :: y :: l)) ++ rest
  = f x ++ ","%char :: JSON.joined (map f (y :: l)) ++ rest.
Proof. simpl. now rewrite <- app_assoc. Qed.

Lemma parse_elements_print (p : list ascii -> option (json * list ascii)) :
  forall (l : list json), l <> [] -> Forall (reads p) l ->
  forall (n : nat) (acc : list json) (rest : list ascii),
    (List.length l <= n)%nat ->
    JSON.parse_elements p n (JSON.joined (map JSON.print l) ++ "]"%char :: rest) acc
    = Some (JArr (acc ++ l), rest).
Proof.
  induction l as [|x l IH]; [congruence|].
  intros _ Hl n acc rest Hn. inversion Hl as [|? ? Hx Hl']; subst.
  destruct n as [|n]; [simpl in Hn; lia|].
  destruct l as [|y l].
  - rewrite joined_one. simpl. rewrite (Hx ("]"%char :: rest)) by reflexivity. reflexivity.
  - rewrite joined_more. cbn [JSON.parse_elements].
    rewrite (Hx (","%char :: JSON.joined (map JSON.print (y :: l)) ++ "]"%char :: rest))
      by reflexivity.
    rewrite skip_ws_cons by reflexivity.
    change (Ascii.eqb "," ",") with true. cbv iota.
    rewrite IH; [ | congruence | exact Hl' | simpl in *; lia ].
    now rewrite <- app_assoc.
Qed.

Lemma obj_set_fresh (k : string) (x : json) (acc : list (string * json)) :
  ~ In k (map fst acc) -> JSON.obj_set k x acc = acc ++ [(k, x)].
Proof.
  induction acc as [|[k' x'] acc IH]; simpl; intros Hk; [reflexivity|].
  destruct (String.eqb_spec k k') as [->|Hne]; [tauto|].
  rewrite IH; tauto.
Qed.

Lemma parse_members_print (p : list ascii -> option (json * list ascii)) :
  forall (l : list (string * json)), l <> [] ->
  Forall (fun kv => reads p (snd kv)) l ->
  forall (n : nat) (acc : list (string * json)) (rest : list ascii),
    (List.length l <= n)%nat ->
    NoDup (map fst (acc ++ l)) ->
    JSON.parse_members p n (JSON.joined (map print_member l) ++ "}"%char :: rest) acc
    = Some (JObj (acc ++ l), rest).
Proof.
  induction l as [|[k x] l IH]; [congruence|].
  intros _ Hl n acc rest Hn Hnd. inversion Hl as [|? ? Hx Hl']; subst. simpl in Hx.
  destruct n as [|n]; [simpl in Hn; lia|].
  assert (Hk : ~ In k (map fst acc)).
  { rewrite map_app in Hnd. simpl in Hnd. apply NoDup_app in Hnd.
    destruct Hnd as (_ & Hnd & _). intros Hin. apply list_elem_of_In in Hin.
    apply (Hnd k Hin). left. }
  assert (Hstep : forall tail,
    JSON.parse_members p (S n) (print_member (k, x) ++ tail) acc
    = match p (JSON.print x ++ tail) with
      | Some (x', s4) =>
          match JSON.skip_ws s4 with
          | d :: s5 =>
              if Ascii.eqb d ","
              then JSON.parse_members p n s5 (JSON.obj_set k x' acc)
              else if Ascii.eqb d "}"
              then Some (JObj (JSON.obj_set k x' acc), s5)
              else None
          | [] => None
          end
      | None => None
      end).
  { intros tail. unfold print_member. rewrite <- app_assoc, quote_app.
    cbn [JSON.parse_members]. rewrite skip_ws_cons by reflexivity.
    change (Ascii.eqb dquote dquote) with true. cbv iota.
    rewrite parse_string_body. rewrite <- app_comm_cons.
    rewrite skip_ws_cons by reflexivity. reflexivity. }
  destruct l as [|y l].
  - rewrite joined_one, Hstep.
    rewrite (Hx ("}"%char :: rest)) by reflexivity.
    rewrite skip_ws_cons by reflexivity.
    change (Ascii.eqb "}" ",") with false. change (Ascii.eqb "}" "}") with true.
    cbv iota. now rewrite obj_set_fresh.
  - rewrite joined_more, Hstep.
    rewrite (Hx (","%char :: JSON.joined (map print_member (y :: l)) ++ "}"%char :: rest))
      by reflexivity.
    rewrite skip_ws_cons by reflexivity.
    change (Ascii.eqb "," ",") with true. cbv iota.
    rewrite obj_set_fresh by exact Hk.
    rewrite IH; [ | congruence | exact Hl' | simpl in *; lia | ].
    + now rewrite <- app_assoc.
    + now rewrite <- app_assoc.
Qed.

Lemma joined_length {A : Type} (f : A -> list ascii) (l : list A) (x : A) :
  In x l -> (List.length (f x) <= List.length (JSON.joined (map f l)))%nat.
Proof.
  induction l as [|y l IH]; simpl; [tauto|].
  intros [->|Hin]; rewrite length_app; [lia|].
  specialize (IH Hin). destruct (map f l); simpl in *; lia.
Qed.

Lemma joined_count (l : list json) :
  (List.length l <= List.length (JSON.joined (map JSON.print l)))%nat.
Proof.
  induction l as [|x l IH]; simpl; [lia|].
  rewrite length_app. pose proof (print_nonempty x) as Hx.
  destruct (JSON.print x); [congruence|].
  destruct l as [|y l]; simpl in *; lia.
Qed.

Lemma joined_members_count (l : list (string * json)) :
  (List.length l <= List.length (JSON.joined (map print_member l)))%nat.
Proof.
  induction l as [|[k x] l IH]; simpl; [lia|].
  rewrite length_app. destruct l as [|y l]; simpl in *; lia.
Qed.

Lemma fold_max_le {A : Type} (g : A -> nat) (l : list A) (b : nat) :
  Forall (fun x => (g x <= b)%nat) l ->
  (fold_right (fun x d => Nat.max (g x) d) O l <= b)%nat.
Proof. induction 1; simpl; lia. Qed.

Lemma fold_max_ge {A : Type} (g : A -> nat) (l : list A) (x : A) :
  In x l -> (g x <= fold_right (fun x d => Nat.max (g x) d) O l)%nat.
Proof.
  induction l as [|y l IH]; simpl; [tauto|].
  intros [->|Hin]; [lia|]. specialize (IH Hin). lia.
Qed.

Lemma depth_le_length (v : json) : (JSON.depth v <= List.length (JSON.print v))%nat.
Proof.
  induction v as [ | [|] | n | negative whole fraction | s | | t | items IH | members IH ]
    using json_ind;
    try (simpl; lia).
  - simpl. rewrite length_app. simpl.
    enough (fold_right (fun x d => Nat.max (JSON.depth x) d) O items
            <= List.length (JSON.joined (map JSON.print items)))%nat by lia.
    apply fold_max_le. rewrite List.Forall_forall in IH |- *. intros x Hx.
    specialize (IH x Hx). pose proof (joined_length JSON.print items x Hx). lia.
  - change (JSON.print (JObj members))
      with ("{"%char :: JSON.joined (map print_member members) ++ ["}"%char]).
    simpl. rewrite length_app. simpl.
    enough (fold_right (fun kv d => Nat.max (JSON.depth (snd kv)) d) O members
            <= List.length (JSON.joined (map print_member members)))%nat by lia.
    apply (fold_max_le (fun kv => JSON.depth (snd kv))).
    rewrite List.Forall_forall in IH |- *. intros [k x] Hx.
    specialize (IH (k, x) Hx). pose proof (joined_length print_member members (k, x) Hx).
    simpl in *. rewrite length_app in *. simpl in *. lia.
Qed.

(** The reader gives back every well-formed value from its text, with
    whatever follows the text left over. *)
Lemma parse_value_print (v : json) :
  JSON.wf v ->
  forall (fuel : nat) (rest : list ascii),
    (JSON.depth v < fuel)%nat -> terminated rest ->
    JSON.parse_value fuel (JSON.print v ++ rest) = Some (v, rest).
Proof.
  induction v as [ | b | n | negative whole fraction | s | | t | items IH | members IH ]
    using json_ind;
    intros Hwf fuel rest Hfuel Hrest;
    (destruct fuel as [|fuel]; [lia|]).
  - reflexivity.
  - destruct b; reflexivity.
  - cbn [JSON.print JSON.parse_value].
    destruct (toString_shape n) as (c & ds & _ & Hshape).
    assert (Hc : exists t, chars (Num.toString n) = c :: t
                           /\ (is_digit c = true \/ c = "-"%char)).
    { destruct Hshape as [[E Hc] | (d & E & -> & _)]; eauto. }
    destruct Hc as (t & E & Hc).
    destruct (number_start_dispatch c Hc) as (Hws & Hn & Ht & Hf & Hq & Hb & Hcb & _).
    pose proof (parse_number_print n rest Hrest) as Hnum.
    rewrite E in *. rewrite <- app_comm_cons in *.
    rewrite skip_ws_cons by exact Hws.
    now rewrite Hn, Ht, Hf, Hq, Hb, Hcb.
  - simpl in Hwf. cbn [JSON.print JSON.parse_value].
    destruct (print_frac_head negative whole (chars fraction) (is_fraction_digits _ Hwf))
      as (c & t & E & Hc).
    destruct (number_start_dispatch c Hc) as (Hws & Hn & Ht & Hf & Hq & Hb & Hcb & _).
    pose proof (parse_number_print_frac negative whole fraction rest Hwf Hrest) as Hnum.
    rewrite E in *. rewrite <- app_comm_cons in *.
    rewrite skip_ws_cons by exact Hws.
    now rewrite Hn, Ht, Hf, Hq, Hb, Hcb.
  - cbn [JSON.print]. rewrite quote_app.
    cbn [JSON.parse_value]. rewrite skip_ws_cons by reflexivity.
    change (Ascii.eqb dquote "n") with false. change (Ascii.eqb dquote "t") with false.
    change (Ascii.eqb dquote "f") with false. change (Ascii.eqb dquote dquote) with true.
    cbv iota. now rewrite parse_string_body.
  - destruct Hwf.
  - destruct Hwf.
  - apply wf_JArr in Hwf.
    cbn [JSON.print]. rewrite <- app_comm_cons, <- app_assoc. cbn [app].
    cbn [JSON.parse_value]. rewrite skip_ws_cons by reflexivity.
    change (Ascii.eqb "[" "n") with false. change (Ascii.eqb "[" "t") with false.
    change (Ascii.eqb "[" "f") with false. change (Ascii.eqb "[" dquote) with false.
    change (Ascii.eqb "[" "[") with true. cbv iota.
    destruct items as [|x items]; [reflexivity|].
    set (r := JSON.joined (map JSON.print (x :: items)) ++ "]"%char :: rest).
    assert (Hr : exists c t, r = c :: t /\ JSON.is_ws c = false /\ Ascii.eqb c "]" = false).
    { assert (Hx : JSON.wf x) by (now inversion Hwf).
      destruct (print_head x Hx) as (c & t & E & Hws & Hb & _).
      exists c. unfold r. destruct items; [rewrite joined_one | rewrite joined_more];
        rewrite E; eexists; (split; [reflexivity | auto]). }
    destruct Hr as (c & t & Er & Hws & Hb).
    rewrite Er, skip_ws_cons by exact Hws. rewrite Hb, <- Er. unfold r.
    rewrite parse_elements_print; [reflexivity | congruence | | ].
    + rewrite List.Forall_forall in IH, Hwf |- *. intros y Hy rest' Hrest'.
      apply IH; auto.
      pose proof (fold_max_ge JSON.depth (x :: items) y Hy). simpl in *. lia.
    + rewrite length_app. pose proof (joined_count (x :: items)). lia.
  - apply wf_JObj in Hwf. destruct Hwf as [Hnd Hwf].
    change (JSON.print (JObj members))
      with ("{"%char :: JSON.joined (map print_member members) ++ ["}"%char]).
    rewrite <- app_comm_cons, <- app_assoc. cbn [app].
    cbn [JSON.parse_value]. rewrite skip_ws_cons by reflexivity.
    change (Ascii.eqb "{" "n") with false. change (Ascii.eqb "{" "t") with false.
    change (Ascii.eqb "{" "f") with false. change (Ascii.eqb "{" dquote) with false.
    change (Ascii.eqb "{" "[") with false. change (Ascii.eqb "{" "{") with true.
    cbv iota.
    destruct members as [|[k x] members]; [reflexivity|].
    set (r := JSON.joined (map print_member ((k, x) :: members)) ++ "}"%char :: rest).
    assert (Hr : exists t, r = dquote :: t).
    { unfold r. destruct members; [rewrite joined_one | rewrite joined_more];
        unfold print_member at 1; rewrite <- app_assoc, quote_app; eauto. }
    destruct Hr as (t & Er).
    rewrite Er, skip_ws_cons by reflexivity.
    change (Ascii.eqb dquote "}") with false. cbv iota. rewrite <- Er. unfold r.
    rewrite parse_members_print; [reflexivity | congruence | | | exact Hnd ].
    + rewrite List.Forall_forall in IH, Hwf |- *. intros y Hy rest' Hrest'.
      apply IH; auto.
      pose proof (fold_max_ge (fun kv => JSON.depth (snd kv)) ((k, x) :: members) y Hy).
      simpl in *. lia.
    + rewrite length_app. pose proof (joined_members_count ((k, x) :: members)). lia.
Qed.

(** [JSON.parse (JSON.stringify (v))] is [v]. *)
Lemma parse_stringify (v : json) : JSON.wf v -> JSON.parse (JSON.stringify v) = Some v.
Proof.
  intros Hwf. unfold JSON.parse, JSON.stringify. rewrite chars_text.
  rewrite <- (app_nil_r (JSON.print v)) at 2.
  rewrite parse_value_print; [reflexivity | exact Hwf | | exact I].
  pose proof (depth_le_length v). lia.
Qed.

(** The text of a value is never empty, so it is a truthy string. *)
Lemma stringify_truthy (v : json) : truthy_string (Some (JSON.stringify v)) = true.
Proof.
  unfold JSON.stringify. pose proof (print_nonempty v) as Hv.
  destruct (JSON.print v); [congruence | reflexivity].
Qed.

(** ** The cache service against any store *)

Lemma try_catch_resolves {W A : Type} (body : Async W A) (a : A) (w : W) :
  resolves (try_catch body (fun _ => ret a)) w.
Proof.
  unfold resolves, returns, try_catch, ret.
  destruct (body w) as [[x|err] w']; eauto.
Qed.

Lemma try_catch_fails {W A : Type} (body : Async W A) (a : A) (w : W) :
  fails body w -> returns (try_catch body (fun _ => ret a)) w a.
Proof.
  intros (err & w' & E). unfold returns, try_catch, ret. rewrite E. eauto.
Qed.

Lemma bind_fails {W A B : Type} (m : Async W A) (k : A -> Async W B) (w : W) :
  fails m w -> fails (bind m k) w.
Proof. intros (err & w' & E). unfold fails, bind. rewrite E. eauto. Qed.

Lemma bind_then_fails {W A B : Type} (m : Async W A) (k : A -> Async W B)
    (w w1 : W) (a : A) :
  m w = (Ok a, w1) -> fails (k a) w1 -> fails (bind m k) w.
Proof. intros E (err & w' & E'). unfold fails, bind. rewrite E, E'. eauto. Qed.

Section AnyStore.
Context {W : Type} `{Redis W}.

Lemma incr_resolves (key : string) (ttl : option Z) (w : W) :
  exists n w', CacheService.incr key ttl w = (Ok n, w').
Proof.
  destruct (try_catch_resolves
              (result <<- redis_incr key ;;
               if truthy_number ttl && (result =? 1) then
                 _ <<- redis_expire key (default 0 ttl) ;; ret result
               else ret result) 0 w) as (n & w' & E).
  exists n, w'. exact E.
Qed.

Lemma incr_down (key : string) (ttl : option Z) (w : W) :
  fails (redis_incr key) w -> returns (CacheService.incr key ttl) w 0.
Proof. intros Hf. apply try_catch_fails, bind_fails, Hf. Qed.

(** What [checkRateLimit] makes of the count [incr] hands back. *)
Lemma checkRateLimit_incr (key : string) (limit windowMs : Z) (w w' : W) (n : Z) :
  CacheService.incr
    (RateLimitService.cacheKey key (RateLimitService.windowStart (Date_now w) windowMs))
    (Some (Num.ceil_div windowMs 1000)) w = (Ok n, w') ->
  RateLimitService.checkRateLimit key limit windowMs w
  = (Ok (answer limit windowMs (Date_now w) n), w').
Proof.
  intros E. unfold RateLimitService.checkRateLimit, try_catch, bind, answer.
  rewrite E. unfold RateLimitService.warn_rate_limit_exceeded, verdict.
  destruct (n <=? limit); simpl; [reflexivity|].
  destruct (RateLimitService.reset_is_time_value windowMs _); reflexivity.
Qed.

(** An allowed request, and a refused one whose reset time is a time
    value, get the verdict. *)
Lemma answer_verdict (limit windowMs now hits : Z) :
  hits <= limit
  \/ RateLimitService.reset_is_time_value windowMs
       (RateLimitService.windowStart now windowMs + windowMs) = true ->
  answer limit windowMs now hits
  = verdict limit (RateLimitService.windowStart now windowMs + windowMs) hits.
Proof.
  intros Hcase. unfold answer.
  destruct (Z.leb_spec hits limit); [reflexivity|].
  destruct Hcase as [Hle | ->]; [lia | reflexivity].
Qed.

(** A refused request whose reset time is no time value gets the record
    of the catch block. *)
Lemma answer_fail_open (limit windowMs now hits : Z) :
  limit < hits ->
  RateLimitService.reset_is_time_value windowMs
    (RateLimitService.windowStart now windowMs + windowMs) = false ->
  answer limit windowMs now hits = fail_open limit (now + windowMs).
Proof.
  intros Hlt Hno. unfold answer. rewrite Hno.
  destruct (Z.leb_spec hits limit); [lia | reflexivity].
Qed.

Lemma reset_is_time_value_positive (windowMs reset : Z) :
  0 < windowMs -> RateLimitService.reset_is_time_value windowMs reset = Date.valid reset.
Proof.
  intros Hw. unfold RateLimitService.reset_is_time_value.
  destruct (Z.eqb_spec windowMs 0); [lia | reflexivity].
Qed.

(** A result that refuses the request is a verdict whose reset time is a
    time value. *)
Lemma answer_refused (limit windowMs now hits : Z) :
  allowed (answer limit windowMs now hits) = false ->
  answer limit windowMs now hits
  = verdict limit (RateLimitService.windowStart now windowMs + windowMs) hits
  /\ limit < hits
  /\ RateLimitService.reset_is_time_value windowMs
       (RateLimitService.windowStart now windowMs + windowMs) = true.
Proof.
  unfold answer.
  destruct (Z.leb_spec hits limit) as [Hle|Hlt]; simpl.
  - intros Hno. apply Z.leb_gt in Hno. lia.
  - destruct (RateLimitService.reset_is_time_value windowMs _); [|discriminate].
    intros _. split; [reflexivity|]. split; [exact Hlt | reflexivity].
Qed.

(** A result that counts a hit is a verdict. *)
Lemma answer_counted (limit windowMs now hits : Z) :
  totalHits (answer limit windowMs now hits) <> 0 ->
  answer limit windowMs now hits
  = verdict limit (RateLimitService.windowStart now windowMs + windowMs) hits.
Proof.
  unfold answer.
  destruct ((hits <=? limit) || RateLimitService.reset_is_time_value windowMs _);
    [reflexivity | simpl; congruence].
Qed.

(** [checkRateLimit] never rejects, however the store behaves. *)
Lemma checkRateLimit_resolves (key : string) (limit windowMs : Z) (w : W) :
  resolves (RateLimitService.checkRateLimit key limit windowMs) w.
Proof.
  destruct (incr_resolves
              (RateLimitService.cacheKey key
                 (RateLimitService.windowStart (Date_now w) windowMs))
              (Some (Num.ceil_div windowMs 1000)) w) as (n & w' & E).
  eexists. exists w'. apply checkRateLimit_incr, E.
Qed.

End AnyStore.

(** ** The store with the connection lost *)

Lemma command_offline {A : Type} (run : world -> outcome A * world) (w : world) :
  online w = false -> fails (Store.command run) w.
Proof. intros Hoff. unfold fails, Store.command. rewrite Hoff. eauto. Qed.

Lemma offline_store_down (w : world) : online w = false -> store_down w.
Proof.
  intros Hoff. repeat split; intros; apply command_offline; exact Hoff.
Qed.

(** ** Safe defaults and failing open *)

(** C9: whatever the store does, no operation of the cache service
    raises; and when the store fails (or, for [get], hands back a payload
    that is not JSON), the operation resolves to its safe default: [get]
    to null, [set] and [del] to false, [delPattern] to 0, [exists] to
    false, [ttl] to -1 and [incr] to 0.  For the two operations that send
    two commands, a failure of the second one gives the default too. *)
Theorem C9_safe_defaults {W : Type} `{Redis W}
    (w : W) (key pattern : string) (value : json) (ttl : option Z) :
  (resolves (CacheService.get key) w
   /\ resolves (CacheService.set key value ttl) w
   /\ resolves (CacheService.del key) w
   /\ resolves (CacheService.delPattern pattern) w
   /\ resolves (CacheService.exists_ key) w
   /\ resolves (CacheService.ttl key) w
   /\ resolves (CacheService.incr key ttl) w)
  /\ (fails (redis_get key) w -> returns (CacheService.get key) w JNull)
  /\ (forall text w1, redis_get key w = (Ok (Some text), w1) -> JSON.parse text = None ->
      returns (CacheService.get key) w JNull)
  /\ (fails (redis_setex key (default CACHE_TTL.MEDIUM ttl) (JSON.stringify value)) w ->
      returns (CacheService.set key value ttl) w false)
  /\ (fails (redis_del [key]) w -> returns (CacheService.del key) w false)
  /\ (fails (redis_keys pattern) w -> returns (CacheService.delPattern pattern) w 0)
  /\ (forall keys w1, redis_keys pattern w = (Ok keys, w1) -> keys <> [] ->
      fails (redis_del keys) w1 -> returns (CacheService.delPattern pattern) w 0)
  /\ (fails (redis_exists key) w -> returns (CacheService.exists_ key) w false)
  /\ (fails (redis_ttl key) w -> returns (CacheService.ttl key) w (-1))
  /\ (fails (redis_incr key) w -> returns (CacheService.incr key ttl) w 0)
  /\ (forall w1, redis_incr key w = (Ok 1, w1) -> truthy_number ttl = true ->
      fails (redis_expire key (default 0 ttl)) w1 ->
      returns (CacheService.incr key ttl) w 0).
Proof.
  split; [repeat split; apply try_catch_resolves|].
  repeat split.
  - intros Hf. apply try_catch_fails, bind_fails, Hf.
  - intros text w1 E Hbad.
    unfold returns, CacheService.get, try_catch, bind. rewrite E.
    destruct text as [|c text]; simpl; [unfold ret; eauto|].
    unfold CacheService.JSON_parse. rewrite Hbad. unfold throw, ret. eauto.
  - intros Hf. apply try_catch_fails, bind_fails, Hf.
  - intros Hf. apply try_catch_fails, bind_fails, Hf.
  - intros Hf. apply try_catch_fails, bind_fails, Hf.
  - intros keys w1 E Hne Hf. apply try_catch_fails.
    apply (bind_then_fails _ _ w w1 keys E).
    destruct keys as [|k keys]; [congruence|].
    simpl. apply bind_fails, Hf.
  - intros Hf. apply try_catch_fails, bind_fails, Hf.
  - intros Hf. apply try_catch_fails, Hf.
  - intros Hf. apply try_catch_fails, bind_fails, Hf.
  - intros w1 E Ht Hf. apply try_catch_fails.
    apply (bind_then_fails _ _ w w1 1 E).
    rewrite Ht. simpl. apply bind_fails, Hf.
Qed.

(** With the connection lost, every operation gives its default. *)
Lemma C9_safe_defaults_witness :
  let w := Store.unplug (Store.empty_at 0) in
  store_down w
  /\ returns (CacheService.get "user:42") w JNull
  /\ returns (CacheService.set "user:42" (JNum 1) (Some 300)) w false
  /\ returns (CacheService.del "user:42") w false
  /\ returns (CacheService.delPattern "user:42*") w 0
  /\ returns (CacheService.exists_ "user:42") w false
  /\ returns (CacheService.ttl "user:42") w (-1)
  /\ returns (CacheService.incr "user:42" (Some 300)) w 0.
Proof.
  intros w.
  assert (Hdown : store_down w) by (apply offline_store_down; reflexivity).
  destruct Hdown as (Hget & Hsetex & Hdel & Hkeys & Hexists & Httl & Hincr & Hexpire).
  destruct (C9_safe_defaults w "user:42" "user:42*" (JNum 1) (Some 300))
    as (_ & Dget & _ & Dset & Ddel & Dpat & _ & Dex & Dttl & Dincr & _).
  split; [apply offline_store_down; reflexivity|].
  split; [apply Dget, Hget|].
  split; [apply Dset, Hsetex|].
  split; [apply Ddel, Hdel|].
  split; [apply Dpat, Hkeys|].
  split; [apply Dex, Hexists|].
  split; [apply Dttl, Httl|].
  apply Dincr, Hincr.
Defined.

(** C2: when every store operation fails, [checkRateLimit] resolves (it
    raises nothing) to a result with [allowed = true] and
    [remaining = limit], for every subject key, every [limit >= 0] and
    every [windowMs > 0]. *)
Theorem C2_fail_open {W : Type} `{Redis W}
    (w : W) (subjectKey : string) (limit windowMs : Z) :
  0 <= limit -> 0 < windowMs -> store_down w ->
  exists r w',
    RateLimitService.checkRateLimit subjectKey limit windowMs w = (Ok r, w')
    /\ allowed r = true /\ remaining r = limit.
Proof.
  intros Hlimit _ Hdown.
  destruct Hdown as (_ & _ & _ & _ & _ & _ & Hincr & _).
  destruct (incr_down
              (RateLimitService.cacheKey subjectKey
                 (RateLimitService.windowStart (Date_now w) windowMs))
              (Some (Num.ceil_div windowMs 1000)) w (Hincr _)) as (w' & E).
  eexists _, w'. split; [apply checkRateLimit_incr, E|].
  rewrite answer_verdict by (left; exact Hlimit). simpl. split.
  - apply Z.leb_le, Hlimit.
  - lia.
Qed.

Lemma C2_fail_open_witness :
  exists r w',
    RateLimitService.checkRateLimit "ip1" 5 60000 (Store.unplug (Store.empty_at 125000))
    = (Ok r, w')
    /\ allowed r = true /\ remaining r = 5.
Proof.
  apply (C2_fail_open (Store.unplug (Store.empty_at 125000)) "ip1" 5 60000);
    [lia | lia | apply offline_store_down; reflexivity].
Defined.

(** ** The rate-limit verdict *)

(** What [checkRateLimit] returns, for any store client, when its
    increment hands back the post-increment counter value [hits].  The
    increment is made on the store key
    [rate_limit:{subjectKey}:{windowStart}], where
    [windowStart = floor (now / windowMs) * windowMs], with the TTL
    [ceil (windowMs / 1000)].  When the request is allowed, and when it is
    refused and the reset time is a time value, the result has [allowed]
    true iff [hits <= limit], [remaining = max (0, limit - hits)],
    [resetTime = windowStart + windowMs] and [totalHits = hits].  When the
    request is refused and the reset time is no time value, logging the
    refusal throws and the catch block answers: allowed, with
    [remaining = limit], [resetTime = now + windowMs] and
    [totalHits = 0].  For a positive window size, [windowStart] is the
    multiple of [windowMs] with [windowStart <= now < windowStart + windowMs],
    and the TTL is the least number of seconds that covers [windowMs]. *)
Lemma checkRateLimit_result {W : Type} `{Redis W}
    (w w' : W) (subjectKey : string) (limit windowMs hits : Z) :
  let now := Date_now w in
  let windowStart := Num.floor_div now windowMs * windowMs in
  let cacheKey := "rate_limit:" +:+ subjectKey +:+ ":" +:+ Num.toString windowStart in
  let seconds := Num.ceil_div windowMs 1000 in
  CacheService.incr cacheKey (Some seconds) w = (Ok hits, w') ->
  (exists r,
      RateLimitService.checkRateLimit subjectKey limit windowMs w = (Ok r, w')
      /\ (hits <= limit
          \/ RateLimitService.reset_is_time_value windowMs (windowStart + windowMs) = true ->
          (allowed r = true <-> hits <= limit)
          /\ remaining r = Z.max 0 (limit - hits)
          /\ resetTime r = windowStart + windowMs
          /\ totalHits r = hits)
      /\ (limit < hits ->
          RateLimitService.reset_is_time_value windowMs (windowStart + windowMs) = false ->
          allowed r = true /\ remaining r = limit
          /\ resetTime r = now + windowMs /\ totalHits r = 0))
  /\ (0 < windowMs ->
      windowStart <= now < windowStart + windowMs
      /\ (windowMs | windowStart)
      /\ 1000 * (seconds - 1) < windowMs <= 1000 * seconds).
Proof.
  intros now windowStart cacheKey seconds E. split.
  - eexists. split; [apply checkRateLimit_incr; exact E|]. split.
    + intros Hcase. rewrite answer_verdict by exact Hcase.
      simpl. split; [apply Z.leb_le | auto].
    + intros Hlt Hno. rewrite answer_fail_open by assumption. simpl. auto.
  - intros Hw. destruct (floor_div_spec now windowMs Hw) as [Hbounds Hdiv].
    split; [exact Hbounds|]. split; [exact Hdiv|].
    apply ceil_div_spec. lia.
Qed.

(** ** The reachable store *)

Lemma command_online {A : Type} (run : world -> outcome A * world) (w : world) :
  online w = true -> Store.command run w = run w.
Proof. intros Hon. unfold Store.command. now rewrite Hon. Qed.

Lemma live_insert_eq (w : world) (k : string) (e : entry) :
  Store.live (Store.with_keyspace w (<[k := e]> (keyspace w))) k
  = if Store.expired (clock w) e then None else Some e.
Proof. unfold Store.live. simpl. now rewrite lookup_insert_eq. Qed.

Lemma live_insert_ne (w : world) (k k' : string) (e : entry) :
  k <> k' ->
  Store.live (Store.with_keyspace w (<[k := e]> (keyspace w))) k' = Store.live w k'.
Proof. intros Hne. unfold Store.live. simpl. now rewrite lookup_insert_ne. Qed.

Lemma live_elapse (w : world) (k : string) (ms : Z) :
  Store.live (Store.elapse ms w) k
  = match keyspace w !! k with
    | Some e => if Store.expired (clock w + Z.max 0 ms) e then None else Some e
    | None => None
    end.
Proof. reflexivity. Qed.

Lemma get_online (w : world) (k : string) :
  online w = true ->
  CacheService.get k w = (Ok (decode (payload <$> Store.live w k)), w).
Proof.
  intros Hon. unfold CacheService.get, try_catch, bind. simpl.
  unfold Store.GET. rewrite command_online by exact Hon.
  destruct (payload <$> Store.live w k) as [[|c s]|]; simpl; try reflexivity.
  unfold CacheService.JSON_parse. destruct (JSON.parse (String c s)); reflexivity.
Qed.

Lemma set_online (w : world) (k : string) (v : json) (seconds : Z) :
  online w = true -> 0 < seconds ->
  CacheService.set k v (Some seconds) w
  = (Ok true,
     Store.with_keyspace w
       (<[k := {| payload := JSON.stringify v;
                  expire_at := Some (clock w + seconds * 1000) |}]> (keyspace w))).
Proof.
  intros Hon Hs. unfold CacheService.set, try_catch, bind. simpl.
  unfold Store.SETEX. rewrite command_online by exact Hon.
  destruct (Z.leb_spec seconds 0); [lia | reflexivity].
Qed.

Lemma decode_stringify (v : json) :
  JSON.wf v -> decode (Some (JSON.stringify v)) = v.
Proof.
  intros Hwf. pose proof (stringify_truthy v) as Ht. pose proof (parse_stringify v Hwf) as Hp.
  unfold decode. destruct (JSON.stringify v) as [|c s]; [discriminate Ht|].
  now rewrite Hp.
Qed.

(** ** Set, then get *)




(** C10: on a reachable store, for every key and every TTL of
    [seconds > 0], [set (k, null, seconds)] succeeds and returns true, the
    payload kept under [k] is the text [null], and a [get] right after it
    returns null: the same answer [get] gives for a key the store does not
    hold. *)
Theorem C10_stored_null_reads_as_miss (w : world) (k : string) (seconds : Z) :
  online w = true -> 0 < seconds ->
  exists w1,
    CacheService.set k JNull (Some seconds) w = (Ok true, w1)
    /\ payload <$> Store.live w1 k = Some "null"
    /\ CacheService.get k w1 = (Ok JNull, w1)
    /\ forall w0, online w0 = true -> Store.live w0 k = None ->
         CacheService.get k w0 = (Ok JNull, w0).
Proof.
  intros Hon Hs. eexists. split; [apply set_online; assumption|].
  assert (Hlive : Store.live
            (Store.with_keyspace w
               (<[k := {| payload := JSON.stringify JNull;
                          expire_at := Some (clock w + seconds * 1000) |}]> (keyspace w))) k
          = Some {| payload := "null"; expire_at := Some (clock w + seconds * 1000) |}).
  { rewrite live_insert_eq. unfold Store.expired. simpl.
    destruct (Z.ltb_spec (clock w + seconds * 1000) (clock w)); [lia | reflexivity]. }
  split; [now rewrite Hlive|]. split.
  - rewrite get_online by exact Hon. now rewrite Hlive.
  - intros w0 Hon0 Habsent. rewrite get_online by exact Hon0. now rewrite Habsent.
Qed.

Lemma C10_stored_null_reads_as_miss_witness :
  exists w1,
    CacheService.set "user:42" JNull (Some 300) (Store.empty_at 0) = (Ok true, w1)
    /\ payload <$> Store.live w1 "user:42" = Some "null"
    /\ CacheService.get "user:42" w1 = (Ok JNull, w1)
    /\ forall w0, online w0 = true -> Store.live w0 "user:42" = None ->
         CacheService.get "user:42" w0 = (Ok JNull, w0).
Proof.
  apply (C10_stored_null_reads_as_miss (Store.empty_at 0) "user:42" 300);
    [reflexivity | lia].
Defined.

(** ** Increment and expiry *)

Lemma live_not_expired (w : world) (k : string) (e : entry) :
  Store.live w k = Some e -> Store.expired (clock w) e = false.
Proof.
  unfold Store.live. destruct (keyspace w !! k) as [e'|]; [|discriminate].
  destruct (Store.expired (clock w) e') eqn:E; [discriminate|]. now intros [= <-].
Qed.

(** [incr] on a reachable store, spelled out: [INCR], then [EXPIRE] when
    a (truthy) TTL was given and the new count is 1. *)
Lemma incr_online (w : world) (k : string) (ttl : option Z) :
  online w = true ->
  CacheService.incr k ttl w
  = match Store.INCR k w with
    | (Ok n, w1) =>
        if truthy_number ttl && (n =? 1)
        then (Ok n, snd (Store.EXPIRE k (default 0 ttl) w1))
        else (Ok n, w1)
    | (Throw _, w1) => (Ok 0, w1)
    end.
Proof.
  intros Hon. unfold CacheService.incr, try_catch, bind. simpl redis_incr.
  destruct (Store.INCR k w) as [[n|err] w1] eqn:E; [|reflexivity].
  destruct (truthy_number ttl && (n =? 1)); [|reflexivity].
  simpl redis_expire.
  assert (Hon1 : online w1 = true).
  { unfold Store.INCR in E. rewrite command_online in E by exact Hon.
    destruct (Store.live w k) as [e|]; [|now inversion E].
    destruct (Num.string2ll (payload e)) as [m|]; [|discriminate E].
    destruct (m <? 2 ^ 63 - 1); [now inversion E | discriminate E]. }
  unfold Store.EXPIRE. rewrite command_online by exact Hon1.
  destruct (Store.live w1 k) as [e|]; [|reflexivity].
  destruct (default 0 ttl <=? 0); reflexivity.
Qed.

(** C6 (as amended): on a reachable store, for every key and every TTL
    argument that is given and not zero, [incr] applies the expiry exactly
    when the post-increment value is 1 (a positive TTL becomes the key's
    expiry, a negative one removes the key at once), and on every other
    increment the key's expiry is left as it was; when the TTL argument is
    omitted or is 0, [incr] never applies an expiry: a key it finds keeps
    its expiry and a key it creates has none. *)
Theorem C6_incr_expiry (w w' : world) (k : string) (ttl : option Z) (n : Z) :
  online w = true ->
  CacheService.incr k ttl w = (Ok n, w') ->
  (forall seconds, ttl = Some seconds -> seconds <> 0 -> n = 1 ->
     (0 < seconds ->
      expire_at <$> Store.live w' k = Some (Some (clock w + seconds * 1000)))
     /\ (seconds < 0 -> Store.live w' k = None))
  /\ (n <> 1 -> expire_at <$> Store.live w' k = expire_at <$> Store.live w k)
  /\ (truthy_number ttl = false ->
      expire_at <$> Store.live w' k
      = match Store.live w k with
        | Some e => Some (expire_at e)
        | None => Some None
        end).
Proof.
  intros Hon E. rewrite incr_online in E by exact Hon.
  unfold Store.INCR in E. rewrite command_online in E by exact Hon.
  destruct (Store.live w k) as [e|] eqn:Hlive.
  - pose proof (live_not_expired w k e Hlive) as Hfresh.
    destruct (Num.string2ll (payload e)) as [m|].
    2:{ inversion E; subst. rewrite Hlive.
        split; [intros; lia | split; reflexivity]. }
    destruct (m <? 2 ^ 63 - 1).
    2:{ inversion E; subst. rewrite Hlive.
        split; [intros; lia | split; reflexivity]. }
    set (w1 := Store.with_keyspace w
                 (<[k := {| payload := Num.toString (m + 1); expire_at := expire_at e |}]>
                    (keyspace w))) in *.
    assert (Hlive1 : Store.live w1 k
                     = Some {| payload := Num.toString (m + 1); expire_at := expire_at e |}).
    { unfold w1. rewrite live_insert_eq. unfold Store.expired in *. simpl.
      now rewrite Hfresh. }
    destruct (truthy_number ttl && (m + 1 =? 1)) eqn:Hif.
    + apply andb_true_iff in Hif. destruct Hif as [Httl Hone]. apply Z.eqb_eq in Hone.
      inversion E; subst n w'. clear E.
      unfold Store.EXPIRE. rewrite command_online by exact Hon. rewrite Hlive1.
      split; [|split].
      * intros seconds -> Hnz _. simpl. split.
        -- intros Hpos. destruct (Z.leb_spec seconds 0); [lia|]. simpl.
           unfold Store.live. simpl. rewrite lookup_insert_eq.
           unfold Store.expired. simpl.
           destruct (Z.ltb_spec (clock w + seconds * 1000) (clock w)); [lia | reflexivity].
        -- intros Hneg. destruct (Z.leb_spec seconds 0); [|lia]. simpl.
           unfold Store.live. simpl. now rewrite lookup_delete_eq.
      * intros Hne. lia.
      * intros Hfalsy. rewrite Hfalsy in Httl. discriminate Httl.
    + inversion E; subst n w'. clear E. rewrite Hlive1. simpl.
      split; [|split; reflexivity].
      intros seconds -> Hnz Hone. rewrite Hone in Hif. simpl in Hif.
      destruct (Z.eqb_spec seconds 0); [contradiction | discriminate Hif].
  - set (w1 := Store.with_keyspace w
                 (<[k := {| payload := "1"; expire_at := None |}]> (keyspace w))) in *.
    assert (Hlive1 : Store.live w1 k = Some {| payload := "1"; expire_at := None |}).
    { unfold w1. now rewrite live_insert_eq. }
    change (1 =? 1) with true in E. rewrite andb_true_r in E.
    destruct (truthy_number ttl) eqn:Httl.
    + inversion E; subst n w'. clear E.
      unfold Store.EXPIRE. rewrite command_online by exact Hon. rewrite Hlive1.
      split; [|split].
      * intros seconds -> Hnz _. simpl. split.
        -- intros Hpos. destruct (Z.leb_spec seconds 0); [lia|]. simpl.
           unfold Store.live. simpl. rewrite lookup_insert_eq.
           unfold Store.expired. simpl.
           destruct (Z.ltb_spec (clock w + seconds * 1000) (clock w)); [lia | reflexivity].
        -- intros Hneg. destruct (Z.leb_spec seconds 0); [|lia]. simpl.
           unfold Store.live. simpl. now rewrite lookup_delete_eq.
      * intros Hne. lia.
      * discriminate.
    + inversion E; subst n w'. clear E. rewrite Hlive1. simpl.
      split; [|split; [intros; lia | reflexivity]].
      intros seconds -> Hnz _. simpl in Httl.
      destruct (Z.eqb_spec seconds 0); [contradiction | discriminate Httl].
Qed.

Lemma C6_incr_expiry_witness :
  let w := Store.empty_at 0 in
  let w' := snd (CacheService.incr "rate_limit:ip1:0" (Some 60) w) in
  expire_at <$> Store.live w' "rate_limit:ip1:0" = Some (Some 60000).
Proof.
  intros w w'.
  destruct (C6_incr_expiry w w' "rate_limit:ip1:0" (Some 60) 1) as (Happlied & _);
    [reflexivity | reflexivity |].
  destruct (Happlied 60 eq_refl) as [Hpos _]; [lia | reflexivity |].
  apply Hpos. lia.
Defined.

(** C6 as stated fails for a TTL argument of 0 (and for an omitted one):
    the first increment of a fresh key returns 1, yet no expiry is
    applied: the key is kept without one, [ttl] answers -1 for it, and it
    is still there a year later. *)
Lemma C6_counterexample :
  let w := Store.empty_at 0 in
  let zero := CacheService.incr "hits" (Some 0) w in
  let omitted := CacheService.incr "hits" None w in
  fst zero = Ok 1
  /\ Store.live (snd zero) "hits" = Some {| payload := "1"; expire_at := None |}
  /\ fst (CacheService.ttl "hits" (snd zero)) = Ok (-1)
  /\ Store.is_live (Store.elapse 31536000000 (snd zero)) "hits" = true
  /\ fst omitted = Ok 1
  /\ Store.live (snd omitted) "hits" = Some {| payload := "1"; expire_at := None |}.
Proof. repeat split. Qed.

(** ** Glob patterns *)

Lemma strip_prefix_app_l (a b s : list ascii) :
  strip_prefix (a ++ b) (a ++ s) = strip_prefix b s.
Proof.
  induction a as [|c a IH]; simpl; [reflexivity|]. now rewrite Ascii.eqb_refl.
Qed.

Lemma tokens_plain (pre rest : list ascii) (fuel : nat) :
  forallb (fun c => negb (Glob.is_meta c)) pre = true ->
  Glob.tokens (List.length pre + fuel) (pre ++ rest)
  = map Glob.Lit pre ++ Glob.tokens fuel rest.
Proof.
  induction pre as [|c pre IH]; simpl; [reflexivity|].
  intros Hplain. apply andb_true_iff in Hplain. destruct Hplain as [Hc Hpre].
  unfold Glob.is_meta in Hc. apply negb_true_iff in Hc.
  apply orb_false_iff in Hc. destruct Hc as [Hc Hbs].
  apply orb_false_iff in Hc. destruct Hc as [Hc Hbr].
  apply orb_false_iff in Hc. destruct Hc as [Hst Hq].
  rewrite Hst, Hq, Hbr, Hbs. now rewrite IH.
Qed.

Lemma matches_lits (pre : list ascii) (ts : list Glob.token) (s : list ascii) :
  Glob.matches (map Glob.Lit pre ++ ts) s
  = match strip_prefix pre s with
    | Some r => Glob.matches ts r
    | None => false
    end.
Proof.
  revert s. induction pre as [|c pre IH]; intros s; simpl; [reflexivity|].
  destruct s as [|c' s]; [reflexivity|].
  destruct (Ascii.eqb c c'); simpl; [apply IH | reflexivity].
Qed.

Lemma matches_star (s : list ascii) : Glob.matches [Glob.Star] s = true.
Proof. induction s as [|c s IH]; [reflexivity | exact IH]. Qed.

(** A pattern made of plain characters and a final star matches the keys
    that start with those characters. *)
Lemma glob_prefix (pre key : string) :
  Glob.plain pre = true ->
  Glob.glob (pre +:+ "*") key
  = match strip_prefix (chars pre) (chars key) with
    | Some _ => true
    | None => false
    end.
Proof.
  intros Hplain. unfold Glob.glob.
  rewrite <- chars_length, chars_app, length_app. simpl List.length.
  rewrite tokens_plain by exact Hplain.
  change (Glob.tokens 1 (chars "*")) with [Glob.Star].
  rewrite matches_lits. destruct (strip_prefix (chars pre) (chars key)); [|reflexivity].
  apply matches_star.
Qed.

Lemma plain_app (a b : string) :
  Glob.plain (a +:+ b) = Glob.plain a && Glob.plain b.
Proof. unfold Glob.plain. rewrite chars_app. apply forallb_app. Qed.

Lemma digit_plain (c : ascii) : is_digit c = true -> Glob.is_meta c = false.
Proof. destruct c as [[] [] [] [] [] [] [] []]; intros H; vm_compute in H |- *; congruence. Qed.

Lemma toString_plain (z : Z) : Glob.plain (Num.toString z) = true.
Proof.
  unfold Glob.plain.
  assert (Hall : forall ds, Forall (fun c => is_digit c = true) ds ->
                            forallb (fun c => negb (Glob.is_meta c)) ds = true).
  { induction 1 as [|c ds Hc _ IH]; simpl; [reflexivity|].
    now rewrite (digit_plain c Hc), IH. }
  destruct (toString_shape z) as (c & ds & Hds & [[E Hc] | (d & E & -> & Hd)]);
    rewrite E; simpl.
  - now rewrite (digit_plain c Hc), Hall.
  - now rewrite (digit_plain d Hd), Hall.
Qed.

(** A key that matches a pattern starting with a plain character starts
    with that character. *)
Lemma glob_first (c : ascii) (pattern key : string) :
  Glob.is_meta c = false ->
  Glob.glob (String c pattern) key = true ->
  exists rest, key = String c rest.
Proof.
  intros Hc. unfold Glob.glob. simpl.
  unfold Glob.is_meta in Hc.
  apply orb_false_iff in Hc. destruct Hc as [Hc Hbs].
  apply orb_false_iff in Hc. destruct Hc as [Hc Hbr].
  apply orb_false_iff in Hc. destruct Hc as [Hst Hq].
  rewrite Hst, Hq, Hbr, Hbs. simpl.
  destruct key as [|c' rest]; simpl; [discriminate|].
  destruct (Ascii.eqb_spec c c') as [->|]; [eauto | discriminate].
Qed.

(** ** Deleting by pattern *)

Lemma del_keys_spec (ks : list string) (w : world) :
  clock (snd (Store.del_keys ks w)) = clock w
  /\ online (snd (Store.del_keys ks w)) = online w
  /\ forall k, keyspace (snd (Store.del_keys ks w)) !! k
               = if decide (k ∈ ks) then None else keyspace w !! k.
Proof.
  revert w. induction ks as [|k0 ks IH]; intros w; simpl.
  - split; [reflexivity|]. split; [reflexivity|].
    intros k. destruct (decide (k ∈ [])) as [Hin|]; [|reflexivity].
    now apply not_elem_of_nil in Hin.
  - specialize (IH (Store.with_keyspace w (delete k0 (keyspace w)))).
    destruct (Store.del_keys ks (Store.with_keyspace w (delete k0 (keyspace w))))
      as [n w'] eqn:E.
    simpl in *. destruct IH as (Hclock & Honline & Hkeys).
    split; [exact Hclock|]. split; [exact Honline|].
    intros k. rewrite Hkeys.
    destruct (decide (k ∈ ks)) as [Hin|Hnin].
    + destruct (decide (k ∈ k0 :: ks)) as [|Hn]; [reflexivity|].
      exfalso. apply Hn. now right.
    + destruct (decide (k = k0)) as [->|Hne].
      * rewrite lookup_delete_eq.
        destruct (decide (k0 ∈ k0 :: ks)) as [|Hn]; [reflexivity|].
        exfalso. apply Hn. left.
      * rewrite lookup_delete_ne by congruence.
        destruct (decide (k ∈ k0 :: ks)) as [Hin|]; [|reflexivity].
        apply elem_of_cons in Hin. tauto.
Qed.

Lemma keys_spec (w : world) (pattern k : string) :
  k ∈ List.filter (fun k => Glob.glob pattern k && Store.is_live w k)
        (map fst (map_to_list (keyspace w)))
  <-> Glob.glob pattern k = true /\ Store.is_live w k = true.
Proof.
  rewrite list_elem_of_In, filter_In, andb_true_iff. split; [tauto|].
  intros [Hg Hl]. split; [|tauto].
  unfold Store.is_live, Store.live in Hl.
  destruct (keyspace w !! k) as [e|] eqn:E; [|discriminate].
  apply in_map_iff. exists (k, e). split; [reflexivity|].
  apply list_elem_of_In, elem_of_map_to_list, E.
Qed.

(** [delPattern] on a reachable store removes the keys that match the
    pattern and touches nothing else. *)
Lemma delPattern_online (w : world) (pattern : string) :
  online w = true ->
  exists n w',
    CacheService.delPattern pattern w = (Ok n, w')
    /\ clock w' = clock w /\ online w' = true
    /\ forall k, Store.live w' k = if Glob.glob pattern k then None else Store.live w k.
Proof.
  intros Hon. unfold CacheService.delPattern, try_catch, bind. simpl redis_keys.
  unfold Store.KEYS. rewrite command_online by exact Hon.
  remember (List.filter (fun k => Glob.glob pattern k && Store.is_live w k)
              (map fst (map_to_list (keyspace w)))) as ks eqn:Eks.
  assert (Hks : forall k, k ∈ ks <-> Glob.glob pattern k = true /\ Store.is_live w k = true)
    by (intros k; subst ks; apply keys_spec).
  clear Eks.
  assert (Hgone : forall k, Glob.glob pattern k = true -> ~ k ∈ ks -> Store.live w k = None).
  { intros k Hg Hnin. destruct (Store.live w k) as [e|] eqn:E; [|reflexivity].
    exfalso. apply Hnin, Hks. split; [exact Hg|]. unfold Store.is_live. now rewrite E. }
  destruct (Z.eqb_spec (Z.of_nat (List.length ks)) 0) as [Hlen|Hlen].
  - assert (ks = []) as -> by (destruct ks; [reflexivity | simpl in Hlen; lia]).
    exists 0, w. split; [reflexivity|]. split; [reflexivity|]. split; [exact Hon|].
    intros k. destruct (Glob.glob pattern k) eqn:Hg; [|reflexivity].
    apply Hgone; [exact Hg | apply not_elem_of_nil].
  - 
    simpl redis_del. unfold Store.DEL. rewrite command_online by exact Hon.
    destruct (del_keys_spec ks w) as (Hclock & Honline & Hkeys).
    destruct (Store.del_keys ks w) as [n w'] eqn:E. simpl in *.
    exists n, w'. split; [reflexivity|]. split; [exact Hclock|]. split; [congruence|].
    intros k. unfold Store.live at 1. rewrite Hkeys, Hclock.
    destruct (decide (k ∈ ks)) as [Hin|Hnin].
    + apply Hks in Hin. destruct Hin as [Hg _]. now rewrite Hg.
    + fold (Store.live w k). destruct (Glob.glob pattern k) eqn:Hg; [|reflexivity].
      now apply Hgone.
Qed.

Lemma delete_each_online (patterns : list string) (w : world) :
  online w = true ->
  exists w',
    CacheInvalidator.delete_each patterns w = (Ok tt, w')
    /\ clock w' = clock w /\ online w' = true
    /\ forall k, Store.live w' k
                 = if existsb (fun pattern => Glob.glob pattern k) patterns
                   then None else Store.live w k.
Proof.
  revert w. induction patterns as [|pattern patterns IH]; intros w Hon.
  - exists w. split; [reflexivity|]. split; [reflexivity|]. split; [exact Hon|].
    reflexivity.
  - destruct (delPattern_online w pattern Hon) as (n & w1 & E & Hc1 & Hon1 & Hl1).
    destruct (IH w1 Hon1) as (w2 & E2 & Hc2 & Hon2 & Hl2).
    exists w2. unfold CacheInvalidator.delete_each in *. simpl. unfold bind at 1 2.
    rewrite E. unfold ret at 1. rewrite E2.
    split; [reflexivity|]. split; [congruence|]. split; [exact Hon2|].
    intros k. rewrite Hl2, Hl1.
    destruct (Glob.glob pattern k); simpl; [|reflexivity].
    now destruct (existsb _ patterns).
Qed.

(** ** Invalidation *)

Lemma append_star (a b : string) : a +:+ b +:+ "*" = (a +:+ b) +:+ "*".
Proof. apply chars_inj. rewrite !chars_app. now rewrite app_assoc. Qed.

Lemma user_expenses_pattern (userId : string) :
  CACHE_PATTERNS.USER_EXPENSES userId = ("user:" +:+ userId +:+ ":expenses") +:+ "*".
Proof.
  unfold CACHE_PATTERNS.USER_EXPENSES. apply chars_inj. rewrite !chars_app.
  change (chars ":expenses*") with (chars ":expenses" ++ chars "*").
  now rewrite !app_assoc.
Qed.

(** A category key of a user never matches that user's expenses pattern,
    when the user id has no pattern character in it. *)
Lemma categories_key_kept (userId x : string) :
  Glob.plain userId = true ->
  Glob.glob (CACHE_PATTERNS.USER_EXPENSES userId)
    ("user:" +:+ userId +:+ ":categories:" +:+ x) = false.
Proof.
  intros Hplain. rewrite user_expenses_pattern, glob_prefix.
  - rewrite !chars_app.
    rewrite (strip_prefix_app_l (chars "user:")), (strip_prefix_app_l (chars userId)).
    reflexivity.
  - rewrite !plain_app, Hplain. reflexivity.
Qed.

(** Every page of a user's expense list is under that user's expenses
    pattern, when the user id has no pattern character in it. *)
Lemma expenses_key_matched (userId : string) (page limit : option Z) :
  Glob.plain userId = true ->
  Glob.glob (CACHE_PATTERNS.USER_EXPENSES userId)
    (CACHE_KEYS.USER_EXPENSES userId page limit) = true.
Proof.
  intros Hplain. rewrite user_expenses_pattern, glob_prefix.
  - unfold CACHE_KEYS.USER_EXPENSES. rewrite !chars_app.
    rewrite (strip_prefix_app_l (chars "user:")), (strip_prefix_app_l (chars userId)).
    reflexivity.
  - rewrite !plain_app, Hplain. reflexivity.
Qed.

(** C7 (as amended): on a reachable store, after
    [invalidateUserExpenses (u)] every key that matches the glob pattern
    [user:{u}:expenses*] is gone (a [get] on it returns null) and every key
    that does not match it is unchanged and reads as before; and when [u]
    contains none of the pattern characters (star, question mark, opening
    bracket, backslash), no key [user:{u}:categories:x] matches the
    pattern, so such a key set before the call is unchanged and still
    retrievable. *)
Theorem C7_invalidateUserExpenses (w : world) (userId : string) :
  online w = true ->
  exists w',
    CacheInvalidator.invalidateUserExpenses userId w = (Ok tt, w')
    /\ (forall k, Glob.glob ("user:" +:+ userId +:+ ":expenses*") k = true ->
          Store.live w' k = None /\ CacheService.get k w' = (Ok JNull, w'))
    /\ (forall k, Glob.glob ("user:" +:+ userId +:+ ":expenses*") k = false ->
          Store.live w' k = Store.live w k
          /\ fst (CacheService.get k w') = fst (CacheService.get k w))
    /\ (Glob.plain userId = true ->
        forall x,
          let k := "user:" +:+ userId +:+ ":categories:" +:+ x in
          Glob.glob ("user:" +:+ userId +:+ ":expenses*") k = false
          /\ Store.live w' k = Store.live w k
          /\ fst (CacheService.get k w') = fst (CacheService.get k w)).
Proof.
  intros Hon.
  destruct (delPattern_online w (CACHE_PATTERNS.USER_EXPENSES userId) Hon)
    as (n & w' & E & _ & Hon' & Hlive).
  assert (Hkept : forall k, Glob.glob ("user:" +:+ userId +:+ ":expenses*") k = false ->
            Store.live w' k = Store.live w k
            /\ fst (CacheService.get k w') = fst (CacheService.get k w)).
  { intros k Hk. specialize (Hlive k).
    unfold CACHE_PATTERNS.USER_EXPENSES in Hlive. rewrite Hk in Hlive.
    split; [exact Hlive|]. rewrite !get_online by assumption. simpl. now rewrite Hlive. }
  exists w'. split; [|split; [|split]].
  - unfold CacheInvalidator.invalidateUserExpenses, bind. now rewrite E.
  - intros k Hk. specialize (Hlive k).
    unfold CACHE_PATTERNS.USER_EXPENSES in Hlive. rewrite Hk in Hlive.
    split; [exact Hlive|]. rewrite get_online by exact Hon'. now rewrite Hlive.
  - exact Hkept.
  - intros Hplain x k.
    pose proof (categories_key_kept userId x Hplain) as Hk.
    split; [exact Hk|]. apply Hkept, Hk.
Qed.

Lemma C7_invalidateUserExpenses_witness :
  let w0 := Store.empty_at 0 in
  let w1 := snd (CacheService.set "user:42:expenses:1:20" (JArr [JNum 12]) (Some 300) w0) in
  let w := snd (CacheService.set "user:42:categories:x" (JStr "food") (Some 300) w1) in
  exists w',
    CacheInvalidator.invalidateUserExpenses "42" w = (Ok tt, w')
    /\ CacheService.get "user:42:expenses:1:20" w' = (Ok JNull, w')
    /\ fst (CacheService.get "user:42:categories:x" w') = Ok (JStr "food").
Proof.
  intros w0 w1 w.
  destruct (C7_invalidateUserExpenses w "42") as (w' & E & Hgone & _ & Hplain);
    [reflexivity|].
  exists w'. split; [exact E|]. split.
  - apply Hgone. reflexivity.
  - destruct (Hplain eq_refl "x") as (_ & _ & Hget).
    change (fst (CacheService.get "user:42:categories:x" w')
            = fst (CacheService.get "user:42:categories:x" w)) in Hget.
    rewrite Hget. reflexivity.
Defined.

(** C7 as stated fails for a user id with pattern characters in it: with
    [u = "[[:expenses]*"], the key [user:{u}:categories:x], set and
    readable before the call, matches the pattern [user:{u}:expenses*]
    and is gone after [invalidateUserExpenses (u)]. *)
Lemma C7_counterexample :
  let u := "[[:expenses]*" in
  let k := "user:" +:+ u +:+ ":categories:x" in
  let w := snd (CacheService.set k (JStr "food") (Some 300) (Store.empty_at 0)) in
  let w' := snd (CacheInvalidator.invalidateUserExpenses u w) in
  fst (CacheService.get k w) = Ok (JStr "food")
  /\ fst (CacheInvalidator.invalidateUserExpenses u w) = Ok tt
  /\ fst (CacheService.get k w') = Ok JNull
  /\ Store.live w' k = None.
Proof. repeat split. Qed.

(** The same with [u = "*"], for the key [user:*:categories::expenses]. *)
Example invalidateUserExpenses_star :
  let k := "user:*:categories::expenses" in
  let w := snd (CacheService.set k (JStr "food") (Some 300) (Store.empty_at 0)) in
  let w' := snd (CacheInvalidator.invalidateUserExpenses "*" w) in
  fst (CacheService.get k w) = Ok (JStr "food") /\ fst (CacheService.get k w') = Ok JNull.
Proof. repeat split. Qed.

Lemma category_pattern (categoryId : Z) :
  CACHE_PATTERNS.CATEGORY_ALL categoryId
  = ("category:" +:+ Num.toString categoryId) +:+ "*".
Proof. unfold CACHE_PATTERNS.CATEGORY_ALL. apply append_star. Qed.

(** No key matches both a category pattern and a user's category-list
    pattern, whatever the user id. *)
Lemma user_categories_not_category (categoryId : Z) (userId k : string) :
  Glob.glob (CACHE_PATTERNS.USER_CATEGORIES userId) k = true ->
  Glob.glob (CACHE_PATTERNS.CATEGORY_ALL categoryId) k = false.
Proof.
  intros Hk.
  destruct (glob_first "u" ("ser:" +:+ userId +:+ ":categories*") k eq_refl Hk)
    as (rest & ->).
  rewrite category_pattern, glob_prefix.
  - reflexivity.
  - rewrite plain_app, toString_plain. reflexivity.
Qed.

(** C8 (as amended): on a reachable store, [invalidateCategory (c)]
    without a user id, or with the empty string for it, deletes exactly
    the keys matching [category:{c}*] and leaves every key matching
    [user:{userId}:categories*] unchanged, for every user;
    [invalidateCategory (c, u)] with a non-empty [u] deletes the keys
    matching [user:{u}:categories*] as well, and nothing else. *)
Theorem C8_invalidateCategory (w : world) (categoryId : Z) (userId : option string) :
  online w = true ->
  exists w',
    CacheInvalidator.invalidateCategory categoryId userId w = (Ok tt, w')
    /\ (truthy_string userId = false ->
        (forall k, Store.live w' k
                   = if Glob.glob ("category:" +:+ Num.toString categoryId +:+ "*") k
                     then None else Store.live w k)
        /\ (forall u k, Glob.glob ("user:" +:+ u +:+ ":categories*") k = true ->
               Store.live w' k = Store.live w k))
    /\ (forall u, userId = Some u -> u <> EmptyString ->
        forall k, Store.live w' k
                  = if Glob.glob ("category:" +:+ Num.toString categoryId +:+ "*") k
                       || Glob.glob ("user:" +:+ u +:+ ":categories*") k
                    then None else Store.live w k).
Proof.
  intros Hon. unfold CacheInvalidator.invalidateCategory.
  destruct (truthy_string userId) eqn:Ht.
  - destruct (delete_each_online
                ([CACHE_PATTERNS.CATEGORY_ALL categoryId]
                   ++ [CACHE_PATTERNS.USER_CATEGORIES (default EmptyString userId)]) w Hon)
      as (w' & E & _ & _ & Hlive).
    exists w'. split; [exact E|]. split; [discriminate|].
    intros u -> _ k. rewrite Hlive. simpl. now rewrite orb_false_r.
  - destruct (delete_each_online [CACHE_PATTERNS.CATEGORY_ALL categoryId] w Hon)
      as (w' & E & _ & _ & Hlive).
    assert (Hcat : forall k, Store.live w' k
                     = if Glob.glob ("category:" +:+ Num.toString categoryId +:+ "*") k
                       then None else Store.live w k).
    { intros k. rewrite Hlive. simpl. now rewrite orb_false_r. }
    exists w'. split; [exact E|]. split.
    + intros _. split; [exact Hcat|].
      intros u k Hk. rewrite Hcat.
      pose proof (user_categories_not_category categoryId u k Hk) as Hno.
      unfold CACHE_PATTERNS.CATEGORY_ALL in Hno. now rewrite Hno.
    + intros u -> Hne. destruct u; [congruence | discriminate Ht].
Qed.

Lemma C8_invalidateCategory_witness :
  let w0 := Store.empty_at 0 in
  let w1 := snd (CacheService.set "category:7:expense_count" (JNum 3) (Some 300) w0) in
  let w := snd (CacheService.set "user:42:categories" (JArr [JStr "food"]) (Some 300) w1) in
  (exists w',
     CacheInvalidator.invalidateCategory 7 None w = (Ok tt, w')
     /\ Store.live w' "category:7:expense_count" = None
     /\ Store.live w' "user:42:categories" = Store.live w "user:42:categories")
  /\ (exists w',
        CacheInvalidator.invalidateCategory 7 (Some "42") w = (Ok tt, w')
        /\ Store.live w' "category:7:expense_count" = None
        /\ Store.live w' "user:42:categories" = None).
Proof.
  intros w0 w1 w. split.
  - destruct (C8_invalidateCategory w 7 None) as (w' & E & Hnone & _); [reflexivity|].
    destruct (Hnone eq_refl) as [Hcat Huser].
    exists w'. split; [exact E|].
    split; [apply (Hcat "category:7:expense_count")
           | apply (Huser "42" "user:42:categories"); reflexivity].
  - destruct (C8_invalidateCategory w 7 (Some "42")) as (w' & E & _ & Hsome);
      [reflexivity|].
    exists w'. split; [exact E|].
    split; [apply (Hsome "42" eq_refl ltac:(discriminate) "category:7:expense_count")
           | apply (Hsome "42" eq_refl ltac:(discriminate) "user:42:categories")].
Defined.

(** C8 as stated fails for the empty string as user id: the key
    [user::categories] matches [user:{u}:categories*] for the empty [u],
    and [invalidateCategory] with 7 and the empty string leaves it in
    place (it deletes the category keys only). *)
Lemma C8_counterexample :
  let w0 := Store.empty_at 0 in
  let w1 := snd (CacheService.set "category:7" (JStr "rent") (Some 300) w0) in
  let w := snd (CacheService.set "user::categories" (JArr [JStr "food"]) (Some 300) w1) in
  let w' := snd (CacheInvalidator.invalidateCategory 7 (Some EmptyString) w) in
  Glob.glob (CACHE_PATTERNS.USER_CATEGORIES EmptyString) "user::categories" = true
  /\ fst (CacheInvalidator.invalidateCategory 7 (Some EmptyString) w) = Ok tt
  /\ fst (CacheService.get "category:7" w') = Ok JNull
  /\ fst (CacheService.get "user::categories" w') = Ok (JArr [JStr "food"]).
Proof. repeat split. Qed.

(** ** Counting in a window *)

Lemma total_delay_nonneg (delays : list Z) : 0 <= total_delay delays.
Proof. induction delays as [|d delays IH]; simpl; lia. Qed.

Lemma windowStart_in_window (now windowMs ws : Z) :
  0 < windowMs -> (windowMs | ws) -> ws <= now < ws + windowMs ->
  RateLimitService.windowStart now windowMs = ws.
Proof. intros. now apply floor_div_unique. Qed.

Lemma incr_frame (w : world) (k : string) (ttl : option Z) :
  online w = true ->
  let w' := snd (CacheService.incr k ttl w) in
  clock w' = clock w /\ online w' = true
  /\ forall k', k' <> k -> keyspace w' !! k' = keyspace w !! k'.
Proof.
  intros Hon. rewrite incr_online by exact Hon.
  unfold Store.INCR. rewrite command_online by exact Hon.
  assert (Hexp : forall w1 n,
            clock w1 = clock w -> online w1 = true ->
            (forall k', k' <> k -> keyspace w1 !! k' = keyspace w !! k') ->
            let w' := snd (if truthy_number ttl && (n =? 1)
                           then (Ok n, snd (Store.EXPIRE k (default 0 ttl) w1))
                           else (Ok n, w1)) in
            clock w' = clock w /\ online w' = true
            /\ forall k', k' <> k -> keyspace w' !! k' = keyspace w !! k').
  { intros w1 n Hc Ho Hk. destruct (truthy_number ttl && (n =? 1)); [|simpl; auto].
    simpl. unfold Store.EXPIRE. rewrite command_online by exact Ho.
    destruct (Store.live w1 k); [|simpl; auto].
    destruct (default 0 ttl <=? 0); simpl; (split; [exact Hc|]; split; [exact Ho|]);
      intros k' Hne; [rewrite lookup_delete_ne by congruence
                     | rewrite lookup_insert_ne by congruence]; auto. }
  destruct (Store.live w k) as [e|].
  - destruct (Num.string2ll (payload e)) as [m|]; [|simpl; auto].
    destruct (m <? 2 ^ 63 - 1); [|simpl; auto].
    apply Hexp; simpl; auto. intros k' Hne. now rewrite lookup_insert_ne by congruence.
  - apply Hexp; simpl; auto. intros k' Hne. now rewrite lookup_insert_ne by congruence.
Qed.

(** A call touches the counter of its own window only. *)
Lemma checkRateLimit_frame (w : world) (key : string) (limit windowMs : Z) :
  online w = true ->
  let w' := snd (RateLimitService.checkRateLimit key limit windowMs w) in
  clock w' = clock w /\ online w' = true
  /\ forall k,
       k <> RateLimitService.cacheKey key (RateLimitService.windowStart (clock w) windowMs) ->
       keyspace w' !! k = keyspace w !! k.
Proof.
  intros Hon.
  pose proof (incr_frame w
                (RateLimitService.cacheKey key
                   (RateLimitService.windowStart (clock w) windowMs))
                (Some (Num.ceil_div windowMs 1000)) Hon) as Hframe.
  destruct (CacheService.incr
              (RateLimitService.cacheKey key
                 (RateLimitService.windowStart (clock w) windowMs))
              (Some (Num.ceil_div windowMs 1000)) w) as [[n|err] w1] eqn:E.
  - rewrite (checkRateLimit_incr key limit windowMs w w1 n E). exact Hframe.
  - destruct (incr_resolves
                (RateLimitService.cacheKey key
                   (RateLimitService.windowStart (clock w) windowMs))
                (Some (Num.ceil_div windowMs 1000)) w) as (n & w2 & E2).
    simpl in E2. congruence.
Qed.

(** The first call of a window creates its counter, with the expiry. *)
Lemma checkRateLimit_fresh (w : world) (key : string) (limit windowMs : Z) :
  online w = true -> 0 < windowMs ->
  let ws := RateLimitService.windowStart (clock w) windowMs in
  let ck := RateLimitService.cacheKey key ws in
  Store.live w ck = None ->
  RateLimitService.checkRateLimit key limit windowMs w
  = (Ok (answer limit windowMs (clock w) 1),
     Store.with_keyspace w
       (<[ck := {| payload := "1";
                   expire_at := Some (clock w + Num.ceil_div windowMs 1000 * 1000) |}]>
          (keyspace w))).
Proof.
  intros Hon Hw ws ck Hfresh.
  pose proof (ceil_div_spec windowMs 1000 ltac:(lia)) as Hceil.
  subst ws ck.
  apply (checkRateLimit_incr (H := store_client) key limit windowMs w _ 1).
  simpl Date_now.
  rewrite incr_online by exact Hon.
  unfold Store.INCR. rewrite command_online by exact Hon. rewrite Hfresh.
  simpl truthy_number.
  destruct (Z.eqb_spec (Num.ceil_div windowMs 1000) 0) as [E0|_]; [lia|].
  simpl andb. cbv iota.
  unfold Store.EXPIRE. rewrite command_online by exact Hon.
  rewrite live_insert_eq. simpl.
  destruct (Z.leb_spec (Num.ceil_div windowMs 1000) 0); [lia|].
  simpl. unfold Store.with_keyspace. simpl. now rewrite insert_insert_eq.
Qed.

(** A later call of the window counts one up and keeps the expiry. *)
Lemma checkRateLimit_counting (w : world) (key : string) (limit windowMs n : Z)
    (exp : option Z) :
  online w = true -> 0 < windowMs ->
  let ws := RateLimitService.windowStart (clock w) windowMs in
  let ck := RateLimitService.cacheKey key ws in
  Store.live w ck = Some {| payload := Num.toString n; expire_at := exp |} ->
  1 <= n < 2 ^ 63 - 1 ->
  RateLimitService.checkRateLimit key limit windowMs w
  = (Ok (answer limit windowMs (clock w) (n + 1)),
     Store.with_keyspace w
       (<[ck := {| payload := Num.toString (n + 1); expire_at := exp |}]> (keyspace w))).
Proof.
  intros Hon Hw ws ck Hlive Hn.
  subst ws ck.
  apply (checkRateLimit_incr (H := store_client) key limit windowMs w _ (n + 1)).
  simpl Date_now.
  rewrite incr_online by exact Hon.
  unfold Store.INCR. rewrite command_online by exact Hon. rewrite Hlive.
  simpl payload. rewrite string2ll_toString by lia.
  destruct (Z.ltb_spec n (2 ^ 63 - 1)); [|lia].
  destruct (Z.eqb_spec (n + 1) 1); [lia|].
  rewrite andb_false_r. reflexivity.
Qed.

Section OneWindow.
Variables (key : string) (limit windowMs ws : Z).
Hypothesis Hw : 0 < windowMs.
Hypothesis Hws : (windowMs | ws).
Hypothesis Hreset : Date.valid (ws + windowMs) = true.

(** In the window, with a reset time that is a time value, every request
    gets the verdict. *)
Lemma answer_in_window (now hits : Z) :
  ws <= now < ws + windowMs ->
  answer limit windowMs now hits = verdict limit (ws + windowMs) hits.
Proof.
  intros Hnow. rewrite answer_verdict.
  - now rewrite (windowStart_in_window now windowMs ws Hw Hws Hnow).
  - right. rewrite (windowStart_in_window now windowMs ws Hw Hws Hnow).
    now rewrite reset_is_time_value_positive.
Qed.

Let ck : string := RateLimitService.cacheKey key ws.

(** Calls made inside the window leave every other key alone. *)
Lemma check_run_frame (delays : list Z) (w : world) :
  online w = true ->
  ws <= clock w -> clock w + total_delay delays < ws + windowMs ->
  let w' := snd (check_run key limit windowMs delays w) in
  online w' = true
  /\ clock w' = clock w + total_delay delays
  /\ forall k, k <> ck -> keyspace w' !! k = keyspace w !! k.
Proof.
  revert w. induction delays as [|d delays IH]; intros w Hon Hlo Hhi.
  - simpl. split; [exact Hon|]. split; [lia | reflexivity].
  - simpl in Hhi. pose proof (total_delay_nonneg delays) as Hnn.
    pose proof (checkRateLimit_frame (Store.elapse d w) key limit windowMs Hon) as Hstep.
    simpl check_run.
    destruct (RateLimitService.checkRateLimit key limit windowMs (Store.elapse d w))
      as [r w1] eqn:E1.
    simpl in Hstep. destruct Hstep as (Hc1 & Hon1 & Hk1).
    rewrite (windowStart_in_window (clock w + Z.max 0 d) windowMs ws Hw Hws) in Hk1 by lia.
    specialize (IH w1 Hon1 ltac:(lia) ltac:(lia)).
    destruct (check_run key limit windowMs delays w1) as [rs w2] eqn:E2.
    simpl in *. destruct IH as (Hon2 & Hc2 & Hk2).
    split; [exact Hon2|]. split; [lia|].
    intros k Hne. rewrite Hk2 by exact Hne. now apply Hk1.
Qed.

(** Once the counter of the window holds [n], the next calls of the
    window are hits [n + 1], [n + 2], ... *)
Lemma check_run_counting (delays : list Z) (w : world) (n exp : Z) :
  online w = true ->
  ws <= clock w -> clock w + total_delay delays < ws + windowMs ->
  keyspace w !! ck = Some {| payload := Num.toString n; expire_at := Some exp |} ->
  ws + windowMs <= exp ->
  1 <= n -> n + Z.of_nat (List.length delays) < 2 ^ 63 ->
  fst (check_run key limit windowMs delays w)
  = verdicts limit (ws + windowMs) (n + 1) (List.length delays).
Proof.
  revert w n. induction delays as [|d delays IH]; intros w n Hon Hlo Hhi Hck Hexp Hn Hmax.
  - reflexivity.
  - simpl in Hhi. pose proof (total_delay_nonneg delays) as Hnn.
    simpl List.length in Hmax.
    pose proof (checkRateLimit_counting (Store.elapse d w) key limit windowMs n (Some exp)
                  Hon Hw) as Hstep.
    simpl in Hstep.
    rewrite (windowStart_in_window (clock w + Z.max 0 d) windowMs ws Hw Hws) in Hstep by lia.
    fold ck in Hstep.
    assert (Hlive : Store.live (Store.elapse d w) ck
                    = Some {| payload := Num.toString n; expire_at := Some exp |}).
    { rewrite live_elapse, Hck. unfold Store.expired. simpl.
      destruct (Z.ltb_spec exp (clock w + Z.max 0 d)); [lia | reflexivity]. }
    specialize (Hstep Hlive ltac:(lia)).
    rewrite answer_in_window in Hstep by lia.
    simpl check_run. rewrite Hstep.
    specialize (IH (Store.with_keyspace (Store.elapse d w)
                      (<[ck := {| payload := Num.toString (n + 1);
                                  expire_at := Some exp |}]> (keyspace w)))
                   (n + 1) Hon).
    simpl in IH. rewrite lookup_insert_eq in IH.
    specialize (IH ltac:(lia) ltac:(lia) eq_refl Hexp ltac:(lia) ltac:(lia)).
    destruct (check_run key limit windowMs delays _) as [rs w2].
    simpl in *. now rewrite IH.
Qed.

(** From a store without a counter for the window, the calls of the
    window are hits 1, 2, 3, ... *)
Lemma check_run_fresh (delays : list Z) (w : world) :
  online w = true ->
  ws <= clock w -> clock w + total_delay delays < ws + windowMs ->
  Store.live w ck = None ->
  Z.of_nat (List.length delays) < 2 ^ 62 ->
  fst (check_run key limit windowMs delays w)
  = verdicts limit (ws + windowMs) 1 (List.length delays).
Proof.
  intros Hon Hlo Hhi Hfresh Hmax. destruct delays as [|d delays]; [reflexivity|].
  simpl in Hhi. pose proof (total_delay_nonneg delays) as Hnn.
  simpl List.length in Hmax.
  pose proof (ceil_div_spec windowMs 1000 ltac:(lia)) as Hceil.
  pose proof (checkRateLimit_fresh (Store.elapse d w) key limit windowMs Hon Hw) as Hstep.
  simpl in Hstep.
  rewrite (windowStart_in_window (clock w + Z.max 0 d) windowMs ws Hw Hws) in Hstep by lia.
  fold ck in Hstep.
  assert (Hlive : Store.live (Store.elapse d w) ck = None).
  { rewrite live_elapse. unfold Store.live in Hfresh.
    destruct (keyspace w !! ck) as [e|]; [|reflexivity].
    unfold Store.expired in *. destruct (expire_at e) as [t|]; [|discriminate].
    destruct (Z.ltb_spec t (clock w)); [|discriminate].
    destruct (Z.ltb_spec t (clock w + Z.max 0 d)); [reflexivity | lia]. }
  specialize (Hstep Hlive).
  rewrite answer_in_window in Hstep by lia.
  simpl check_run. rewrite Hstep.
  pose proof (check_run_counting delays
                (Store.with_keyspace (Store.elapse d w)
                   (<[ck := {| payload := "1";
                               expire_at := Some (clock w + Z.max 0 d
                                                  + Num.ceil_div windowMs 1000 * 1000) |}]>
                      (keyspace w)))
                1 (clock w + Z.max 0 d + Num.ceil_div windowMs 1000 * 1000) Hon) as Hrest.
  simpl in Hrest. rewrite lookup_insert_eq in Hrest.
  specialize (Hrest ltac:(lia) ltac:(lia) eq_refl ltac:(lia) ltac:(lia) ltac:(lia)).
  destruct (check_run key limit windowMs delays _) as [rs w2].
  simpl in *. now rewrite Hrest.
Qed.

End OneWindow.

(** ** The first call of a window, in a store that only rate limiting
    writes to *)

Lemma split_at_last_colon (a b x y : list ascii) :
  Forall (fun c => c <> ":"%char) x -> Forall (fun c => c <> ":"%char) y ->
  a ++ ":"%char :: x = b ++ ":"%char :: y -> a = b /\ x = y.
Proof.
  intros Hx Hy E.
  assert (Erev : rev x ++ ":"%char :: rev a = rev y ++ ":"%char :: rev b).
  { apply (f_equal (@rev ascii)) in E. rewrite !rev_app_distr in E. simpl in E.
    now rewrite <- !app_assoc in E. }
  assert (Hrx : Forall (fun c => c <> ":"%char) (rev x)) by now apply Forall_rev.
  assert (Hry : Forall (fun c => c <> ":"%char) (rev y)) by now apply Forall_rev.
  assert (Hsame : rev x = rev y /\ rev a = rev b).
  { clear E Hx Hy. revert Erev Hrx Hry. generalize (rev x), (rev y), (rev a), (rev b).
    intros p. induction p as [|c p IH]; intros q ra rb E Hp Hq.
    - destruct q as [|d q]; simpl in E.
      + now inversion E.
      + inversion E; subst. inversion Hq; subst. congruence.
    - destruct q as [|d q]; simpl in E.
      + inversion E; subst. inversion Hp; subst. congruence.
      + inversion E; subst. inversion Hp; subst. inversion Hq; subst.
        destruct (IH q ra rb) as [-> ->]; auto. }
  destruct Hsame as [Ex Ea]. split.
  - rewrite <- (rev_involutive a), <- (rev_involutive b). now rewrite Ea.
  - rewrite <- (rev_involutive x), <- (rev_involutive y). now rewrite Ex.
Qed.

Lemma toString_no_colon (z : Z) :
  Forall (fun c => c <> ":"%char) (chars (Num.toString z)).
Proof.
  assert (Hd : forall c, is_digit c = true -> c <> ":"%char)
    by (intros c Hc ->; discriminate Hc).
  assert (Hall : forall ds, Forall (fun c => is_digit c = true) ds ->
                            Forall (fun c => c <> ":"%char) ds).
  { intros ds Hds. eapply Forall_impl; [exact Hds | exact Hd]. }
  destruct (toString_shape z) as (c & ds & Hds & [[E Hc] | (d & E & -> & Hdig)]);
    rewrite E.
  - constructor; auto.
  - constructor; [discriminate|]. constructor; auto.
Qed.

(** The store key tells the subject and the window apart. *)
Lemma cacheKey_inj_both (key1 key2 : string) (a b : Z) :
  RateLimitService.cacheKey key1 a = RateLimitService.cacheKey key2 b ->
  key1 = key2 /\ a = b.
Proof.
  unfold RateLimitService.cacheKey. intros E.
  apply (f_equal chars) in E. rewrite !chars_app in E.
  apply app_inv_head in E.
  apply split_at_last_colon in E; try apply toString_no_colon.
  destruct E as [Ek Es]. split; [now apply chars_inj|].
  apply chars_inj in Es. now apply toString_inj.
Qed.

Lemma started_empty (now : Z) : counters_of_started_windows (Store.empty_at now).
Proof. intros k e Hk. simpl in Hk. now rewrite lookup_empty in Hk. Qed.

Lemma started_elapse (w : world) (ms : Z) :
  counters_of_started_windows w -> counters_of_started_windows (Store.elapse ms w).
Proof.
  intros Hinv k e Hk. destruct (Hinv k e Hk) as (key & start & -> & Hle).
  exists key, start. split; [reflexivity|]. simpl. lia.
Qed.

Lemma started_checkRateLimit (w : world) (key : string) (limit windowMs : Z) :
  online w = true -> 0 < windowMs ->
  counters_of_started_windows w ->
  counters_of_started_windows (snd (RateLimitService.checkRateLimit key limit windowMs w)).
Proof.
  intros Hon Hw Hinv k e Hk.
  destruct (checkRateLimit_frame w key limit windowMs Hon) as (Hclock & _ & Hframe).
  rewrite Hclock.
  destruct (decide (k = RateLimitService.cacheKey key
                           (RateLimitService.windowStart (clock w) windowMs))) as [->|Hne].
  - eexists _, _. split; [reflexivity|].
    destruct (floor_div_spec (clock w) windowMs Hw) as [Hb _].
    unfold RateLimitService.windowStart. lia.
  - rewrite Hframe in Hk by exact Hne. exact (Hinv k e Hk).
Qed.

Lemma started_calls_run (calls : list call) (w : world) :
  Forall (fun c => 0 < call_window c) calls ->
  online w = true -> counters_of_started_windows w ->
  online (calls_run calls w) = true /\ counters_of_started_windows (calls_run calls w).
Proof.
  intros Hcalls. revert w. induction Hcalls as [|c calls Hc _ IH]; intros w Hon Hinv.
  - split; assumption.
  - simpl. apply IH.
    + now destruct (checkRateLimit_frame (Store.elapse (call_delay c) w)
                      (call_key c) (call_limit c) (call_window c) Hon) as (_ & Hon' & _).
    + apply started_checkRateLimit; [exact Hon | exact Hc |].
      now apply started_elapse.
Qed.

(** The first hit of a window is reported as hit number 1 when the limit
    allows it or the end of the window is a time value. *)
Lemma answer_first_hit (limit windowMs now : Z) :
  0 < windowMs ->
  1 <= limit
  \/ Date.valid (RateLimitService.windowStart now windowMs + windowMs) = true ->
  totalHits (answer limit windowMs now 1) = 1.
Proof.
  intros Hw Hcase. rewrite answer_verdict; [reflexivity|].
  destruct Hcase as [Hle | Hvalid]; [now left | right].
  now rewrite reset_is_time_value_positive.
Qed.

(** Starting from an empty store, after any run of rate-limit calls (for
    any subjects, limits and positive window sizes) that ends before the
    window [[ws, ws + windowMs)] does, the call made at [ws + windowMs]
    finds no counter for its window and sets it to 1; it is reported as
    hit number 1 when the limit allows the request or the end of the new
    window is a time value. *)
Lemma next_window_starts_at_one (t0 : Z) (calls : list call)
    (key : string) (limit windowMs ws : Z) :
  0 < windowMs -> (windowMs | ws) ->
  Forall (fun c => 0 < call_window c) calls ->
  let w1 := calls_run calls (Store.empty_at t0) in
  clock w1 < ws + windowMs ->
  exists r w2,
    RateLimitService.checkRateLimit key limit windowMs
      (Store.elapse (ws + windowMs - clock w1) w1) = (Ok r, w2)
    /\ (1 <= limit \/ Date.valid (ws + windowMs + windowMs) = true -> totalHits r = 1)
    /\ payload <$> Store.live w2 (RateLimitService.cacheKey key (ws + windowMs))
       = Some "1".
Proof.
  intros Hw Hdiv Hcalls w1 Hbefore.
  destruct (started_calls_run calls (Store.empty_at t0) Hcalls eq_refl (started_empty t0))
    as [Hon Hinv]. fold w1 in Hon, Hinv.
  assert (E3 : RateLimitService.windowStart (ws + windowMs) windowMs = ws + windowMs).
  { apply windowStart_in_window; [exact Hw | | lia].
    destruct Hdiv as [q ->]. exists (q + 1). lia. }
  pose proof (checkRateLimit_fresh (Store.elapse (ws + windowMs - clock w1) w1)
                key limit windowMs Hon Hw) as Hstep.
  simpl in Hstep.
  assert (Hnow : clock w1 + Z.max 0 (ws + windowMs - clock w1) = ws + windowMs) by lia.
  rewrite Hnow, E3 in Hstep.
  assert (Habsent : Store.live (Store.elapse (ws + windowMs - clock w1) w1)
                      (RateLimitService.cacheKey key (ws + windowMs)) = None).
  { rewrite live_elapse.
    destruct (keyspace w1 !! RateLimitService.cacheKey key (ws + windowMs)) as [e|] eqn:Hk;
      [|reflexivity].
    destruct (Hinv _ e Hk) as (key' & start & E & Hle).
    apply cacheKey_inj_both in E. lia. }
  pose proof (ceil_div_spec windowMs 1000 ltac:(lia)) as Hceil.
  specialize (Hstep Habsent). eexists _, _. split; [exact Hstep|]. split.
  - intros Hcase. apply answer_first_hit; [exact Hw|]. now rewrite E3.
  - unfold Store.live. simpl. rewrite lookup_insert_eq.
    unfold Store.expired. simpl. rewrite Hnow.
    destruct (Z.ltb_spec (ws + windowMs + Num.ceil_div windowMs 1000 * 1000)
                (ws + windowMs)); [lia | reflexivity].
Qed.

Lemma cacheKey_inj (key : string) (a b : Z) :
  RateLimitService.cacheKey key a = RateLimitService.cacheKey key b -> a = b.
Proof. intros E. now apply cacheKey_inj_both in E. Qed.

(** C4: starting from a reachable store without a counter for the current
    window, six calls [checkRateLimit ("ip1", 5, 60000)] that all fall in
    that window return, in order: five times [allowed = true] with
    [remaining] 4, 3, 2, 1, 0, then [allowed = false] with
    [remaining = 0].  The i-th call is made [d_i] milliseconds after the
    one before.  The window ends at a time value, as it does for every
    time [Date.now ()] can give but the last minute of the range of a
    Date: the refusal is logged with that time as a date. *)
Theorem C4_rate_limit_scenario (w : world) (d1 d2 d3 d4 d5 d6 : Z) :
  online w = true ->
  let ws := RateLimitService.windowStart (clock w) 60000 in
  clock w + total_delay [d1; d2; d3; d4; d5; d6] < ws + 60000 ->
  Date.valid (ws + 60000) = true ->
  Store.live w (RateLimitService.cacheKey "ip1" ws) = None ->
  fst (check_run "ip1" 5 60000 [d1; d2; d3; d4; d5; d6] w)
  = [ Ok {| allowed := true; remaining := 4; resetTime := ws + 60000; totalHits := 1 |};
      Ok {| allowed := true; remaining := 3; resetTime := ws + 60000; totalHits := 2 |};
      Ok {| allowed := true; remaining := 2; resetTime := ws + 60000; totalHits := 3 |};
      Ok {| allowed := true; remaining := 1; resetTime := ws + 60000; totalHits := 4 |};
      Ok {| allowed := true; remaining := 0; resetTime := ws + 60000; totalHits := 5 |};
      Ok {| allowed := false; remaining := 0; resetTime := ws + 60000; totalHits := 6 |} ].
Proof.
  intros Hon ws Hin Hreset Hfresh.
  destruct (floor_div_spec (clock w) 60000 ltac:(lia)) as [Hbounds Hdiv].
  fold (RateLimitService.windowStart (clock w) 60000) in Hbounds, Hdiv. fold ws in Hbounds, Hdiv.
  rewrite (check_run_fresh "ip1" 5 60000 ws ltac:(lia) Hdiv Hreset); try assumption.
  - reflexivity.
  - lia.
  - simpl. lia.
Qed.

Lemma C4_rate_limit_scenario_witness :
  fst (check_run "ip1" 5 60000 [0; 1000; 1000; 1000; 1000; 1000] (Store.empty_at 125000))
  = [ Ok {| allowed := true; remaining := 4; resetTime := 180000; totalHits := 1 |};
      Ok {| allowed := true; remaining := 3; resetTime := 180000; totalHits := 2 |};
      Ok {| allowed := true; remaining := 2; resetTime := 180000; totalHits := 3 |};
      Ok {| allowed := true; remaining := 1; resetTime := 180000; totalHits := 4 |};
      Ok {| allowed := true; remaining := 0; resetTime := 180000; totalHits := 5 |};
      Ok {| allowed := false; remaining := 0; resetTime := 180000; totalHits := 6 |} ].
Proof.
  apply (C4_rate_limit_scenario (Store.empty_at 125000) 0 1000 1000 1000 1000 1000).
  - reflexivity.
  - reflexivity.
  - reflexivity.
  - reflexivity.
Defined.

(** C5: for a window size [windowMs > 0] and a window starting at [ws],
    two calls for the same subject at times in [[ws, ws + windowMs)]
    compute the same window start, [ws], and the same store key; a call
    at time [ws + windowMs] computes the later window start
    [ws + windowMs] and a different key; and its counter starts again at
    1: on a reachable store that holds no counter for that later window,
    after any run of calls made inside the window, the call at
    [ws + windowMs] sets the counter of the later window to 1; and so it
    does after any run of rate-limit calls whatever that starts from an
    empty store and ends before [ws + windowMs].  The call reports hit
    number 1 ([totalHits = 1]) when the limit allows the request or the
    end of the later window is a time value. *)
Theorem C5_window_boundary (key : string) (windowMs ws t1 t2 : Z) :
  0 < windowMs -> (windowMs | ws) ->
  ws <= t1 < ws + windowMs -> ws <= t2 < ws + windowMs ->
  (RateLimitService.windowStart t1 windowMs = ws
   /\ RateLimitService.windowStart t2 windowMs = ws
   /\ RateLimitService.cacheKey key (RateLimitService.windowStart t1 windowMs)
      = RateLimitService.cacheKey key (RateLimitService.windowStart t2 windowMs))
  /\ (RateLimitService.windowStart (ws + windowMs) windowMs = ws + windowMs
      /\ ws < ws + windowMs
      /\ RateLimitService.cacheKey key (RateLimitService.windowStart (ws + windowMs) windowMs)
         <> RateLimitService.cacheKey key ws)
  /\ (forall (w : world) (limit : Z) (delays : list Z),
        online w = true -> clock w = t1 -> t1 + total_delay delays = t2 ->
        Store.live w (RateLimitService.cacheKey key (ws + windowMs)) = None ->
        let w1 := snd (check_run key limit windowMs delays w) in
        exists r w2,
          RateLimitService.checkRateLimit key limit windowMs
            (Store.elapse (ws + windowMs - t2) w1) = (Ok r, w2)
          /\ (1 <= limit \/ Date.valid (ws + windowMs + windowMs) = true ->
              totalHits r = 1)
          /\ Store.live w2 (RateLimitService.cacheKey key (ws + windowMs))
             = Some {| payload := "1";
                       expire_at := Some (ws + windowMs
                                          + Num.ceil_div windowMs 1000 * 1000) |})
  /\ (forall (t0 limit : Z) (calls : list call),
        Forall (fun c => 0 < call_window c) calls ->
        let w1 := calls_run calls (Store.empty_at t0) in
        clock w1 < ws + windowMs ->
        exists r w2,
          RateLimitService.checkRateLimit key limit windowMs
            (Store.elapse (ws + windowMs - clock w1) w1) = (Ok r, w2)
          /\ (1 <= limit \/ Date.valid (ws + windowMs + windowMs) = true ->
              totalHits r = 1)
          /\ payload <$> Store.live w2 (RateLimitService.cacheKey key (ws + windowMs))
             = Some "1").
Proof.
  intros Hw Hdiv Ht1 Ht2.
  assert (E1 : RateLimitService.windowStart t1 windowMs = ws)
    by (apply windowStart_in_window; assumption).
  assert (E2 : RateLimitService.windowStart t2 windowMs = ws)
    by (apply windowStart_in_window; assumption).
  assert (E3 : RateLimitService.windowStart (ws + windowMs) windowMs = ws + windowMs).
  { apply windowStart_in_window; [exact Hw | | lia].
    destruct Hdiv as [q ->]. exists (q + 1). lia. }
  split; [|split; [|split]].
  - split; [exact E1|]. split; [exact E2|]. now rewrite E1, E2.
  - split; [exact E3|]. split; [lia|]. rewrite E3. intros E.
    apply cacheKey_inj in E. lia.
  - intros w limit delays Hon Hclock Hrun Hfresh w1.
    destruct (check_run_frame key limit windowMs ws Hw Hdiv delays w Hon)
      as (Hon1 & Hc1 & Hk1); [lia | lia |].
    fold w1 in Hon1, Hc1, Hk1.
    pose proof (ceil_div_spec windowMs 1000 ltac:(lia)) as Hceil.
    pose proof (checkRateLimit_fresh (Store.elapse (ws + windowMs - t2) w1) key limit windowMs
                  Hon1 Hw) as Hstep.
    simpl in Hstep.
    assert (Hnow : clock w1 + Z.max 0 (ws + windowMs - t2) = ws + windowMs) by lia.
    rewrite Hnow, E3 in Hstep.
    assert (Hnext : Store.live (Store.elapse (ws + windowMs - t2) w1)
                      (RateLimitService.cacheKey key (ws + windowMs)) = None).
    { rewrite live_elapse, Hk1.
      - unfold Store.live in Hfresh.
        destruct (keyspace w !! RateLimitService.cacheKey key (ws + windowMs)) as [e|];
          [|reflexivity].
        unfold Store.expired in *. destruct (expire_at e) as [t|]; [|discriminate].
        destruct (Z.ltb_spec t (clock w)); [|discriminate].
        destruct (Z.ltb_spec t (clock w1 + Z.max 0 (ws + windowMs - t2)));
          [reflexivity | lia].
      - intros E. apply cacheKey_inj in E. lia. }
    specialize (Hstep Hnext).
    eexists _, _. split; [exact Hstep|]. split.
    { intros Hcase. apply answer_first_hit; [exact Hw|]. now rewrite E3. }
    unfold Store.live. simpl. rewrite lookup_insert_eq.
    unfold Store.expired. simpl. rewrite Hnow.
    destruct (Z.ltb_spec (ws + windowMs + Num.ceil_div windowMs 1000 * 1000)
                (ws + windowMs)); [lia | reflexivity].
  - intros t0 limit calls Hcalls w1 Hbefore.
    now apply next_window_starts_at_one.
Qed.

Lemma C5_window_boundary_witness :
  (RateLimitService.windowStart 125000 60000 = 120000
   /\ RateLimitService.windowStart 179999 60000 = 120000
   /\ RateLimitService.cacheKey "ip1" (RateLimitService.windowStart 125000 60000)
      = RateLimitService.cacheKey "ip1" (RateLimitService.windowStart 179999 60000))
  /\ RateLimitService.windowStart 180000 60000 = 180000
  /\ exists r w2,
       RateLimitService.checkRateLimit "ip1" 5 60000
         (Store.elapse 1 (snd (check_run "ip1" 5 60000 [0; 54999] (Store.empty_at 125000))))
       = (Ok r, w2)
       /\ totalHits r = 1.
Proof.
  destruct (C5_window_boundary "ip1" 60000 120000 125000 179999)
    as (Hsame & (Hnext & _ & _) & Hfresh & _); [lia | exists 2; lia | lia | lia |].
  split; [exact Hsame|]. split; [exact Hnext|].
  destruct (Hfresh (Store.empty_at 125000) 5 [0; 54999])
    as (r & w2 & E & Hhits & _); [reflexivity | reflexivity | reflexivity | reflexivity|].
  exists r, w2. split; [exact E | apply Hhits; left; lia].
Defined.

Example checkRateLimit_result_example :
  let w := Store.empty_at 125000 in
  let w' := snd (CacheService.incr "rate_limit:ip1:120000" (Some 60) w) in
  RateLimitService.checkRateLimit "ip1" 5 60000 w
  = (Ok {| allowed := true; remaining := 4; resetTime := 180000; totalHits := 1 |}, w').
Proof. reflexivity. Qed.

(** C1: a refusal that cannot be logged is let through.  On a reachable
    store without a counter, [checkRateLimit ("ip1", 0, 9000000000000000)]
    made at time 1700000000000 increments the counter of the window that
    starts at 0 to 1, which is above the limit of 0; the reset time,
    9000000000000000, is beyond the range of a Date, so that
    [toISOString] throws inside the [try], and the call returns the
    record of the catch block, [allowed] true with [totalHits] 0 and
    [resetTime = now + windowMs], instead of [allowed] false with
    [totalHits] 1 and [resetTime = windowStart + windowMs].  The counter
    stays at 1, and [getRateLimitInfo] reports the refusal for the same
    key, limit and window. *)
Theorem C1_refusal_not_logged_is_allowed :
  let w := Store.empty_at 1700000000000 in
  let call := RateLimitService.checkRateLimit "ip1" 0 9000000000000000 w in
  fst (CacheService.incr "rate_limit:ip1:0" (Some 9000000000000) w) = Ok 1
  /\ fst call = Ok {| allowed := true;
                      remaining := 0;
                      resetTime := 9001700000000000;
                      totalHits := 0 |}
  /\ payload <$> Store.live (snd call) "rate_limit:ip1:0" = Some "1"
  /\ fst (RateLimitService.getRateLimitInfo "ip1" 0 9000000000000000 (snd call))
     = Ok (Some {| allowed := false;
                   remaining := 0;
                   resetTime := 9000000000000000;
                   totalHits := 1 |}).
Proof. repeat split. Qed.

(** ** The model at work *)

Example toString_examples :
  Num.toString 120000 = "120000" /\ Num.toString (-7) = "-7" /\ Num.toString 0 = "0".
Proof. repeat split. Qed.

Example string2ll_examples :
  Num.string2ll "41" = Some 41 /\ Num.string2ll "007" = None
  /\ Num.string2ll "-0" = None /\ Num.string2ll "4x" = None.
Proof. repeat split. Qed.

Example ceil_div_examples :
  Num.ceil_div 60000 1000 = 60 /\ Num.ceil_div 60001 1000 = 61 /\ Num.ceil_div 1 1000 = 1.
Proof. repeat split. Qed.

Example glob_examples :
  Glob.glob "user:42:expenses*" "user:42:expenses:1:20" = true
  /\ Glob.glob "user:42:expenses*" "user:42:expenses" = true
  /\ Glob.glob "user:42:expenses*" "user:42:categories:x" = false
  /\ Glob.glob "user:42:expenses*" "user:421:expenses:1:20" = false
  /\ Glob.glob "h?llo" "hello" = true /\ Glob.glob "h?llo" "hllo" = false
  /\ Glob.glob "h[a-e]llo" "hello" = true /\ Glob.glob "h[^a-e]llo" "hello" = false
  /\ Glob.glob "h\*llo" "h*llo" = true /\ Glob.glob "h\*llo" "hello" = false.
Proof. repeat split. Qed.

Example stringify_example :
  JSON.stringify
    (JObj [("id", JNum 7); ("tags", JArr [JStr "a\b"; JNull; JBool false])])
  = "{" +:+ text [dquote] +:+ "id" +:+ text [dquote] +:+ ":7,"
    +:+ text [dquote] +:+ "tags" +:+ text [dquote] +:+ ":["
    +:+ text [dquote] +:+ "a\\b" +:+ text [dquote] +:+ ",null,false]}".
Proof. reflexivity. Qed.

Example parse_examples :
  JSON.parse " [ 1 , [ ] , { } ] " = Some (JArr [JNum 1; JArr []; JObj []])
  /\ JSON.parse "null" = Some JNull
  /\ JSON.parse "01" = None /\ JSON.parse "[1,]" = None /\ JSON.parse "nul" = None
  /\ JSON.parse EmptyString = None.
Proof. repeat split. Qed.

Example number_examples :
  JSON.parse "12.5" = Some (JFrac false 12 "5")
  /\ JSON.parse "-0.250" = Some (JFrac true 0 "25")
  /\ JSON.parse "125e-1" = Some (JFrac false 12 "5")
  /\ JSON.parse "1.5E+3" = Some (JNum 1500)
  /\ JSON.parse "1e2" = Some (JNum 100)
  /\ JSON.parse "-0" = Some (JNum 0)
  /\ JSON.parse "1." = None /\ JSON.parse ".5" = None /\ JSON.parse "1e" = None
  /\ JSON.parse "+1" = None /\ JSON.parse "-" = None
  /\ JSON.stringify (JFrac false 12 "5") = "12.5"
  /\ JSON.stringify (JFrac true 0 "000001") = "-0.000001"
  /\ JSON.stringify (JFrac false 0 "0000001") = "1e-7"
  /\ JSON.stringify (JFrac false 0 "00000015") = "1.5e-7"
  /\ JSON.parse "1.5e-7" = Some (JFrac false 0 "00000015").
Proof. repeat split. Qed.

Example escape_examples :
  JSON.parse (text [dquote] +:+ "\u0041\u00e9\u20ac\ud83d\ude00" +:+ text [dquote])
  = Some (JStr (text (map ascii_of_N
                        [65; 195; 169; 226; 130; 172; 240; 159; 152; 128]%N)))
  /\ JSON.parse (text [dquote] +:+ "a\/b\n" +:+ text [dquote])
     = Some (JStr (text ["a"; "/"; "b"; ascii_of_N 10]%char))
  /\ JSON.parse (text [dquote] +:+ "\u12" +:+ text [dquote]) = None
  /\ JSON.parse (text [dquote; ascii_of_N 10; dquote]) = None.
Proof. repeat split. Qed.

Example date_examples :
  Date.toISOString 0 = "1970-01-01T00:00:00.000Z"
  /\ Date.toISOString 1700000000000 = "2023-11-14T22:13:20.000Z"
  /\ Date.toISOString 951782400123 = "2000-02-29T00:00:00.123Z"
  /\ Date.toISOString (-1) = "1969-12-31T23:59:59.999Z"
  /\ Date.toISOString 8640000000000000 = "+275760-09-13T00:00:00.000Z"
  /\ Date.valid 8640000000000001 = false
  /\ JSON.stringify (JArr [JDate 0; JDate 8640000000000001; JNaN])
     = "[" +:+ text [dquote] +:+ "1970-01-01T00:00:00.000Z" +:+ text [dquote]
       +:+ ",null,null]".
Proof. repeat split. Qed.

Example user_expenses_key :
  CACHE_KEYS.USER_EXPENSES "42" None None = "user:42:expenses:1:20"
  /\ CACHE_KEYS.USER_EXPENSES "42" (Some 3) (Some 0) = "user:42:expenses:3:20".
Proof. repeat split. Qed.

(** The spec's scenario: cache, invalidate, miss. *)
Example cache_then_invalidate_then_miss :
  let k := "user:42:expenses:1:20" in
  let payload := JObj [("total", JNum 2)] in
  let w1 := snd (CacheService.set k payload (Some 300) (Store.empty_at 0)) in
  let w2 := snd (CacheInvalidator.invalidateUserExpenses "42" w1) in
  fst (CacheService.get k w1) = Ok payload /\ fst (CacheService.get k w2) = Ok JNull.
Proof. repeat split. Qed.

(** A burst across the boundary of two windows: five calls at the end of
    one window and five at the start of the next are all allowed. *)
Example boundary_burst :
  map (fun r => match r with Ok v => allowed v | Throw _ => false end)
    (fst (check_run "ip1" 5 60000 [0; 0; 0; 0; 0; 1; 0; 0; 0; 0] (Store.empty_at 179999)))
  = [true; true; true; true; true; true; true; true; true; true].
Proof. reflexivity. Qed.


(** * Part III: more of the code *)

(** ** The other invalidations *)

Lemma has_prefix_glob (pre key : string) :
  Glob.plain pre = true -> Glob.glob (pre +:+ "*") key = has_prefix pre key.
Proof. intros Hplain. now rewrite glob_prefix. Qed.

Lemma strip_prefix_app_Some (a b s : list ascii) :
  strip_prefix (a ++ b) s
  = match strip_prefix a s with
    | Some r => strip_prefix b r
    | None => None
    end.
Proof.
  revert s. induction a as [|c a IH]; intros s; simpl; [reflexivity|].
  destruct s as [|c' s]; [reflexivity|].
  destruct (Ascii.eqb c c'); [apply IH | reflexivity].
Qed.

Lemma has_prefix_app (a b key : string) :
  has_prefix (a +:+ b) key = true -> has_prefix a key = true.
Proof.
  unfold has_prefix. rewrite chars_app, strip_prefix_app_Some.
  now destruct (strip_prefix (chars a) (chars key)).
Qed.

Lemma has_prefix_extend (a b : string) : has_prefix a (a +:+ b) = true.
Proof. unfold has_prefix. now rewrite chars_app, strip_prefix_app. Qed.

Lemma user_all_pattern (userId : string) :
  CACHE_PATTERNS.USER_ALL userId = ("user:" +:+ userId) +:+ "*".
Proof. unfold CACHE_PATTERNS.USER_ALL. apply append_star. Qed.

Lemma user_categories_pattern (userId : string) :
  CACHE_PATTERNS.USER_CATEGORIES userId = ("user:" +:+ userId +:+ ":categories") +:+ "*".
Proof.
  unfold CACHE_PATTERNS.USER_CATEGORIES. apply chars_inj. rewrite !chars_app.
  change (chars ":categories*") with (chars ":categories" ++ chars "*").
  now rewrite !app_assoc.
Qed.

Lemma user_prefix_plain (userId suffix : string) :
  Glob.plain userId = true -> Glob.plain suffix = true ->
  Glob.plain ("user:" +:+ userId +:+ suffix) = true.
Proof. intros Hu Hs. now rewrite !plain_app, Hu, Hs. Qed.

(** For a user id without pattern characters, the three patterns of
    [invalidateUser] together match the keys that start with
    [user:{userId}]. *)
Lemma user_patterns_prefix (userId k : string) :
  Glob.plain userId = true ->
  existsb (fun pattern => Glob.glob pattern k)
    [ CACHE_PATTERNS.USER_ALL userId;
      CACHE_PATTERNS.USER_CATEGORIES userId;
      CACHE_PATTERNS.USER_EXPENSES userId ]
  = has_prefix ("user:" +:+ userId) k.
Proof.
  intros Hplain. simpl.
  rewrite user_all_pattern, user_categories_pattern, user_expenses_pattern.
  rewrite (has_prefix_glob ("user:" +:+ userId)) by (now rewrite plain_app, Hplain).
  rewrite (has_prefix_glob ("user:" +:+ userId +:+ ":categories"))
    by (now apply user_prefix_plain).
  rewrite (has_prefix_glob ("user:" +:+ userId +:+ ":expenses"))
    by (now apply user_prefix_plain).
  destruct (has_prefix ("user:" +:+ userId) k) eqn:Hall; [reflexivity|].
  assert (Hno : forall suffix,
            has_prefix ("user:" +:+ userId +:+ suffix) k = false).
  { intros suffix. destruct (has_prefix ("user:" +:+ userId +:+ suffix) k) eqn:E;
      [|reflexivity].
    assert (E' : has_prefix (("user:" +:+ userId) +:+ suffix) k = true).
    { replace (("user:" +:+ userId) +:+ suffix) with ("user:" +:+ userId +:+ suffix);
        [exact E|].
      apply chars_inj. rewrite !chars_app. now rewrite app_assoc. }
    apply has_prefix_app in E'. congruence. }
  now rewrite !Hno.
Qed.

(** X1: on a reachable store, [invalidateUser (u)] removes the keys that
    match one of its three patterns and leaves every other key as it
    was; when [u] has no pattern character, the keys it removes are
    exactly the keys that start with [user:{u}] (those of any user whose
    id starts with [u] among them). *)
Theorem X1_invalidateUser (w : world) (userId : string) :
  online w = true ->
  exists w',
    CacheInvalidator.invalidateUser userId w = (Ok tt, w')
    /\ (forall k,
          Store.live w' k
          = if Glob.glob ("user:" +:+ userId +:+ "*") k
               || Glob.glob ("user:" +:+ userId +:+ ":categories*") k
               || Glob.glob ("user:" +:+ userId +:+ ":expenses*") k
            then None else Store.live w k)
    /\ (Glob.plain userId = true ->
        forall k,
          Store.live w' k
          = if has_prefix ("user:" +:+ userId) k then None else Store.live w k).
Proof.
  intros Hon. unfold CacheInvalidator.invalidateUser.
  destruct (delete_each_online
              [ CACHE_PATTERNS.USER_ALL userId;
                CACHE_PATTERNS.USER_CATEGORIES userId;
                CACHE_PATTERNS.USER_EXPENSES userId ] w Hon)
    as (w' & E & _ & _ & Hlive).
  exists w'. split; [exact E|]. split.
  - intros k. rewrite Hlive. simpl. now rewrite orb_false_r, orb_assoc.
  - intros Hplain k. rewrite Hlive. now rewrite user_patterns_prefix.
Qed.

Lemma X1_invalidateUser_witness :
  let w0 := Store.empty_at 0 in
  let w1 := snd (CacheService.set "user:4:categories" (JArr []) (Some 300) w0) in
  let w2 := snd (CacheService.set "user:42:expenses:1:20" (JArr []) (Some 300) w1) in
  let w := snd (CacheService.set "category:4" (JStr "rent") (Some 300) w2) in
  exists w',
    CacheInvalidator.invalidateUser "4" w = (Ok tt, w')
    /\ Store.live w' "user:4:categories" = None
    /\ Store.live w' "user:42:expenses:1:20" = None
    /\ Store.live w' "category:4" = Store.live w "category:4".
Proof.
  intros w0 w1 w2 w.
  destruct (X1_invalidateUser w "4") as (w' & E & _ & Hprefix); [reflexivity|].
  specialize (Hprefix eq_refl).
  exists w'. split; [exact E|].
  split; [apply (Hprefix "user:4:categories")|].
  split; [apply (Hprefix "user:42:expenses:1:20") | apply (Hprefix "category:4")].
Defined.

Lemma user_key_prefix (userId rest : string) :
  has_prefix ("user:" +:+ userId) ("user:" +:+ userId +:+ rest) = true.
Proof.
  unfold has_prefix. rewrite !chars_app, app_assoc. now rewrite strip_prefix_app.
Qed.

Lemma strip_prefix_refl (a : list ascii) : strip_prefix a a = Some [].
Proof.
  induction a as [|c a IH]; simpl; [reflexivity|]. now rewrite Ascii.eqb_refl.
Qed.

Lemma user_key_prefix_self (userId : string) :
  has_prefix ("user:" +:+ userId) ("user:" +:+ userId) = true.
Proof. unfold has_prefix. now rewrite strip_prefix_refl. Qed.

Lemma invalidateUser_online (w : world) (userId : string) :
  online w = true -> Glob.plain userId = true ->
  exists w',
    CacheInvalidator.invalidateUser userId w = (Ok tt, w')
    /\ online w' = true
    /\ forall k, Store.live w' k
                 = if has_prefix ("user:" +:+ userId) k then None else Store.live w k.
Proof.
  intros Hon Hplain. unfold CacheInvalidator.invalidateUser.
  destruct (delete_each_online
              [ CACHE_PATTERNS.USER_ALL userId;
                CACHE_PATTERNS.USER_CATEGORIES userId;
                CACHE_PATTERNS.USER_EXPENSES userId ] w Hon)
    as (w' & E & _ & Hon' & Hlive).
  exists w'. split; [exact E|]. split; [exact Hon'|].
  intros k. rewrite Hlive. now rewrite user_patterns_prefix.
Qed.

(** X2: on a reachable store, after [invalidateUser (u)], for a user id
    without pattern characters, none of the keys that [CACHE_KEYS] builds
    for that user is retrievable: the user, the category list, every page
    of the expense list and the expense count. *)
Theorem X2_invalidateUser_covers_keys (w : world) (userId : string)
    (page limit : option Z) :
  online w = true -> Glob.plain userId = true ->
  exists w',
    CacheInvalidator.invalidateUser userId w = (Ok tt, w')
    /\ CacheService.get (CACHE_KEYS.USER userId) w' = (Ok JNull, w')
    /\ CacheService.get (CACHE_KEYS.USER_CATEGORIES userId) w' = (Ok JNull, w')
    /\ CacheService.get (CACHE_KEYS.USER_EXPENSES userId page limit) w' = (Ok JNull, w')
    /\ CacheService.get (CACHE_KEYS.USER_EXPENSE_COUNT userId) w' = (Ok JNull, w').
Proof.
  intros Hon Hplain.
  destruct (invalidateUser_online w userId Hon Hplain) as (w' & E & Hon' & Hlive).
  exists w'. split; [exact E|].
  assert (Hgone : forall k, has_prefix ("user:" +:+ userId) k = true ->
                            CacheService.get k w' = (Ok JNull, w')).
  { intros k Hk. rewrite get_online by exact Hon'. rewrite Hlive, Hk. reflexivity. }
  split; [apply Hgone, user_key_prefix_self|].
  split; [apply Hgone, user_key_prefix|].
  split; [apply Hgone, user_key_prefix | apply Hgone, user_key_prefix].
Qed.

Lemma X2_invalidateUser_covers_keys_witness :
  let w0 := Store.empty_at 0 in
  let w := snd (CacheService.set (CACHE_KEYS.USER_EXPENSE_COUNT "42") (JNum 9) (Some 300) w0) in
  exists w',
    CacheInvalidator.invalidateUser "42" w = (Ok tt, w')
    /\ fst (CacheService.get (CACHE_KEYS.USER_EXPENSE_COUNT "42") w) = Ok (JNum 9)
    /\ CacheService.get (CACHE_KEYS.USER_EXPENSE_COUNT "42") w' = (Ok JNull, w').
Proof.
  intros w0 w.
  destruct (X2_invalidateUser_covers_keys w "42" None None)
    as (w' & E & _ & _ & _ & Hcount); [reflexivity | reflexivity |].
  exists w'. split; [exact E|]. split; [reflexivity | exact Hcount].
Defined.

(** X3: on a reachable store, [invalidateUserExpenses (u)], for a user id
    without pattern characters, leaves the user's cached expense count
    ([user:{u}:expense_count]) in place, like the user's own entry and
    category list: the pattern [user:{u}:expenses*] does not reach
    them. *)
Theorem X3_invalidateUserExpenses_keeps_count (w : world) (userId : string) :
  online w = true -> Glob.plain userId = true ->
  exists w',
    CacheInvalidator.invalidateUserExpenses userId w = (Ok tt, w')
    /\ Store.live w' (CACHE_KEYS.USER_EXPENSE_COUNT userId)
       = Store.live w (CACHE_KEYS.USER_EXPENSE_COUNT userId)
    /\ Store.live w' (CACHE_KEYS.USER userId) = Store.live w (CACHE_KEYS.USER userId)
    /\ Store.live w' (CACHE_KEYS.USER_CATEGORIES userId)
       = Store.live w (CACHE_KEYS.USER_CATEGORIES userId).
Proof.
  intros Hon Hplain.
  destruct (delPattern_online w (CACHE_PATTERNS.USER_EXPENSES userId) Hon)
    as (n & w' & E & _ & _ & Hlive).
  exists w'. split.
  { unfold CacheInvalidator.invalidateUserExpenses, bind. now rewrite E. }
  assert (Hkeep : forall rest,
            strip_prefix (chars ":expenses") (chars rest) = None ->
            Store.live w' ("user:" +:+ userId +:+ rest)
            = Store.live w ("user:" +:+ userId +:+ rest)).
  { intros rest Hrest. rewrite Hlive, user_expenses_pattern, glob_prefix.
    - rewrite !chars_app.
      rewrite (strip_prefix_app_l (chars "user:")), (strip_prefix_app_l (chars userId)).
      now rewrite Hrest.
    - rewrite !plain_app, Hplain. reflexivity. }
  split; [apply (Hkeep ":expense_count"); reflexivity|].
  split; [|apply (Hkeep ":categories"); reflexivity].
  unfold CACHE_KEYS.USER. rewrite Hlive, user_expenses_pattern, glob_prefix.
  - change ("user:" +:+ userId +:+ ":expenses")
      with ("user:" +:+ (userId +:+ ":expenses")).
    replace (chars ("user:" +:+ (userId +:+ ":expenses")))
      with (chars ("user:" +:+ userId) ++ chars ":expenses")
      by (rewrite !chars_app; now rewrite app_assoc).
    now rewrite strip_prefix_app_Some, strip_prefix_refl.
  - rewrite !plain_app, Hplain. reflexivity.
Qed.

Lemma X3_invalidateUserExpenses_keeps_count_witness :
  let w0 := Store.empty_at 0 in
  let w := snd (CacheService.set (CACHE_KEYS.USER_EXPENSE_COUNT "42") (JNum 9) (Some 300) w0) in
  exists w',
    CacheInvalidator.invalidateUserExpenses "42" w = (Ok tt, w')
    /\ fst (CacheService.get (CACHE_KEYS.USER_EXPENSE_COUNT "42") w') = Ok (JNum 9).
Proof.
  intros w0 w.
  destruct (X3_invalidateUserExpenses_keeps_count w "42")
    as (w' & E & Hcount & _); [reflexivity | reflexivity |].
  exists w'. split; [exact E|].
  assert (Hon' : online w' = true).
  { destruct (delPattern_online w (CACHE_PATTERNS.USER_EXPENSES "42") eq_refl)
      as (n & w1 & E1 & _ & Hon1 & _).
    unfold CacheInvalidator.invalidateUserExpenses, bind in E. rewrite E1 in E.
    now inversion E; subst. }
  rewrite get_online by exact Hon'. rewrite Hcount. reflexivity.
Defined.

Lemma invalidateCategory_online (w : world) (categoryId : Z) (userId : option string) :
  online w = true ->
  exists w',
    CacheInvalidator.invalidateCategory categoryId userId w = (Ok tt, w')
    /\ online w' = true
    /\ forall k, Glob.glob (CACHE_PATTERNS.CATEGORY_ALL categoryId) k = true ->
                 Store.live w' k = None.
Proof.
  intros Hon. unfold CacheInvalidator.invalidateCategory.
  destruct (truthy_string userId).
  - destruct (delete_each_online
                ([CACHE_PATTERNS.CATEGORY_ALL categoryId]
                   ++ [CACHE_PATTERNS.USER_CATEGORIES (default EmptyString userId)]) w Hon)
      as (w' & E & _ & Hon' & Hlive).
    exists w'. split; [exact E|]. split; [exact Hon'|].
    intros k Hk. rewrite Hlive. simpl. now rewrite Hk.
  - destruct (delete_each_online [CACHE_PATTERNS.CATEGORY_ALL categoryId] w Hon)
      as (w' & E & _ & Hon' & Hlive).
    exists w'. split; [exact E|]. split; [exact Hon'|].
    intros k Hk. rewrite Hlive. simpl. now rewrite Hk.
Qed.

(** X4: on a reachable store, [invalidateCategory (c)] removes the cached
    category and the cached expense count not only of category [c] but of
    every category whose id, written in decimal, starts with the digits of
    [c] (7 also clears 70, 71, 700, ...): the pattern [category:{c}*] is a
    prefix match. *)
Theorem X4_invalidateCategory_prefix (w : world) (c c' : Z) (userId : option string)
    (more : string) :
  online w = true ->
  Num.toString c' = Num.toString c +:+ more ->
  exists w',
    CacheInvalidator.invalidateCategory c userId w = (Ok tt, w')
    /\ CacheService.get (CACHE_KEYS.CATEGORY c') w' = (Ok JNull, w')
    /\ CacheService.get (CACHE_KEYS.CATEGORY_EXPENSE_COUNT c') w' = (Ok JNull, w').
Proof.
  intros Hon Hdigits.
  destruct (invalidateCategory_online w c userId Hon) as (w' & E & Hon' & Hgone).
  exists w'. split; [exact E|].
  assert (Hmatch : forall rest,
            Glob.glob (CACHE_PATTERNS.CATEGORY_ALL c)
              ("category:" +:+ Num.toString c' +:+ rest) = true).
  { intros rest. rewrite category_pattern, glob_prefix.
    - rewrite Hdigits, !chars_app, !app_assoc.
      rewrite <- (app_assoc (chars "category:" ++ chars (Num.toString c))).
      now rewrite strip_prefix_app.
    - rewrite plain_app, toString_plain. reflexivity. }
  split.
  - rewrite get_online by exact Hon'. rewrite Hgone; [reflexivity|].
    unfold CACHE_KEYS.CATEGORY.
    replace ("category:" +:+ Num.toString c')
      with ("category:" +:+ Num.toString c' +:+ EmptyString); [apply Hmatch|].
    apply chars_inj. rewrite !chars_app. simpl. now rewrite app_nil_r.
  - rewrite get_online by exact Hon'. rewrite Hgone; [reflexivity | apply Hmatch].
Qed.

Lemma X4_invalidateCategory_prefix_witness :
  let w0 := Store.empty_at 0 in
  let w := snd (CacheService.set (CACHE_KEYS.CATEGORY 70) (JStr "rent") (Some 300) w0) in
  exists w',
    CacheInvalidator.invalidateCategory 7 None w = (Ok tt, w')
    /\ fst (CacheService.get (CACHE_KEYS.CATEGORY 70) w) = Ok (JStr "rent")
    /\ CacheService.get (CACHE_KEYS.CATEGORY 70) w' = (Ok JNull, w').
Proof.
  intros w0 w.
  destruct (X4_invalidateCategory_prefix w 7 70 None "0") as (w' & E & Hcat & _);
    [reflexivity | reflexivity |].
  exists w'. split; [exact E|]. split; [reflexivity | exact Hcat].
Defined.

Lemma expense_pattern (expenseId : Z) :
  CACHE_PATTERNS.EXPENSE_ALL expenseId = ("expense:" +:+ Num.toString expenseId) +:+ "*".
Proof. unfold CACHE_PATTERNS.EXPENSE_ALL. apply append_star. Qed.

(** A key that starts with another character than the pattern does not
    match it. *)
Lemma glob_other_first (c d : ascii) (pattern rest : string) :
  Glob.is_meta c = false -> c <> d ->
  Glob.glob (String c pattern) (String d rest) = false.
Proof.
  intros Hc Hne. destruct (Glob.glob (String c pattern) (String d rest)) eqn:E;
    [|reflexivity].
  destruct (glob_first c pattern (String d rest) Hc E) as (rest' & [= Hd _]).
  congruence.
Qed.

Lemma user_expenses_not_expense (expenseId : Z) (userId k : string) :
  Glob.glob (CACHE_PATTERNS.USER_EXPENSES userId) k = true ->
  Glob.glob (CACHE_PATTERNS.EXPENSE_ALL expenseId) k = false.
Proof.
  intros Hk.
  destruct (glob_first "u" ("ser:" +:+ userId +:+ ":expenses*") k eq_refl Hk)
    as (rest & ->).
  apply (glob_other_first "e" "u"); [reflexivity | discriminate].
Qed.

(** X5: on a reachable store, [invalidateExpense (e)] without a user id,
    or with the empty string for it, removes exactly the keys matching
    [expense:{e}*] and leaves every user's expense pages
    ([user:{u}:expenses*]) as they were; with a non-empty user id [u] it
    removes the keys matching [user:{u}:expenses*] as well, and nothing
    else. *)
Theorem X5_invalidateExpense (w : world) (expenseId : Z) (userId : option string) :
  online w = true ->
  exists w',
    CacheInvalidator.invalidateExpense expenseId userId w = (Ok tt, w')
    /\ (truthy_string userId = false ->
        (forall k, Store.live w' k
                   = if Glob.glob ("expense:" +:+ Num.toString expenseId +:+ "*") k
                     then None else Store.live w k)
        /\ (forall u k, Glob.glob ("user:" +:+ u +:+ ":expenses*") k = true ->
               Store.live w' k = Store.live w k))
    /\ (forall u, userId = Some u -> u <> EmptyString ->
        forall k, Store.live w' k
                  = if Glob.glob ("expense:" +:+ Num.toString expenseId +:+ "*") k
                       || Glob.glob ("user:" +:+ u +:+ ":expenses*") k
                    then None else Store.live w k).
Proof.
  intros Hon. unfold CacheInvalidator.invalidateExpense.
  destruct (truthy_string userId) eqn:Ht.
  - destruct (delete_each_online
                ([CACHE_PATTERNS.EXPENSE_ALL expenseId]
                   ++ [CACHE_PATTERNS.USER_EXPENSES (default EmptyString userId)]) w Hon)
      as (w' & E & _ & _ & Hlive).
    exists w'. split; [exact E|]. split; [discriminate|].
    intros u -> _ k. rewrite Hlive. simpl. now rewrite orb_false_r.
  - destruct (delete_each_online [CACHE_PATTERNS.EXPENSE_ALL expenseId] w Hon)
      as (w' & E & _ & _ & Hlive).
    assert (Hexp : forall k, Store.live w' k
                     = if Glob.glob ("expense:" +:+ Num.toString expenseId +:+ "*") k
                       then None else Store.live w k).
    { intros k. rewrite Hlive. simpl. now rewrite orb_false_r. }
    exists w'. split; [exact E|]. split.
    + intros _. split; [exact Hexp|].
      intros u k Hk. rewrite Hexp.
      pose proof (user_expenses_not_expense expenseId u k Hk) as Hno.
      unfold CACHE_PATTERNS.EXPENSE_ALL in Hno. now rewrite Hno.
    + intros u -> Hne. destruct u; [congruence | discriminate Ht].
Qed.

Lemma X5_invalidateExpense_witness :
  let w0 := Store.empty_at 0 in
  let w1 := snd (CacheService.set (CACHE_KEYS.EXPENSE 12) (JNum 3) (Some 300) w0) in
  let w := snd (CacheService.set "user:42:expenses:1:20" (JArr []) (Some 300) w1) in
  (exists w',
     CacheInvalidator.invalidateExpense 12 None w = (Ok tt, w')
     /\ Store.live w' "expense:12" = None
     /\ Store.live w' "user:42:expenses:1:20" = Store.live w "user:42:expenses:1:20")
  /\ (exists w',
        CacheInvalidator.invalidateExpense 12 (Some "42") w = (Ok tt, w')
        /\ Store.live w' "expense:12" = None
        /\ Store.live w' "user:42:expenses:1:20" = None).
Proof.
  intros w0 w1 w. split.
  - destruct (X5_invalidateExpense w 12 None) as (w' & E & Hnone & _); [reflexivity|].
    destruct (Hnone eq_refl) as [Hexp Huser].
    exists w'. split; [exact E|].
    split; [apply (Hexp "expense:12")
           | apply (Huser "42" "user:42:expenses:1:20"); reflexivity].
  - destruct (X5_invalidateExpense w 12 (Some "42")) as (w' & E & _ & Hsome);
      [reflexivity|].
    exists w'. split; [exact E|].
    split; [apply (Hsome "42" eq_refl ltac:(discriminate) "expense:12")
           | apply (Hsome "42" eq_refl ltac:(discriminate) "user:42:expenses:1:20")].
Defined.

(** X6: on a reachable store, [invalidateUserCategories (u)] removes the
    keys that match [user:{u}:categories*] and leaves every other key as
    it was; for a user id without pattern characters, every page of the
    user's expense list, the expense count and the user entry are among
    the keys it leaves. *)
Theorem X6_invalidateUserCategories (w : world) (userId : string) :
  online w = true ->
  exists w',
    CacheInvalidator.invalidateUserCategories userId w = (Ok tt, w')
    /\ (forall k, Store.live w' k
                  = if Glob.glob ("user:" +:+ userId +:+ ":categories*") k
                    then None else Store.live w k)
    /\ (Glob.plain userId = true ->
        (forall page limit,
            Store.live w' (CACHE_KEYS.USER_EXPENSES userId page limit)
            = Store.live w (CACHE_KEYS.USER_EXPENSES userId page limit))
        /\ Store.live w' (CACHE_KEYS.USER_EXPENSE_COUNT userId)
           = Store.live w (CACHE_KEYS.USER_EXPENSE_COUNT userId)
        /\ Store.live w' (CACHE_KEYS.USER userId) = Store.live w (CACHE_KEYS.USER userId)).
Proof.
  intros Hon.
  destruct (delPattern_online w (CACHE_PATTERNS.USER_CATEGORIES userId) Hon)
    as (n & w' & E & _ & _ & Hlive).
  exists w'. split.
  { unfold CacheInvalidator.invalidateUserCategories, bind. now rewrite E. }
  split; [exact Hlive|].
  intros Hplain.
  assert (Hkeep : forall rest,
            strip_prefix (chars ":categories") (chars rest) = None ->
            Store.live w' ("user:" +:+ userId +:+ rest)
            = Store.live w ("user:" +:+ userId +:+ rest)).
  { intros rest Hrest. rewrite Hlive, user_categories_pattern, glob_prefix.
    - rewrite !chars_app.
      rewrite (strip_prefix_app_l (chars "user:")), (strip_prefix_app_l (chars userId)).
      now rewrite Hrest.
    - rewrite !plain_app, Hplain. reflexivity. }
  split; [|split].
  - intros page limit. unfold CACHE_KEYS.USER_EXPENSES. apply Hkeep.
    rewrite chars_app. reflexivity.
  - apply (Hkeep ":expense_count"). reflexivity.
  - unfold CACHE_KEYS.USER. rewrite Hlive, user_categories_pattern, glob_prefix.
    + change ("user:" +:+ userId +:+ ":categories")
        with ("user:" +:+ (userId +:+ ":categories")).
      replace (chars ("user:" +:+ (userId +:+ ":categories")))
        with (chars ("user:" +:+ userId) ++ chars ":categories")
        by (rewrite !chars_app; now rewrite app_assoc).
      now rewrite strip_prefix_app_Some, strip_prefix_refl.
    + rewrite !plain_app, Hplain. reflexivity.
Qed.

Lemma X6_invalidateUserCategories_witness :
  let w0 := Store.empty_at 0 in
  let w1 := snd (CacheService.set (CACHE_KEYS.USER_CATEGORIES "42") (JArr []) (Some 300) w0) in
  let w := snd (CacheService.set (CACHE_KEYS.USER_EXPENSES "42" None None) (JArr [])
                  (Some 300) w1) in
  exists w',
    CacheInvalidator.invalidateUserCategories "42" w = (Ok tt, w')
    /\ Store.live w' (CACHE_KEYS.USER_CATEGORIES "42") = None
    /\ Store.live w' (CACHE_KEYS.USER_EXPENSES "42" None None)
       = Store.live w (CACHE_KEYS.USER_EXPENSES "42" None None).
Proof.
  intros w0 w1 w.
  destruct (X6_invalidateUserCategories w "42") as (w' & E & Hlive & Hplain);
    [reflexivity|].
  destruct (Hplain eq_refl) as (Hpages & _ & _).
  exists w'. split; [exact E|].
  split; [apply (Hlive (CACHE_KEYS.USER_CATEGORIES "42")) | apply Hpages].
Defined.

(** ** The keys of the AI routes *)

Lemma delete_each_keeps (patterns : list string) (w : world) (k : string) :
  online w = true ->
  (forall pattern, In pattern patterns -> Glob.glob pattern k = false) ->
  exists w',
    CacheInvalidator.delete_each patterns w = (Ok tt, w')
    /\ Store.live w' k = Store.live w k.
Proof.
  intros Hon Hno.
  destruct (delete_each_online patterns w Hon) as (w' & E & _ & _ & Hlive).
  exists w'. split; [exact E|]. rewrite Hlive.
  replace (existsb (fun pattern => Glob.glob pattern k) patterns) with false;
    [reflexivity|].
  symmetry. apply not_true_is_false. intros Hex.
  apply existsb_exists in Hex. destruct Hex as (pattern & Hin & Hg).
  rewrite (Hno pattern Hin) in Hg. discriminate.
Qed.

(** X7: no invalidation reaches the cached answers of the AI routes: on a
    reachable store, each of [invalidateUser], [invalidateCategory],
    [invalidateExpense], [invalidateUserExpenses] and
    [invalidateUserCategories], with any arguments, leaves the entries
    under [ai_analysis_{user}_{months}] and [ai_suggestions_{user}_{months}]
    as they were, so they live on until their own TTL runs out. *)
Theorem X7_ai_keys_outlive_invalidation (w : world) (user : string) (monthsBack : Z)
    (k : string) (userId : string) (categoryId expenseId : Z) (optUserId : option string) :
  online w = true ->
  k = AIRoutes.analysisKey user monthsBack \/ k = AIRoutes.suggestionsKey user monthsBack ->
  Forall (fun invalidate : Async world unit =>
            exists w', invalidate w = (Ok tt, w') /\ Store.live w' k = Store.live w k)
    [ CacheInvalidator.invalidateUser userId;
      CacheInvalidator.invalidateCategory categoryId optUserId;
      CacheInvalidator.invalidateExpense expenseId optUserId;
      CacheInvalidator.invalidateUserExpenses userId;
      CacheInvalidator.invalidateUserCategories userId ].
Proof.
  intros Hon Hk.
  assert (Ha : exists rest, k = String "a" rest).
  { destruct Hk as [-> | ->]; eexists; reflexivity. }
  destruct Ha as (rest & ->). clear Hk.
  assert (Huser : forall tail, Glob.glob ("user:" +:+ tail) (String "a" rest) = false).
  { intros tail. apply (glob_other_first "u" "a"); [reflexivity | discriminate]. }
  assert (Hcat : forall tail, Glob.glob ("category:" +:+ tail) (String "a" rest) = false).
  { intros tail. apply (glob_other_first "c" "a"); [reflexivity | discriminate]. }
  assert (Hexp : forall tail, Glob.glob ("expense:" +:+ tail) (String "a" rest) = false).
  { intros tail. apply (glob_other_first "e" "a"); [reflexivity | discriminate]. }
  assert (Hone : forall pattern,
            Glob.glob pattern (String "a" rest) = false ->
            exists w', (_ <<- CacheService.delPattern pattern ;; ret tt) w = (Ok tt, w')
                       /\ Store.live w' (String "a" rest) = Store.live w (String "a" rest)).
  { intros pattern Hno.
    destruct (delPattern_online w pattern Hon) as (n & w' & E & _ & _ & Hlive).
    exists w'. unfold bind. rewrite E. split; [reflexivity|].
    now rewrite Hlive, Hno. }
  repeat apply Forall_cons_2; [| | | | | constructor]; cbv beta.
  - apply delete_each_keeps; [exact Hon|].
    intros pattern [<- | [<- | [<- | []]]]; apply Huser.
  - unfold CacheInvalidator.invalidateCategory.
    destruct (truthy_string optUserId); apply delete_each_keeps; try exact Hon.
    + intros pattern [<- | [<- | []]]; [apply Hcat | apply Huser].
    + intros pattern [<- | []]. apply Hcat.
  - unfold CacheInvalidator.invalidateExpense.
    destruct (truthy_string optUserId); apply delete_each_keeps; try exact Hon.
    + intros pattern [<- | [<- | []]]; [apply Hexp | apply Huser].
    + intros pattern [<- | []]. apply Hexp.
  - apply Hone, Huser.
  - apply Hone, Huser.
Qed.

Lemma X7_ai_keys_outlive_invalidation_witness :
  let w0 := Store.empty_at 0 in
  let w := snd (CacheService.set (AIRoutes.analysisKey "42" 3) (JStr "report") (Some 3600) w0) in
  exists w',
    CacheInvalidator.invalidateUser "42" w = (Ok tt, w')
    /\ fst (CacheService.get (AIRoutes.analysisKey "42" 3) w') = Ok (JStr "report").
Proof.
  intros w0 w.
  pose proof (X7_ai_keys_outlive_invalidation w "42" 3 (AIRoutes.analysisKey "42" 3)
                "42" 1 1 None eq_refl (or_introl eq_refl)) as Hall.
  apply Forall_cons_1 in Hall. destruct Hall as [(w' & E & Hlive) _].
  exists w'. split; [exact E|].
  assert (Hon' : online w' = true).
  { destruct (invalidateUser_online w "42" eq_refl eq_refl) as (w2 & E2 & Hon2 & _).
    rewrite E in E2. injection E2 as <-. exact Hon2. }
  rewrite get_online by exact Hon'. rewrite Hlive. reflexivity.
Defined.

(** ** The [Cacheable] decorator *)

Lemma get_resolves {W : Type} `{Redis W} (key : string) (w : W) :
  exists cached w1, CacheService.get key w = (Ok cached, w1).
Proof.
  destruct (try_catch_resolves
              (value <<- redis_get key ;;
               if negb (truthy_string value) then ret JNull
               else CacheService.JSON_parse (default EmptyString value)) JNull w)
    as (cached & w1 & E).
  exists cached, w1. exact E.
Qed.

Lemma set_resolves {W : Type} `{Redis W} (key : string) (value : json) (ttl : option Z)
    (w : W) :
  exists stored w1, CacheService.set key value ttl w = (Ok stored, w1).
Proof.
  destruct (try_catch_resolves
              (_ <<- redis_setex key (default CACHE_TTL.MEDIUM ttl) (JSON.stringify value) ;;
               ret true) false w)
    as (stored & w1 & E).
  exists stored, w1. exact E.
Qed.

Lemma Cacheable_hit {W : Type} `{Redis W} {A : Type} (keyGenerator : A -> string)
    (ttl : option Z) (method : A -> Async W (option json)) (args : A)
    (w w1 : W) (cached : json) :
  CacheService.get (keyGenerator args) w = (Ok cached, w1) ->
  is_null cached = false ->
  Cacheable keyGenerator ttl method args w = (Ok (Some cached), w1).
Proof.
  intros E Hnn. unfold Cacheable, bind. rewrite E, Hnn. reflexivity.
Qed.

Lemma Cacheable_miss {W : Type} `{Redis W} {A : Type} (keyGenerator : A -> string)
    (ttl : option Z) (method : A -> Async W (option json)) (args : A)
    (w w1 : W) (cached : json) :
  CacheService.get (keyGenerator args) w = (Ok cached, w1) ->
  is_null cached = true ->
  fst (Cacheable keyGenerator ttl method args w) = fst (method args w1).
Proof.
  intros E Hnull. unfold Cacheable. unfold bind at 1. rewrite E, Hnull.
  change (negb true) with false. cbv iota beta. unfold bind at 1.
  destruct (method args w1) as [[[v|]|err] w2]; try reflexivity.
  destruct (is_null v); [reflexivity|].
  change (negb false) with true. cbv iota beta.
  destruct (set_resolves (keyGenerator args) v (Some (default CACHE_TTL.MEDIUM ttl)) w2)
    as (stored & w3 & Es).
  unfold bind. rewrite Es. reflexivity.
Qed.

(** X8: [Cacheable] memoizes a JSON value.  On a reachable store, with
    a [ttl] of more than 0 whole seconds (1800 when no ttl is given),
    when the key reads as a miss and the method resolves to a JSON value
    [v] ([JSON.wf v]: no [Date], no number that is not finite, no key
    twice in an object) other than null, the decorated method resolves to
    [v] and from then on, for [ttl] seconds, a call with the same key
    resolves to [v] without running the method and without touching the
    store's content; once more than [ttl] seconds have passed the call
    resolves or rejects as the method does. *)
Theorem X8_Cacheable_memoizes {A : Type} (keyGenerator : A -> string) (ttl : option Z)
    (method method' : A -> Async world (option json)) (args : A) (v : json)
    (w w1 : world) :
  online w = true ->
  fst (CacheService.get (keyGenerator args) w) = Ok JNull ->
  method args w = (Ok (Some v), w1) ->
  online w1 = true ->
  JSON.wf v -> is_null v = false ->
  0 < default CACHE_TTL.MEDIUM ttl ->
  exists w2,
    Cacheable keyGenerator ttl method args w = (Ok (Some v), w2)
    /\ (forall ms, ms <= default CACHE_TTL.MEDIUM ttl * 1000 ->
          Cacheable keyGenerator ttl method' args (Store.elapse ms w2)
          = (Ok (Some v), Store.elapse ms w2))
    /\ (forall ms, default CACHE_TTL.MEDIUM ttl * 1000 < ms ->
          fst (Cacheable keyGenerator ttl method' args (Store.elapse ms w2))
          = fst (method' args (Store.elapse ms w2))).
Proof.
  intros Hon Hmiss Hrun Hon1 Hwf Hnn Httl.
  rewrite get_online in Hmiss by exact Hon. simpl in Hmiss.
  set (seconds := default CACHE_TTL.MEDIUM ttl) in *.
  set (k := keyGenerator args) in *.
  set (e := {| payload := JSON.stringify v; expire_at := Some (clock w1 + seconds * 1000) |}).
  exists (Store.with_keyspace w1 (<[k := e]> (keyspace w1))).
  split; [|split].
  - unfold Cacheable, bind. fold k. rewrite get_online by exact Hon.
    injection Hmiss as ->. change (negb (is_null JNull)) with false. cbv iota beta.
    rewrite Hrun, Hnn. change (negb false) with true. cbv iota beta.
    fold seconds. rewrite set_online by assumption. reflexivity.
  - intros ms Hms. apply Cacheable_hit; [|exact Hnn].
    rewrite get_online by exact Hon1. fold k. rewrite live_elapse. simpl keyspace.
    rewrite lookup_insert_eq. unfold Store.expired. simpl.
    destruct (Z.ltb_spec (clock w1 + seconds * 1000) (clock w1 + Z.max 0 ms)); [lia|].
    change (payload <$> Some e) with (Some (JSON.stringify v)).
    now rewrite decode_stringify.
  - intros ms Hms. apply (Cacheable_miss _ _ _ _ _ _ JNull); [|reflexivity].
    rewrite get_online by exact Hon1. fold k. rewrite live_elapse. simpl keyspace.
    rewrite lookup_insert_eq. unfold Store.expired. simpl.
    destruct (Z.ltb_spec (clock w1 + seconds * 1000) (clock w1 + Z.max 0 ms)); [|lia].
    reflexivity.
Qed.

Lemma X8_Cacheable_memoizes_witness :
  let w := Store.empty_at 0 in
  let method := fun _ : Z => ret (W := world) (Some (JNum 7)) in
  let method' := fun _ : Z => throw (W := world) (A := option json) "the method ran" in
  let key := fun userId : Z => CACHE_KEYS.USER (Num.toString userId) in
  exists w2,
    Cacheable key None method 42 w = (Ok (Some (JNum 7)), w2)
    /\ Cacheable key None method' 42 (Store.elapse 1800000 w2)
       = (Ok (Some (JNum 7)), Store.elapse 1800000 w2)
    /\ fst (Cacheable key None method' 42 (Store.elapse 1800001 w2))
       = Throw "the method ran".
Proof.
  intros w method method' key.
  destruct (X8_Cacheable_memoizes key None method method' 42 (JNum 7) w w)
    as (w2 & E & Hhit & Hagain);
    [reflexivity | reflexivity | reflexivity | reflexivity | exact I | reflexivity
    | reflexivity |].
  exists w2. split; [exact E|].
  split; [apply Hhit; discriminate | apply (Hagain 1800001); reflexivity].
Defined.

(** X9: for any store client, whatever the store does, the decorated
    method never fails because of the cache: the cache lookup resolves;
    if it finds a value other than null the call resolves to that value
    and the method is not run; otherwise the call resolves or rejects
    exactly as the method does (run after the lookup), whether or not
    the result could be written to the cache. *)
Theorem X9_Cacheable_transparent {W : Type} `{Redis W} {A : Type}
    (keyGenerator : A -> string) (ttl : option Z)
    (method : A -> Async W (option json)) (args : A) (w : W) :
  exists cached w1,
    CacheService.get (keyGenerator args) w = (Ok cached, w1)
    /\ (is_null cached = false ->
        forall method' : A -> Async W (option json),
          Cacheable keyGenerator ttl method' args w = (Ok (Some cached), w1))
    /\ (is_null cached = true ->
        fst (Cacheable keyGenerator ttl method args w) = fst (method args w1)).
Proof.
  destruct (get_resolves (keyGenerator args) w) as (cached & w1 & E).
  exists cached, w1. split; [exact E|]. split.
  - intros Hnn method'. now apply Cacheable_hit.
  - intros Hnull. now apply (Cacheable_miss _ _ _ _ _ _ cached).
Qed.

Lemma X9_Cacheable_transparent_witness :
  let w := snd (CacheService.set "user:42" (JNum 7) None (Store.empty_at 0)) in
  Cacheable (fun _ : unit => "user:42") None
    (fun _ => throw (W := world) (A := option json) "the method ran") tt w
  = (Ok (Some (JNum 7)), w).
Proof.
  intros w.
  destruct (X9_Cacheable_transparent (fun _ : unit => "user:42") None
              (fun _ => ret (W := world) None) tt w) as (cached & w1 & E & Hhit & _).
  change (CacheService.get "user:42" w) with (Ok (A := json) (JNum 7), w) in E.
  injection E as <- <-. apply Hhit. reflexivity.
Defined.

(** X10: a result of null or undefined, and a rejection, are never
    cached: for any store client, when the lookup misses and the method
    resolves to null or undefined or rejects, the decorated call ends
    with the method's outcome in the state the method left, no command
    having been sent to the store after the lookup. *)
Theorem X10_Cacheable_skips_null {W : Type} `{Redis W} {A : Type}
    (keyGenerator : A -> string) (ttl : option Z)
    (method : A -> Async W (option json)) (args : A) (w w1 w2 : W)
    (r : outcome (option json)) :
  CacheService.get (keyGenerator args) w = (Ok JNull, w1) ->
  method args w1 = (r, w2) ->
  (forall v, r = Ok (Some v) -> v = JNull) ->
  Cacheable keyGenerator ttl method args w = (r, w2).
Proof.
  intros E Hrun Hr. unfold Cacheable. unfold bind at 1. rewrite E.
  change (negb (is_null JNull)) with false. cbv iota beta.
  unfold bind. rewrite Hrun.
  destruct r as [[v|]|err]; try reflexivity.
  rewrite (Hr v eq_refl). reflexivity.
Qed.

Lemma X10_Cacheable_skips_null_witness :
  let w := Store.empty_at 0 in
  let method := fun _ : Z => ret (W := world) (Some JNull) in
  Cacheable (fun userId => CACHE_KEYS.USER (Num.toString userId)) None method 42 w
  = (Ok (Some JNull), w).
Proof.
  intros w method.
  apply (X10_Cacheable_skips_null _ None method 42 w w w (Ok (Some JNull)));
    [reflexivity | reflexivity |].
  intros v [= <-]. reflexivity.
Defined.

(** ** Reading and resetting the rate limit *)

Lemma get_any (w : world) (k : string) :
  CacheService.get k w
  = (Ok (if online w then decode (payload <$> Store.live w k) else JNull), w).
Proof.
  destruct (online w) eqn:Hon; [now apply get_online|].
  unfold CacheService.get, try_catch, bind. simpl redis_get.
  unfold Store.GET, Store.command. now rewrite Hon.
Qed.

(** [getRateLimitInfo] on the store model, spelled out. *)
Lemma getRateLimitInfo_spec (w : world) (key : string) (limit windowMs : Z) :
  let ws := RateLimitService.windowStart (clock w) windowMs in
  let cached := if online w
                then decode (payload <$> Store.live w (RateLimitService.cacheKey key ws))
                else JNull in
  RateLimitService.getRateLimitInfo key limit windowMs w
  = (Ok (verdict limit (ws + windowMs) <$> RateLimitService.count_or_zero cached), w).
Proof.
  intros ws cached. unfold RateLimitService.getRateLimitInfo, try_catch, bind.
  simpl Date_now. fold ws. rewrite get_any. fold cached.
  destruct (RateLimitService.count_or_zero cached); reflexivity.
Qed.

Lemma decode_number (n : Z) : decode (Some (Num.toString n)) = JNum n.
Proof.
  replace (Num.toString n) with (JSON.stringify (JNum n));
    [apply (decode_stringify (JNum n) I) | apply text_chars].
Qed.

Lemma expire_keeps_payload (w : world) (k : string) (e : entry) (seconds : Z) :
  online w = true -> Store.live w k = Some e -> 0 < seconds ->
  let w' := snd (Store.EXPIRE k seconds w) in
  payload <$> Store.live w' k = Some (payload e) /\ online w' = true.
Proof.
  intros Hon Hlive Hs. unfold Store.EXPIRE. rewrite command_online by exact Hon.
  rewrite Hlive. destruct (Z.leb_spec seconds 0); [lia|]. simpl.
  split; [|exact Hon]. rewrite live_insert_eq. unfold Store.expired. simpl.
  destruct (Z.ltb_spec (clock w + seconds * 1000) (clock w)); [lia | reflexivity].
Qed.

(** After an [incr] that counted, the counter is in the store and holds
    the count. *)
Lemma incr_counted (w w' : world) (k : string) (seconds n : Z) :
  online w = true -> 0 < seconds ->
  CacheService.incr k (Some seconds) w = (Ok n, w') ->
  0 < n ->
  payload <$> Store.live w' k = Some (Num.toString n) /\ online w' = true.
Proof.
  intros Hon Hs E Hn. rewrite incr_online in E by exact Hon.
  unfold Store.INCR in E. rewrite command_online in E by exact Hon.
  destruct (Store.live w k) as [e|] eqn:Hlive.
  - pose proof (live_not_expired w k e Hlive) as Hfresh.
    destruct (Num.string2ll (payload e)) as [m|]; [|inversion E; lia].
    destruct (m <? 2 ^ 63 - 1); [|inversion E; lia].
    set (e1 := {| payload := Num.toString (m + 1); expire_at := expire_at e |}) in *.
    set (w1 := Store.with_keyspace w (<[k := e1]> (keyspace w))) in *.
    assert (Hlive1 : Store.live w1 k = Some e1).
    { unfold w1. rewrite live_insert_eq. unfold Store.expired in *. simpl.
      now rewrite Hfresh. }
    destruct (truthy_number (Some seconds) && (m + 1 =? 1)); inversion E; subst n w'.
    + apply (expire_keeps_payload w1 k e1 seconds); [exact Hon | exact Hlive1 | exact Hs].
    + rewrite Hlive1. split; [reflexivity | exact Hon].
  - set (e1 := {| payload := "1"; expire_at := None |}) in *.
    set (w1 := Store.with_keyspace w (<[k := e1]> (keyspace w))) in *.
    assert (Hlive1 : Store.live w1 k = Some e1).
    { unfold w1. now rewrite live_insert_eq. }
    destruct (truthy_number (Some seconds) && (1 =? 1)); inversion E; subst n w'.
    + apply (expire_keeps_payload w1 k e1 seconds); [exact Hon | exact Hlive1 | exact Hs].
    + rewrite Hlive1. split; [reflexivity | exact Hon].
Qed.

(** X11: [getRateLimitInfo] only reads: in every state of the store,
    reachable or not, it resolves and leaves the store as it was.  When
    the store is unreachable or holds no counter for the current window,
    it reports no hit: [totalHits = 0], [remaining = max (0, limit)],
    [allowed] exactly when [0 <= limit], and [resetTime] the end of the
    current window (the [now + windowMs] of its catch block is never
    reported, as the cache service absorbs the store's errors). *)
Theorem X11_getRateLimitInfo_reads_only (w : world) (key : string) (limit windowMs : Z) :
  let ws := RateLimitService.windowStart (clock w) windowMs in
  (exists info, RateLimitService.getRateLimitInfo key limit windowMs w = (Ok info, w))
  /\ (online w = false \/ Store.live w (RateLimitService.cacheKey key ws) = None ->
      RateLimitService.getRateLimitInfo key limit windowMs w
      = (Ok (Some {| allowed := 0 <=? limit;
                     remaining := Z.max 0 limit;
                     resetTime := ws + windowMs;
                     totalHits := 0 |}), w)).
Proof.
  intros ws. split.
  - eexists. apply getRateLimitInfo_spec.
  - intros Hnone. rewrite getRateLimitInfo_spec. fold ws.
    assert (Hcached : (if online w
                       then decode (payload <$> Store.live w (RateLimitService.cacheKey key ws))
                       else JNull) = JNull).
    { destruct (online w); [|reflexivity].
      destruct Hnone as [Hoff | ->]; [discriminate Hoff | reflexivity]. }
    rewrite Hcached. simpl. unfold verdict. now rewrite Z.sub_0_r.
Qed.

Lemma X11_getRateLimitInfo_reads_only_witness :
  let w := Store.unplug (Store.empty_at 1700000000000) in
  RateLimitService.getRateLimitInfo "42:10.0.0.1" 5 60000 w
  = (Ok (Some {| allowed := true; remaining := 5;
                 resetTime := 1700000040000; totalHits := 0 |}), w).
Proof.
  intros w.
  apply (proj2 (X11_getRateLimitInfo_reads_only w "42:10.0.0.1" 5 60000)).
  left. reflexivity.
Defined.

(** X12: on a reachable store, for a window of positive length, a
    [getRateLimitInfo] made right after a [checkRateLimit] that counted
    its hit reports the very record that call returned, for the same key,
    limit and window. *)
Theorem X12_info_after_check (w w' : world) (key : string) (limit windowMs : Z)
    (result : RateLimitResult) :
  online w = true -> 0 < windowMs ->
  RateLimitService.checkRateLimit key limit windowMs w = (Ok result, w') ->
  0 < totalHits result ->
  RateLimitService.getRateLimitInfo key limit windowMs w' = (Ok (Some result), w').
Proof.
  intros Hon Hw Hcheck Hhits.
  pose proof (ceil_div_spec windowMs 1000 ltac:(lia)) as Hceil.
  set (ws := RateLimitService.windowStart (clock w) windowMs) in *.
  set (ck := RateLimitService.cacheKey key ws) in *.
  destruct (incr_resolves (H := store_client) ck (Some (Num.ceil_div windowMs 1000)) w)
    as (n & w1 & E).
  pose proof (checkRateLimit_incr (H := store_client) key limit windowMs w w1 n E) as Hc.
  rewrite Hcheck in Hc. injection Hc as -> ->. simpl Date_now in *.
  rewrite (answer_counted limit windowMs (clock w) n) in * by lia.
  simpl in Hhits. fold ws.
  pose proof (incr_frame w ck (Some (Num.ceil_div windowMs 1000)) Hon) as Hframe.
  rewrite E in Hframe. simpl in Hframe. destruct Hframe as (Hclock & _ & _).
  destruct (incr_counted w w1 ck (Num.ceil_div windowMs 1000) n Hon ltac:(lia) E Hhits)
    as (Hpayload & Hon1).
  rewrite getRateLimitInfo_spec. rewrite Hclock, Hon1. fold ws ck.
  rewrite Hpayload, decode_number. reflexivity.
Qed.

Lemma X12_info_after_check_witness :
  let w := Store.empty_at 1700000000000 in
  let after := RateLimitService.checkRateLimit "42:10.0.0.1" 5 60000 w in
  RateLimitService.getRateLimitInfo "42:10.0.0.1" 5 60000 (snd after)
  = (Ok (Some {| allowed := true; remaining := 4;
                 resetTime := 1700000040000; totalHits := 1 |}), snd after).
Proof.
  intros w after.
  apply (X12_info_after_check w (snd after) "42:10.0.0.1" 5 60000);
    [reflexivity | reflexivity | reflexivity | reflexivity].
Defined.

(** X13: [getRateLimitInfo] describes the hits counted so far, not the
    next request: on a reachable store whose counter for the current
    window stands at [n >= 1], in a window that ends at a time value, it
    reports [totalHits = n] and [allowed = (n <= limit)], while the
    [checkRateLimit] made at that moment returns [totalHits = n + 1] and
    [allowed = (n + 1 <= limit)].  So with the counter at the limit the
    information says allowed, with nothing remaining, and the next
    request is refused. *)
Theorem X13_info_lags_check (w : world) (key : string) (limit windowMs n : Z)
    (exp : option Z) :
  online w = true -> 0 < windowMs ->
  let ws := RateLimitService.windowStart (clock w) windowMs in
  Date.valid (ws + windowMs) = true ->
  Store.live w (RateLimitService.cacheKey key ws)
  = Some {| payload := Num.toString n; expire_at := exp |} ->
  1 <= n < 2 ^ 63 - 1 ->
  RateLimitService.getRateLimitInfo key limit windowMs w
  = (Ok (Some (verdict limit (ws + windowMs) n)), w)
  /\ fst (RateLimitService.checkRateLimit key limit windowMs w)
     = Ok (verdict limit (ws + windowMs) (n + 1))
  /\ (n = limit ->
      fst (RateLimitService.getRateLimitInfo key limit windowMs w)
      = Ok (Some {| allowed := true; remaining := 0;
                    resetTime := ws + windowMs; totalHits := limit |})
      /\ fst (RateLimitService.checkRateLimit key limit windowMs w)
         = Ok {| allowed := false; remaining := 0;
                 resetTime := ws + windowMs; totalHits := limit + 1 |}).
Proof.
  intros Hon Hw ws Hreset Hlive Hn.
  assert (Hinfo : RateLimitService.getRateLimitInfo key limit windowMs w
                  = (Ok (Some (verdict limit (ws + windowMs) n)), w)).
  { rewrite getRateLimitInfo_spec. fold ws. rewrite Hon, Hlive. simpl payload.
    change (payload <$> Some {| payload := Num.toString n; expire_at := exp |})
      with (Some (Num.toString n)).
    now rewrite decode_number. }
  assert (Hcheck : fst (RateLimitService.checkRateLimit key limit windowMs w)
                   = Ok (verdict limit (ws + windowMs) (n + 1))).
  { rewrite (checkRateLimit_counting w key limit windowMs n exp Hon Hw Hlive Hn).
    simpl. rewrite answer_verdict; [reflexivity|]. right.
    now rewrite reset_is_time_value_positive. }
  split; [exact Hinfo|]. split; [exact Hcheck|].
  intros ->. rewrite Hinfo, Hcheck. unfold verdict. simpl.
  rewrite Z.leb_refl, Z.sub_diag.
  destruct (Z.leb_spec (limit + 1) limit); [lia|].
  replace (limit - (limit + 1)) with (-1) by lia. split; reflexivity.
Qed.

Lemma X13_info_lags_check_witness :
  let w0 := Store.empty_at 1700000000000 in
  let w := snd (check_run "42:10.0.0.1" 2 60000 [0; 10] w0) in
  fst (RateLimitService.getRateLimitInfo "42:10.0.0.1" 2 60000 w)
  = Ok (Some {| allowed := true; remaining := 0;
                resetTime := 1700000040000; totalHits := 2 |})
  /\ fst (RateLimitService.checkRateLimit "42:10.0.0.1" 2 60000 w)
     = Ok {| allowed := false; remaining := 0;
             resetTime := 1700000040000; totalHits := 3 |}.
Proof.
  intros w0 w.
  destruct (X13_info_lags_check w "42:10.0.0.1" 2 60000 2 (Some 1700000060000))
    as (_ & _ & Hlimit);
    [reflexivity | reflexivity | reflexivity | reflexivity | lia |].
  exact (Hlimit eq_refl).
Defined.

Lemma del_keys_count (ks : list string) (w : world) :
  0 <= fst (Store.del_keys ks w)
  /\ forall k rest, ks = k :: rest -> Store.is_live w k = true ->
                    0 < fst (Store.del_keys ks w).
Proof.
  revert w. induction ks as [|k0 ks IH]; intros w; simpl.
  - split; [lia | discriminate].
  - destruct (IH (Store.with_keyspace w (delete k0 (keyspace w)))) as [Hge _].
    destruct (Store.del_keys ks (Store.with_keyspace w (delete k0 (keyspace w))))
      as [n w'].
    simpl in *. split.
    + destruct (Store.is_live w k0); lia.
    + intros k rest [= <- <-] Hlive. rewrite Hlive. lia.
Qed.

(** [delPattern] on a reachable store counts at least one key exactly
    when a key in the store matches the pattern. *)
Lemma delPattern_count (w w' : world) (pattern : string) (n : Z) :
  online w = true ->
  CacheService.delPattern pattern w = (Ok n, w') ->
  (0 < n <-> exists k, Glob.glob pattern k = true /\ Store.is_live w k = true).
Proof.
  intros Hon. unfold CacheService.delPattern, try_catch, bind. simpl redis_keys.
  unfold Store.KEYS. rewrite command_online by exact Hon.
  remember (List.filter (fun k => Glob.glob pattern k && Store.is_live w k)
              (map fst (map_to_list (keyspace w)))) as ks eqn:Eks.
  assert (Hks : forall k, k ∈ ks <-> Glob.glob pattern k = true /\ Store.is_live w k = true)
    by (intros k; subst ks; apply keys_spec).
  clear Eks.
  destruct ks as [|k0 rest].
  - simpl. intros [= <- <-]. split; [lia|].
    intros (k & Hk). apply Hks in Hk. now apply not_elem_of_nil in Hk.
  - destruct (Z.eqb_spec (Z.of_nat (List.length (k0 :: rest))) 0) as [Hlen|_];
      [simpl in Hlen; lia|].
    simpl redis_del. unfold Store.DEL. rewrite command_online by exact Hon.
    assert (Hk0 : Glob.glob pattern k0 = true /\ Store.is_live w k0 = true).
    { apply Hks. left. }
    destruct (del_keys_count (k0 :: rest) w) as [_ Hpos].
    specialize (Hpos k0 rest eq_refl (proj2 Hk0)).
    destruct (Store.del_keys (k0 :: rest) w) as [m w1]. simpl in Hpos.
    intros [= <- <-]. split; [|intros _; exact Hpos].
    intros _. exists k0. exact Hk0.
Qed.

Lemma reset_pattern (key : string) :
  "rate_limit:" +:+ key +:+ ":*" = ("rate_limit:" +:+ key +:+ ":") +:+ "*".
Proof.
  apply chars_inj. rewrite !chars_app.
  change (chars ":*") with (chars ":" ++ chars "*"). now rewrite !app_assoc.
Qed.

Lemma reset_prefix_plain (key : string) :
  Glob.plain key = true -> Glob.plain ("rate_limit:" +:+ key +:+ ":") = true.
Proof. intros Hplain. now rewrite !plain_app, Hplain. Qed.

Lemma cacheKey_prefix (key : string) (ws : Z) :
  RateLimitService.cacheKey key ws
  = ("rate_limit:" +:+ key +:+ ":") +:+ Num.toString ws.
Proof.
  unfold RateLimitService.cacheKey. apply chars_inj. rewrite !chars_app.
  now rewrite !app_assoc.
Qed.

Lemma resetRateLimit_online (w : world) (key : string) :
  online w = true ->
  exists n w',
    CacheService.delPattern ("rate_limit:" +:+ key +:+ ":*") w = (Ok n, w')
    /\ RateLimitService.resetRateLimit key w = (Ok (0 <? n), w')
    /\ clock w' = clock w /\ online w' = true
    /\ forall k, Store.live w' k
                 = if Glob.glob ("rate_limit:" +:+ key +:+ ":*") k
                   then None else Store.live w k.
Proof.
  intros Hon.
  destruct (delPattern_online w ("rate_limit:" +:+ key +:+ ":*") Hon)
    as (n & w' & E & Hclock & Hon' & Hlive).
  exists n, w'. split; [exact E|]. split; [|auto].
  unfold RateLimitService.resetRateLimit, try_catch, bind. now rewrite E.
Qed.

(** X14: [resetRateLimit (key)].  With the store unreachable it resolves
    to false and changes nothing.  On a reachable store it removes the
    keys that match [rate_limit:{key}:*] and leaves every other key as
    it was, and it resolves to true exactly when some key in the store
    matched; for a key without pattern characters the keys removed are
    exactly those that start with [rate_limit:{key}:], so the counters
    of every window of [key], and of every subject whose key starts with
    [{key}:], are removed. *)
Theorem X14_resetRateLimit (w : world) (key : string) :
  (online w = false -> RateLimitService.resetRateLimit key w = (Ok false, w))
  /\ (online w = true ->
      exists removed w',
        RateLimitService.resetRateLimit key w = (Ok removed, w')
        /\ (removed = true
            <-> exists k, Glob.glob ("rate_limit:" +:+ key +:+ ":*") k = true
                          /\ Store.is_live w k = true)
        /\ (forall k, Store.live w' k
                      = if Glob.glob ("rate_limit:" +:+ key +:+ ":*") k
                        then None else Store.live w k)
        /\ (Glob.plain key = true ->
            (forall k, Store.live w' k
                       = if has_prefix ("rate_limit:" +:+ key +:+ ":") k
                         then None else Store.live w k)
            /\ (forall ws, Store.live w' (RateLimitService.cacheKey key ws) = None)
            /\ (forall more ws,
                  Store.live w' (RateLimitService.cacheKey (key +:+ ":" +:+ more) ws)
                  = None))).
Proof.
  split.
  - intros Hoff. unfold RateLimitService.resetRateLimit, CacheService.delPattern,
      try_catch, bind. simpl redis_keys. unfold Store.KEYS, Store.command.
    now rewrite Hoff.
  - intros Hon.
    destruct (resetRateLimit_online w key Hon) as (n & w' & E & Er & _ & _ & Hlive).
    exists (0 <? n), w'. split; [exact Er|]. split; [|split; [exact Hlive|]].
    + rewrite Z.ltb_lt. now apply (delPattern_count w w').
    + intros Hplain.
      assert (Hpre : forall k, Store.live w' k
                       = if has_prefix ("rate_limit:" +:+ key +:+ ":") k
                         then None else Store.live w k).
      { intros k. rewrite Hlive, reset_pattern.
        now rewrite has_prefix_glob by (now apply reset_prefix_plain). }
      split; [exact Hpre|]. split.
      * intros ws. rewrite Hpre, cacheKey_prefix. now rewrite has_prefix_extend.
      * intros more ws. rewrite Hpre.
        replace (RateLimitService.cacheKey (key +:+ ":" +:+ more) ws)
          with (("rate_limit:" +:+ key +:+ ":") +:+ (more +:+ ":" +:+ Num.toString ws)).
        -- now rewrite has_prefix_extend.
        -- unfold RateLimitService.cacheKey. apply chars_inj. rewrite !chars_app.
           now rewrite !app_assoc.
Qed.

Lemma X14_resetRateLimit_witness :
  let w0 := Store.empty_at 1700000000000 in
  let w := snd (check_run "42:10.0.0.1" 5 60000 [0] w0) in
  exists w',
    RateLimitService.resetRateLimit "42" w = (Ok true, w')
    /\ Store.live w' (RateLimitService.cacheKey "42:10.0.0.1" 1699999980000) = None
    /\ Store.is_live w (RateLimitService.cacheKey "42:10.0.0.1" 1699999980000) = true.
Proof.
  intros w0 w.
  destruct (proj2 (X14_resetRateLimit w "42") eq_refl)
    as (removed & w' & E & Hremoved & _ & Hplain).
  destruct (Hplain eq_refl) as (_ & _ & Hmore).
  assert (Htrue : removed = true).
  { apply Hremoved. exists (RateLimitService.cacheKey "42:10.0.0.1" 1699999980000).
    split; reflexivity. }
  pose proof (Hmore "10.0.0.1" 1699999980000) as Hgone.
  change ("42" +:+ ":" +:+ "10.0.0.1") with "42:10.0.0.1" in Hgone.
  subst removed. exists w'. split; [exact E|].
  split; [exact Hgone | reflexivity].
Defined.

(** X15: a reset gives a fresh start: on a reachable store, for a key
    without pattern characters and a window of positive length, the
    [checkRateLimit] that follows [resetRateLimit (key)] is hit number 1
    of its window, whatever the counter stood at before; the limit
    allows one request, or else the window ends at a time value. *)
Theorem X15_reset_then_check (w : world) (key : string) (limit windowMs : Z) :
  online w = true -> 0 < windowMs -> Glob.plain key = true ->
  1 <= limit
  \/ Date.valid (RateLimitService.windowStart (clock w) windowMs + windowMs) = true ->
  exists removed w',
    RateLimitService.resetRateLimit key w = (Ok removed, w')
    /\ fst (RateLimitService.checkRateLimit key limit windowMs w')
       = Ok {| allowed := 1 <=? limit;
               remaining := Z.max 0 (limit - 1);
               resetTime := RateLimitService.windowStart (clock w) windowMs + windowMs;
               totalHits := 1 |}.
Proof.
  intros Hon Hw Hplain Hcase.
  destruct (resetRateLimit_online w key Hon) as (n & w' & _ & Er & Hclock & Hon' & Hlive).
  exists (0 <? n), w'. split; [exact Er|].
  rewrite checkRateLimit_fresh; [ | exact Hon' | exact Hw | ].
  - rewrite Hclock. simpl. rewrite answer_verdict; [reflexivity|].
    destruct Hcase as [Hle | Hvalid]; [now left | right].
    now rewrite reset_is_time_value_positive.
  - rewrite Hlive, reset_pattern.
    rewrite has_prefix_glob by (now apply reset_prefix_plain).
    now rewrite cacheKey_prefix, has_prefix_extend.
Qed.

Lemma X15_reset_then_check_witness :
  let w0 := Store.empty_at 1700000000000 in
  let w := snd (check_run "42" 2 60000 [0; 10; 10] w0) in
  fst (RateLimitService.checkRateLimit "42" 2 60000 w)
  = Ok {| allowed := false; remaining := 0; resetTime := 1700000040000; totalHits := 4 |}
  /\ exists removed w',
       RateLimitService.resetRateLimit "42" w = (Ok removed, w')
       /\ fst (RateLimitService.checkRateLimit "42" 2 60000 w')
          = Ok {| allowed := true; remaining := 1;
                  resetTime := 1700000040000; totalHits := 1 |}.
Proof.
  intros w0 w. split; [reflexivity|].
  apply (X15_reset_then_check w "42" 2 60000);
    [reflexivity | reflexivity | reflexivity | left; lia].
Defined.

(** ** The rate-limit middleware *)

(** Whether the middleware lets a request through is what [checkRateLimit]
    says of it, and the store is left as that call leaves it. *)
Lemma middleware_step {W : Type} `{Redis W} (config : Middleware.limitConfig)
    (keyGenerator : option (Middleware.Context -> string))
    (context : Middleware.Context) (w w' : W) (r : outcome RateLimitResult) :
  RateLimitService.checkRateLimit
    match keyGenerator with
    | Some generate => generate context
    | None => Middleware.defaultKey context
    end
    (Middleware.requests config) (Middleware.window config * 1000) w = (r, w') ->
  passes (fst (Middleware.createRateLimitMiddleware config keyGenerator context w))
  = granted r
  /\ snd (Middleware.createRateLimitMiddleware config keyGenerator context w) = w'.
Proof.
  intros E. unfold Middleware.createRateLimitMiddleware, bind. rewrite E.
  destruct r as [result|err]; [|split; reflexivity].
  simpl granted. destruct (allowed result); simpl; [split; reflexivity|].
  unfold RateLimitService.warn_rate_limit_exceeded.
  destruct (RateLimitService.reset_is_time_value _ _); [|split; reflexivity].
  simpl.
  destruct (Middleware.set (Middleware.with_headers config result context));
    split; reflexivity.
Qed.

(** [checkRateLimit] resolves to the answer for the count its increment
    hands back. *)
Lemma checkRateLimit_answers {W : Type} `{Redis W} (key : string) (limit windowMs : Z)
    (w : W) :
  exists n w',
    RateLimitService.checkRateLimit key limit windowMs w
    = (Ok (answer limit windowMs (Date_now w) n), w').
Proof.
  destruct (incr_resolves
              (RateLimitService.cacheKey key
                 (RateLimitService.windowStart (Date_now w) windowMs))
              (Some (Num.ceil_div windowMs 1000)) w) as (n & w' & E).
  exists n, w'. now apply checkRateLimit_incr.
Qed.

(** A refusal comes with a reset time that is a time value: the end of
    the window of the first reading of the clock. *)
Lemma checkRateLimit_refuses {W : Type} `{Redis W} (key : string) (limit windowMs : Z)
    (w w' : W) (result : RateLimitResult) :
  RateLimitService.checkRateLimit key limit windowMs w = (Ok result, w') ->
  allowed result = false ->
  resetTime result = RateLimitService.windowStart (Date_now w) windowMs + windowMs
  /\ RateLimitService.reset_is_time_value windowMs (resetTime result) = true.
Proof.
  intros Hcheck Hno.
  destruct (checkRateLimit_answers key limit windowMs w) as (n & w1 & Hc).
  rewrite Hcheck in Hc. injection Hc as -> _.
  destruct (answer_refused _ _ _ _ Hno) as (-> & _ & Hvalid).
  split; [reflexivity | exact Hvalid].
Qed.

(** X16: what one request gets from the middleware, for any store
    client.  For a context with response headers the middleware writes
    the four headers [X-RateLimit-Limit] (the limit),
    [X-RateLimit-Remaining], [X-RateLimit-Reset] (the reset time in
    seconds) and [X-RateLimit-Used] from the result of [checkRateLimit],
    keeps every other header, and changes nothing else of the context
    but the status.  An allowed request goes on ([undefined], status
    untouched); a refused one gets status 429 and the body
    [success: false], [message: Too many requests],
    [error: Rate limit exceeded], with a [retryAfter] that is the least
    whole number of seconds reaching the reset time from the second
    reading of the clock, the one made after the store has answered.  So
    [retryAfter] is at least 1 when that reading is before the reset
    time, at most the window's seconds when it is not before the start of
    the window, and 0 or negative when the store has answered only after
    the window ended. *)
Theorem X16_middleware_reply {W : Type} `{Redis W} (w w' : W)
    (config : Middleware.limitConfig)
    (keyGenerator : option (Middleware.Context -> string))
    (context : Middleware.Context) (h : gmap string string) (st : option Z)
    (result : RateLimitResult) :
  Middleware.set context = Some {| Middleware.headers := Some h; Middleware.status := st |} ->
  RateLimitService.checkRateLimit
    match keyGenerator with
    | Some generate => generate context
    | None => Middleware.defaultKey context
    end
    (Middleware.requests config) (Middleware.window config * 1000) w = (Ok result, w') ->
  exists h' reply,
    Middleware.createRateLimitMiddleware config keyGenerator context w
    = (Ok ({| Middleware.user_id := Middleware.user_id context;
              Middleware.x_forwarded_for := Middleware.x_forwarded_for context;
              Middleware.x_real_ip := Middleware.x_real_ip context;
              Middleware.set := Some
                {| Middleware.headers := Some h';
                   Middleware.status := if allowed result then st else Some 429 |} |},
           reply), w')
    /\ h' !! "X-RateLimit-Limit" = Some (Num.toString (Middleware.requests config))
    /\ h' !! "X-RateLimit-Remaining" = Some (Num.toString (remaining result))
    /\ h' !! "X-RateLimit-Reset" = Some (Num.toString (Num.ceil_div (resetTime result) 1000))
    /\ h' !! "X-RateLimit-Used" = Some (Num.toString (totalHits result))
    /\ (forall name,
          name <> "X-RateLimit-Limit" -> name <> "X-RateLimit-Remaining" ->
          name <> "X-RateLimit-Reset" -> name <> "X-RateLimit-Used" ->
          h' !! name = h !! name)
    /\ (allowed result = true -> reply = None)
    /\ (allowed result = false ->
        exists seconds,
          reply = Some {| Middleware.success := false;
                          Middleware.message := "Too many requests";
                          Middleware.error := "Rate limit exceeded";
                          Middleware.retryAfter := seconds |}
          /\ Date_now w' + (seconds - 1) * 1000 < resetTime result
             <= Date_now w' + seconds * 1000
          /\ (Date_now w' < resetTime result -> 1 <= seconds)
          /\ (resetTime result - Middleware.window config * 1000 <= Date_now w' ->
              seconds <= Middleware.window config)
          /\ (resetTime result <= Date_now w' -> seconds <= 0)).
Proof.
  intros Hset Hcheck.
  pose proof (ceil_div_spec (resetTime result - Date_now w') 1000 ltac:(lia)) as Hceil.
  set (seconds := Num.ceil_div (resetTime result - Date_now w') 1000) in *.
  exists (<["X-RateLimit-Used" := Num.toString (totalHits result)]>
            (<["X-RateLimit-Reset" := Num.toString (Num.ceil_div (resetTime result) 1000)]>
               (<["X-RateLimit-Remaining" := Num.toString (remaining result)]>
                  (<["X-RateLimit-Limit" := Num.toString (Middleware.requests config)]> h)))),
    (if allowed result then None
     else Some {| Middleware.success := false;
                  Middleware.message := "Too many requests";
                  Middleware.error := "Rate limit exceeded";
                  Middleware.retryAfter := seconds |}).
  split; [|split; [|split; [|split; [|split; [|split; [|split]]]]]].
  - unfold Middleware.createRateLimitMiddleware, bind. rewrite Hcheck.
    destruct (allowed result) eqn:Hallowed; simpl.
    + unfold Middleware.with_headers. rewrite Hset. reflexivity.
    + destruct (checkRateLimit_refuses _ _ _ _ _ _ Hcheck Hallowed) as [_ Hvalid].
      unfold RateLimitService.warn_rate_limit_exceeded. rewrite Hvalid. simpl.
      unfold Middleware.with_headers. rewrite Hset. reflexivity.
  - rewrite !lookup_insert_ne by discriminate. apply lookup_insert_eq.
  - rewrite !lookup_insert_ne by discriminate. apply lookup_insert_eq.
  - rewrite !lookup_insert_ne by discriminate. apply lookup_insert_eq.
  - apply lookup_insert_eq.
  - intros name H1 H2 H3 H4. now rewrite !lookup_insert_ne by congruence.
  - intros ->. reflexivity.
  - intros ->. exists seconds. split; [reflexivity|].
    split; [lia|]. split; [lia|]. split; lia.
Qed.

Lemma X16_middleware_reply_witness :
  let w0 := Store.empty_at 1700000000000 in
  let config := {| Middleware.requests := 1; Middleware.window := 60 |} in
  let context :=
    {| Middleware.user_id := Some "42";
       Middleware.x_forwarded_for := Some "10.0.0.1";
       Middleware.x_real_ip := None;
       Middleware.set := Some {| Middleware.headers := Some ∅;
                                 Middleware.status := None |} |} in
  let w := snd (Middleware.createRateLimitMiddleware config None context w0) in
  exists h' reply,
    fst (Middleware.createRateLimitMiddleware config None context w)
    = Ok ({| Middleware.user_id := Some "42";
             Middleware.x_forwarded_for := Some "10.0.0.1";
             Middleware.x_real_ip := None;
             Middleware.set := Some {| Middleware.headers := Some h';
                                       Middleware.status := Some 429 |} |}, reply)
    /\ h' !! "X-RateLimit-Used" = Some "2"
    /\ exists seconds,
         reply = Some {| Middleware.success := false;
                         Middleware.message := "Too many requests";
                         Middleware.error := "Rate limit exceeded";
                         Middleware.retryAfter := seconds |}
         /\ 1 <= seconds <= 60.
Proof.
  intros w0 config context w.
  destruct (X16_middleware_reply w
              (snd (RateLimitService.checkRateLimit "42:10.0.0.1" 1 60000 w))
              config None context ∅ None
              {| allowed := false; remaining := 0;
                 resetTime := 1700000040000; totalHits := 2 |})
    as (h' & reply & E & _ & _ & _ & Hused & _ & _ & Hrefused);
    [reflexivity | reflexivity |].
  destruct (Hrefused eq_refl) as (seconds & Hreply & _ & Hlow & Hhigh & _).
  exists h', reply. rewrite E. split; [reflexivity|]. split; [exact Hused|].
  exists seconds. split; [exact Hreply|].
  split; [apply Hlow; reflexivity | apply Hhigh; discriminate].
Defined.

(** Behind a connection that takes five seconds for a command, a request
    refused one second before its window ends is told to retry after a
    negative number of seconds. *)
Example retryAfter_behind_slow_connection :
  let config := {| Middleware.requests := 0; Middleware.window := 60 |} in
  let context :=
    {| Middleware.user_id := Some "42";
       Middleware.x_forwarded_for := Some "10.0.0.1";
       Middleware.x_real_ip := None;
       Middleware.set := Some {| Middleware.headers := None;
                                 Middleware.status := None |} |} in
  snd <$> (match fst (Middleware.createRateLimitMiddleware (H := slow_client 5000)
                        config None context (Store.empty_at 59000)) with
           | Ok reply => Some reply
           | Throw _ => None
           end)
  = Some (Some {| Middleware.success := false;
                  Middleware.message := "Too many requests";
                  Middleware.error := "Rate limit exceeded";
                  Middleware.retryAfter := -9 |}).
Proof. reflexivity. Qed.

Lemma middleware_run_check (config : Middleware.limitConfig)
    (keyGenerator : option (Middleware.Context -> string))
    (context : Middleware.Context) (delays : list Z) (w : world) :
  let key := match keyGenerator with
             | Some generate => generate context
             | None => Middleware.defaultKey context
             end in
  let checks := check_run key (Middleware.requests config)
                  (Middleware.window config * 1000) delays w in
  map passes (fst (middleware_run config keyGenerator context delays w))
  = map granted (fst checks)
  /\ snd (middleware_run config keyGenerator context delays w) = snd checks.
Proof.
  revert w. induction delays as [|d delays IH]; intros w; [split; reflexivity|].
  simpl.
  destruct (RateLimitService.checkRateLimit
              match keyGenerator with
              | Some generate => generate context
              | None => Middleware.defaultKey context
              end
              (Middleware.requests config) (Middleware.window config * 1000)
              (Store.elapse d w)) as [r w1] eqn:E.
  destruct (middleware_step config keyGenerator context (Store.elapse d w) w1 r E)
    as [Hpass Hstate].
  destruct (Middleware.createRateLimitMiddleware config keyGenerator context
              (Store.elapse d w)) as [r' w1'].
  simpl in Hpass, Hstate. subst w1'.
  specialize (IH w1). simpl in IH. destruct IH as [IHp IHs].
  destruct (middleware_run config keyGenerator context delays w1) as [rs w2].
  destruct (check_run _ _ _ delays w1) as [cs w2'].
  simpl in *. split; [now rewrite Hpass, IHp | exact IHs].
Qed.

Lemma verdicts_granted (limit reset from : Z) (count : nat) :
  map granted (verdicts limit reset from count)
  = map (fun i => from + Z.of_nat i <=? limit) (seq 0 count).
Proof.
  revert from. induction count as [|count IH]; intros from; [reflexivity|].
  simpl verdicts. simpl map at 1. rewrite IH.
  rewrite <- cons_seq, <- seq_shift, map_cons, map_map. f_equal.
  - unfold verdict. simpl. f_equal. lia.
  - apply map_ext. intros i. f_equal. lia.
Qed.

(** X17: a limit of [requests] lets exactly that many requests of a
    subject through per window.  On a reachable store that holds no
    counter for the subject's current window, in a window that ends at a
    time value, of the requests the middleware sees before the window
    ends, the first [requests] go on and every later one is refused:
    request number [i] passes exactly when [i <= requests]. *)
Theorem X17_middleware_threshold (w : world) (config : Middleware.limitConfig)
    (keyGenerator : option (Middleware.Context -> string))
    (context : Middleware.Context) (delays : list Z) (ws : Z) :
  online w = true -> 0 < Middleware.window config ->
  (Middleware.window config * 1000 | ws) ->
  ws <= clock w ->
  clock w + total_delay delays < ws + Middleware.window config * 1000 ->
  Date.valid (ws + Middleware.window config * 1000) = true ->
  Store.live w
    (RateLimitService.cacheKey
       match keyGenerator with
       | Some generate => generate context
       | None => Middleware.defaultKey context
       end ws) = None ->
  Z.of_nat (List.length delays) < 2 ^ 62 ->
  map passes (fst (middleware_run config keyGenerator context delays w))
  = map (fun i => Z.of_nat i <=? Middleware.requests config)
      (seq 1 (List.length delays)).
Proof.
  intros Hon Hwin Hws Hlo Hhi Hreset Hfresh Hmax.
  destruct (middleware_run_check config keyGenerator context delays w) as [-> _].
  rewrite (check_run_fresh _ (Middleware.requests config)
             (Middleware.window config * 1000) ws ltac:(lia) Hws Hreset delays w
             Hon Hlo Hhi Hfresh Hmax).
  rewrite verdicts_granted, <- seq_shift, map_map.
  apply map_ext. intros i. f_equal. lia.
Qed.

Lemma X17_middleware_threshold_witness :
  let w := Store.empty_at 1700000000000 in
  let config := {| Middleware.requests := 2; Middleware.window := 60 |} in
  let context :=
    {| Middleware.user_id := None;
       Middleware.x_forwarded_for := None;
       Middleware.x_real_ip := Some "10.0.0.1";
       Middleware.set := Some {| Middleware.headers := None;
                                 Middleware.status := None |} |} in
  map passes (fst (middleware_run config None context [0; 5000; 5000; 5000] w))
  = [true; true; false; false].
Proof.
  intros w config context.
  apply (X17_middleware_threshold w config None context [0; 5000; 5000; 5000]
           1699999980000);
    [reflexivity | reflexivity | exists 28333333; reflexivity | discriminate
    | reflexivity | reflexivity | reflexivity | reflexivity].
Defined.

(** X18: the middleware fails open too: for any store client, when the
    store is unreachable and the limit is not negative, the request goes
    on; the headers, when the context has some, then tell a use of 0 and
    the whole limit remaining. *)
Theorem X18_middleware_fail_open {W : Type} `{Redis W}
    (config : Middleware.limitConfig)
    (keyGenerator : option (Middleware.Context -> string))
    (context : Middleware.Context) (w : W) :
  store_down w -> 0 <= Middleware.requests config ->
  exists result w',
    Middleware.createRateLimitMiddleware config keyGenerator context w
    = (Ok (Middleware.with_headers config result context, None), w')
    /\ totalHits result = 0
    /\ remaining result = Middleware.requests config.
Proof.
  intros Hdown Hlimit.
  destruct Hdown as (_ & _ & _ & _ & _ & _ & Hincr & _).
  set (key := match keyGenerator with
              | Some generate => generate context
              | None => Middleware.defaultKey context
              end).
  set (windowMs := Middleware.window config * 1000).
  destruct (incr_down
              (RateLimitService.cacheKey key
                 (RateLimitService.windowStart (Date_now w) windowMs))
              (Some (Num.ceil_div windowMs 1000)) w (Hincr _)) as (w' & E).
  pose proof (checkRateLimit_incr key (Middleware.requests config) windowMs w w' 0 E)
    as Hcheck.
  rewrite answer_verdict in Hcheck by (left; exact Hlimit). unfold verdict in Hcheck.
  eexists. exists w'. split; [|split].
  - unfold Middleware.createRateLimitMiddleware, bind. fold key windowMs.
    rewrite Hcheck. simpl allowed.
    destruct (Z.leb_spec 0 (Middleware.requests config)); [reflexivity | lia].
  - reflexivity.
  - simpl. lia.
Qed.

Lemma X18_middleware_fail_open_witness :
  let w := Store.unplug (Store.empty_at 1700000000000) in
  let config := {| Middleware.requests := 5; Middleware.window := 60 |} in
  let context :=
    {| Middleware.user_id := Some "42";
       Middleware.x_forwarded_for := None;
       Middleware.x_real_ip := None;
       Middleware.set := None |} in
  passes (fst (Middleware.createRateLimitMiddleware config None context w)) = true.
Proof.
  intros w config context.
  destruct (X18_middleware_fail_open config None context w) as (result & w' & E & _);
    [apply offline_store_down; reflexivity | discriminate |].
  rewrite E. reflexivity.
Defined.

Lemma split_at_first_colon (a b x y : list ascii) :
  Forall (fun c => c <> ":"%char) a -> Forall (fun c => c <> ":"%char) b ->
  a ++ ":"%char :: x = b ++ ":"%char :: y -> a = b /\ x = y.
Proof.
  revert b. induction a as [|c a IH]; intros b Ha Hb E.
  - destruct b as [|d b]; simpl in E.
    + now inversion E.
    + inversion E; subst. inversion Hb; subst. congruence.
  - destruct b as [|d b]; simpl in E.
    + inversion E; subst. inversion Ha; subst. congruence.
    + inversion E; subst. inversion Ha; subst. inversion Hb; subst.
      destruct (IH b) as [-> ->]; auto.
Qed.

(** X19: the default rate-limit key [{user}:{ip}], where [user] is the
    user's id or [anonymous] (also for an empty id) and [ip] is the
    [x-forwarded-for] header, else the [x-real-ip] header, else
    [unknown].  When no user id contains a colon, two requests get the
    same key, and so share a counter, exactly when they agree on both;
    the address may contain colons. *)
Theorem X19_defaultKey_injective (c1 c2 : Middleware.Context) :
  let user c := Middleware.or_else (Middleware.user_id c) "anonymous" in
  let ip c :=
    Middleware.or_else (Middleware.x_forwarded_for c)
      (Middleware.or_else (Middleware.x_real_ip c) "unknown") in
  Forall (fun c => c <> ":"%char) (chars (user c1)) ->
  Forall (fun c => c <> ":"%char) (chars (user c2)) ->
  (Middleware.defaultKey c1 = Middleware.defaultKey c2
   <-> user c1 = user c2 /\ ip c1 = ip c2).
Proof.
  intros user ip H1 H2. unfold Middleware.defaultKey. fold (user c1) (user c2) (ip c1) (ip c2).
  split.
  - intros E. apply (f_equal chars) in E. rewrite !chars_app in E.
    apply split_at_first_colon in E; [|exact H1 | exact H2].
    destruct E as [Eu Ei]. split; now apply chars_inj.
  - intros [-> ->]. reflexivity.
Qed.

Lemma X19_defaultKey_injective_witness :
  let c1 := {| Middleware.user_id := Some "42";
               Middleware.x_forwarded_for := Some "::1";
               Middleware.x_real_ip := Some "10.0.0.1";
               Middleware.set := None |} in
  let c2 := {| Middleware.user_id := Some "42";
               Middleware.x_forwarded_for := None;
               Middleware.x_real_ip := Some "::1";
               Middleware.set := None |} in
  Middleware.defaultKey c1 = Middleware.defaultKey c2.
Proof.
  intros c1 c2.
  apply (proj2 (X19_defaultKey_injective c1 c2
                  ltac:(repeat constructor; discriminate)
                  ltac:(repeat constructor; discriminate))).
  split; reflexivity.
Defined.

(** Without the condition on user ids, different requests can share a
    key. *)
Example defaultKey_collision :
  Middleware.defaultKey
    {| Middleware.user_id := Some "a:b"; Middleware.x_forwarded_for := Some "c";
       Middleware.x_real_ip := None; Middleware.set := None |}
  = Middleware.defaultKey
      {| Middleware.user_id := Some "a"; Middleware.x_forwarded_for := Some "b:c";
         Middleware.x_real_ip := None; Middleware.set := None |}.
Proof. reflexivity. Qed.

(** ** The plain limiter *)

Lemma rateLimit_fresh (w : world) (ip : string) (limit window : option Z) :
  online w = true -> 0 < default 60 window ->
  Store.live w ("rate:" +:+ ip) = None ->
  PlainLimiter.rateLimit ip limit window w
  = (plain_verdict (default 60 limit) 1,
     Store.with_keyspace w
       (<["rate:" +:+ ip := {| payload := "1";
                               expire_at := Some (clock w + default 60 window * 1000) |}]>
          (keyspace w))).
Proof.
  intros Hon Hwin Hfresh. unfold PlainLimiter.rateLimit, bind. simpl redis_incr.
  unfold Store.INCR. rewrite command_online by exact Hon. rewrite Hfresh.
  change (1 =? 1) with true. cbv iota beta. simpl redis_expire.
  unfold Store.EXPIRE. rewrite command_online by exact Hon.
  rewrite live_insert_eq. simpl.
  destruct (Z.leb_spec (default 60 window) 0); [lia|].
  unfold Store.with_keyspace. simpl. rewrite insert_insert_eq.
  unfold plain_verdict. destruct (default 60 limit <? 1); reflexivity.
Qed.

Lemma rateLimit_counting (w : world) (ip : string) (limit window : option Z) (n : Z)
    (exp : option Z) :
  online w = true ->
  Store.live w ("rate:" +:+ ip) = Some {| payload := Num.toString n; expire_at := exp |} ->
  1 <= n < 2 ^ 63 - 1 ->
  PlainLimiter.rateLimit ip limit window w
  = (plain_verdict (default 60 limit) (n + 1),
     Store.with_keyspace w
       (<["rate:" +:+ ip := {| payload := Num.toString (n + 1); expire_at := exp |}]>
          (keyspace w))).
Proof.
  intros Hon Hlive Hn. unfold PlainLimiter.rateLimit, bind. simpl redis_incr.
  unfold Store.INCR. rewrite command_online by exact Hon. rewrite Hlive.
  simpl payload. rewrite string2ll_toString by lia.
  destruct (Z.ltb_spec n (2 ^ 63 - 1)); [|lia].
  destruct (Z.eqb_spec (n + 1) 1); [lia|].
  unfold plain_verdict. simpl. destruct (default 60 limit <? n + 1); reflexivity.
Qed.

(** Once the counter holds [n], the calls made before it expires are
    hits [n + 1], [n + 2], ..., and they leave its expiry alone. *)
Lemma plain_run_counting (ip : string) (limit window : option Z) (delays : list Z)
    (w : world) (n exp : Z) :
  online w = true ->
  keyspace w !! ("rate:" +:+ ip)
  = Some {| payload := Num.toString n; expire_at := Some exp |} ->
  clock w + total_delay delays <= exp ->
  1 <= n -> n + Z.of_nat (List.length delays) < 2 ^ 63 ->
  fst (plain_run ip limit window delays w)
  = map (fun i => plain_verdict (default 60 limit) (n + 1 + Z.of_nat i))
      (seq 0 (List.length delays))
  /\ online (snd (plain_run ip limit window delays w)) = true
  /\ clock (snd (plain_run ip limit window delays w)) = clock w + total_delay delays
  /\ keyspace (snd (plain_run ip limit window delays w)) !! ("rate:" +:+ ip)
     = Some {| payload := Num.toString (n + Z.of_nat (List.length delays));
               expire_at := Some exp |}.
Proof.
  revert w n. induction delays as [|d delays IH]; intros w n Hon Hkey Hexp Hn Hmax.
  - simpl. change (Z.of_nat 0) with 0. rewrite !Z.add_0_r. auto.
  - simpl in Hexp. pose proof (total_delay_nonneg delays) as Hnn.
    simpl List.length in Hmax.
    assert (Hlive : Store.live (Store.elapse d w) ("rate:" +:+ ip)
                    = Some {| payload := Num.toString n; expire_at := Some exp |}).
    { rewrite live_elapse, Hkey. unfold Store.expired. simpl.
      destruct (Z.ltb_spec exp (clock w + Z.max 0 d)); [lia | reflexivity]. }
    pose proof (rateLimit_counting (Store.elapse d w) ip limit window n (Some exp)
                  Hon Hlive ltac:(lia)) as Hstep.
    simpl plain_run. rewrite Hstep.
    specialize (IH (Store.with_keyspace (Store.elapse d w)
                      (<["rate:" +:+ ip := {| payload := Num.toString (n + 1);
                                              expire_at := Some exp |}]>
                         (keyspace (Store.elapse d w))))
                   (n + 1) Hon).
    simpl in IH. rewrite lookup_insert_eq in IH.
    specialize (IH eq_refl ltac:(lia) ltac:(lia) ltac:(lia)).
    destruct (plain_run ip limit window delays _) as [rs w2].
    simpl in *. destruct IH as (IHr & IHon & IHclock & IHkey).
    split; [|split; [exact IHon|split; [lia|]]].
    + rewrite IHr, <- seq_shift, map_map. f_equal; [f_equal; lia|].
      apply map_ext. intros i. f_equal. lia.
    + rewrite IHkey.
      replace (n + Z.of_nat (S (List.length delays)))
        with (n + 1 + Z.of_nat (List.length delays)) by lia.
      reflexivity.
Qed.

(** From a store without a counter for the address, spelled out: the
    first call sets the expiry, the later ones count. *)
Lemma plain_run_fresh (ip : string) (limit window : option Z) (d : Z) (delays : list Z)
    (w : world) :
  online w = true -> 0 < default 60 window ->
  Store.live w ("rate:" +:+ ip) = None ->
  total_delay delays <= default 60 window * 1000 ->
  Z.of_nat (List.length delays) < 2 ^ 62 ->
  let exp := clock w + Z.max 0 d + default 60 window * 1000 in
  fst (plain_run ip limit window (d :: delays) w)
  = map (fun i => plain_verdict (default 60 limit) (Z.of_nat i))
      (seq 1 (S (List.length delays)))
  /\ online (snd (plain_run ip limit window (d :: delays) w)) = true
  /\ clock (snd (plain_run ip limit window (d :: delays) w))
     = clock w + Z.max 0 d + total_delay delays
  /\ keyspace (snd (plain_run ip limit window (d :: delays) w)) !! ("rate:" +:+ ip)
     = Some {| payload := Num.toString (1 + Z.of_nat (List.length delays));
               expire_at := Some exp |}.
Proof.
  intros Hon Hwin Hfresh Hin Hmax exp.
  assert (Hlive : Store.live (Store.elapse d w) ("rate:" +:+ ip) = None).
  { rewrite live_elapse. unfold Store.live in Hfresh.
    destruct (keyspace w !! ("rate:" +:+ ip)) as [e|]; [|reflexivity].
    unfold Store.expired in *. destruct (expire_at e) as [t|]; [|discriminate].
    destruct (Z.ltb_spec t (clock w)); [|discriminate].
    destruct (Z.ltb_spec t (clock w + Z.max 0 d)); [reflexivity | lia]. }
  pose proof (rateLimit_fresh (Store.elapse d w) ip limit window Hon Hwin Hlive) as Hstep.
  simpl plain_run. rewrite Hstep.
  pose proof (plain_run_counting ip limit window delays
                (Store.with_keyspace (Store.elapse d w)
                   (<["rate:" +:+ ip := {| payload := "1"; expire_at := Some exp |}]>
                      (keyspace (Store.elapse d w))))
                1 exp Hon) as Hrest.
  simpl in Hrest. rewrite lookup_insert_eq in Hrest.
  specialize (Hrest eq_refl ltac:(unfold exp; lia) ltac:(lia) ltac:(lia)).
  simpl clock. simpl keyspace. fold exp.
  destruct (plain_run ip limit window delays _) as [rs w2].
  simpl in *. destruct Hrest as (Hr & Hon2 & Hclock & Hkey).
  split; [|split; [exact Hon2|split; [exact Hclock | exact Hkey]]].
  f_equal. rewrite Hr, <- (seq_shift _ 1), <- (seq_shift _ 0), !map_map.
  apply map_ext. intros i. f_equal. lia.
Qed.

(** X20: the plain limiter [rateLimit (ip, limit = 60, window = 60)].  On
    a reachable store that holds no counter for the address, of the
    calls made up to [window] seconds after the first one, call number
    [i] resolves when [i <= limit] and rejects with the error
    [Rate limit exceeded] otherwise; omitted arguments stand for 60. *)
Theorem X20_rateLimit_threshold (w : world) (ip : string) (limit window : option Z)
    (d : Z) (delays : list Z) :
  online w = true -> 0 < default 60 window ->
  Store.live w ("rate:" +:+ ip) = None ->
  total_delay delays <= default 60 window * 1000 ->
  Z.of_nat (List.length delays) < 2 ^ 62 ->
  fst (plain_run ip limit window (d :: delays) w)
  = map (fun i => if Z.of_nat i <=? default 60 limit
                  then Ok tt else Throw "Rate limit exceeded")
      (seq 1 (S (List.length delays))).
Proof.
  intros Hon Hwin Hfresh Hin Hmax.
  destruct (plain_run_fresh ip limit window d delays w Hon Hwin Hfresh Hin Hmax)
    as [-> _].
  apply map_ext. intros i. unfold plain_verdict.
  destruct (Z.ltb_spec (default 60 limit) (Z.of_nat i));
    destruct (Z.leb_spec (Z.of_nat i) (default 60 limit)); (reflexivity || lia).
Qed.

Lemma X20_rateLimit_threshold_witness :
  fst (plain_run "10.0.0.1" (Some 2) None [0; 20000; 40000] (Store.empty_at 0))
  = [Ok tt; Ok tt; Throw "Rate limit exceeded"].
Proof.
  apply (X20_rateLimit_threshold (Store.empty_at 0) "10.0.0.1" (Some 2) None 0
           [20000; 40000]);
    [reflexivity | reflexivity | reflexivity | discriminate | reflexivity].
Defined.

(** X21: the window of the plain limiter starts at the first hit and is
    never extended: on a reachable store without a counter for the
    address, however many calls follow the first one within its [window]
    seconds (refused ones too), a call made more than [window] seconds
    after the first one counts as hit number 1 again. *)
Theorem X21_rateLimit_window_not_extended (w : world) (ip : string)
    (limit window : option Z) (d later : Z) (delays : list Z) :
  online w = true -> 0 < default 60 window ->
  Store.live w ("rate:" +:+ ip) = None ->
  total_delay delays <= default 60 window * 1000 ->
  Z.of_nat (List.length delays) < 2 ^ 62 ->
  default 60 window * 1000 < total_delay delays + later ->
  let w' := snd (plain_run ip limit window (d :: delays) w) in
  fst (PlainLimiter.rateLimit ip limit window (Store.elapse later w'))
  = (if 1 <=? default 60 limit then Ok tt else Throw "Rate limit exceeded").
Proof.
  intros Hon Hwin Hfresh Hin Hmax Hlater w'.
  destruct (plain_run_fresh ip limit window d delays w Hon Hwin Hfresh Hin Hmax)
    as (_ & Hon' & Hclock & Hkey).
  fold w' in Hon', Hclock, Hkey.
  rewrite rateLimit_fresh; [| exact Hon' | exact Hwin |].
  - simpl. unfold plain_verdict.
    destruct (Z.ltb_spec (default 60 limit) 1);
      destruct (Z.leb_spec 1 (default 60 limit)); (reflexivity || lia).
  - rewrite live_elapse, Hkey. unfold Store.expired. simpl.
    destruct (Z.ltb_spec (clock w + Z.max 0 d + default 60 window * 1000)
                (clock w' + Z.max 0 later)); [reflexivity | lia].
Qed.

Lemma X21_rateLimit_window_not_extended_witness :
  let w' := snd (plain_run "10.0.0.1" (Some 1) (Some 10) [0; 3000; 3000; 3000]
                   (Store.empty_at 0)) in
  fst (PlainLimiter.rateLimit "10.0.0.1" (Some 1) (Some 10) (Store.elapse 1001 w'))
  = Ok tt.
Proof.
  apply (X21_rateLimit_window_not_extended (Store.empty_at 0) "10.0.0.1" (Some 1)
           (Some 10) 0 1001 [3000; 3000; 3000]);
    [reflexivity | reflexivity | reflexivity | discriminate | reflexivity | reflexivity].
Defined.

(** X22: the plain limiter fails closed: for any store client, when the
    store's INCR fails the call rejects with the store's error, and when
    the EXPIRE after a first hit fails it rejects with that error,
    although the hit has been counted. *)
Theorem X22_rateLimit_fail_closed {W : Type} `{Redis W}
    (ip : string) (limit window : option Z) (w w1 w2 : W) (err : string) :
  (redis_incr ("rate:" +:+ ip) w = (Throw err, w1) ->
   PlainLimiter.rateLimit ip limit window w = (Throw err, w1))
  /\ (redis_incr ("rate:" +:+ ip) w = (Ok 1, w1) ->
      redis_expire ("rate:" +:+ ip) (default 60 window) w1 = (Throw err, w2) ->
      PlainLimiter.rateLimit ip limit window w = (Throw err, w2)).
Proof.
  split.
  - intros E. unfold PlainLimiter.rateLimit, bind. now rewrite E.
  - intros E1 E2. unfold PlainLimiter.rateLimit, bind. rewrite E1.
    change (1 =? 1) with true. cbv iota beta. now rewrite E2.
Qed.

Lemma X22_rateLimit_fail_closed_witness :
  let w := Store.unplug (Store.empty_at 0) in
  PlainLimiter.rateLimit "10.0.0.1" None None w = (Throw "ECONNREFUSED", w).
Proof.
  intros w.
  apply (proj1 (X22_rateLimit_fail_closed "10.0.0.1" None None w w w "ECONNREFUSED")).
  reflexivity.
Defined.

(** ** Presence and deletion *)

Lemma exists_online (w : world) (k : string) :
  online w = true -> CacheService.exists_ k w = (Ok (Store.is_live w k), w).
Proof.
  intros Hon. unfold CacheService.exists_, try_catch, bind. simpl redis_exists.
  unfold Store.EXISTS. rewrite command_online by exact Hon.
  destruct (Store.is_live w k); reflexivity.
Qed.

Lemma del_online (w : world) (k : string) :
  online w = true ->
  CacheService.del k w = (Ok true, Store.with_keyspace w (delete k (keyspace w))).
Proof.
  intros Hon. unfold CacheService.del, try_catch, bind. simpl redis_del.
  unfold Store.DEL. rewrite command_online by exact Hon. reflexivity.
Qed.

(** X23: [exists] and [del] on a reachable store.  After [set (k, v,
    seconds)] with [seconds > 0], [exists (k)] is true, whatever the
    value (a stored null included, which [get] reads as a miss), and it
    is false once more than [seconds] seconds have passed.  [del (k)]
    resolves to true whether or not the key was there; after it
    [exists (k)] is false, [get (k)] is null, and every other key is as
    before. *)
Theorem X23_exists_and_del (w : world) (k : string) (v : json) (seconds : Z) :
  online w = true -> 0 < seconds ->
  let w1 := snd (CacheService.set k v (Some seconds) w) in
  CacheService.exists_ k w1 = (Ok true, w1)
  /\ (forall ms, seconds * 1000 < ms ->
        CacheService.exists_ k (Store.elapse ms w1) = (Ok false, Store.elapse ms w1))
  /\ exists w2,
       CacheService.del k w1 = (Ok true, w2)
       /\ CacheService.exists_ k w2 = (Ok false, w2)
       /\ CacheService.get k w2 = (Ok JNull, w2)
       /\ fst (CacheService.del k w2) = Ok true
       /\ forall k', k' <> k -> Store.live w2 k' = Store.live w k'.
Proof.
  intros Hon Hs w1. subst w1. rewrite set_online by assumption. simpl snd.
  set (e := {| payload := JSON.stringify v; expire_at := Some (clock w + seconds * 1000) |}).
  set (w1 := Store.with_keyspace w (<[k := e]> (keyspace w))).
  assert (Hon1 : online w1 = true) by exact Hon.
  split; [|split].
  - rewrite exists_online by exact Hon1. unfold Store.is_live, w1.
    rewrite live_insert_eq. unfold Store.expired. simpl.
    destruct (Z.ltb_spec (clock w + seconds * 1000) (clock w)); [lia | reflexivity].
  - intros ms Hms. rewrite exists_online by exact Hon1. unfold Store.is_live.
    rewrite live_elapse. unfold w1. simpl keyspace. rewrite lookup_insert_eq.
    unfold Store.expired. simpl.
    destruct (Z.ltb_spec (clock w + seconds * 1000) (clock w + Z.max 0 ms));
      [reflexivity | lia].
  - exists (Store.with_keyspace w1 (delete k (keyspace w1))).
    set (w2 := Store.with_keyspace w1 (delete k (keyspace w1))).
    assert (Hon2 : online w2 = true) by exact Hon.
    assert (Hgone : Store.live w2 k = None).
    { unfold Store.live, w2. simpl. now rewrite lookup_delete_eq. }
    split; [now apply del_online|]. split; [|split; [|split]].
    + rewrite exists_online by exact Hon2. unfold Store.is_live. now rewrite Hgone.
    + rewrite get_online by exact Hon2. now rewrite Hgone.
    + now rewrite del_online by exact Hon2.
    + intros k' Hne. unfold Store.live, w2, w1. simpl.
      rewrite lookup_delete_ne by congruence.
      now rewrite lookup_insert_ne by congruence.
Qed.

Lemma X23_exists_and_del_witness :
  let w1 := snd (CacheService.set "user:42" JNull (Some 300) (Store.empty_at 0)) in
  CacheService.exists_ "user:42" w1 = (Ok true, w1)
  /\ CacheService.get "user:42" w1 = (Ok JNull, w1).
Proof.
  intros w1. split; [|reflexivity].
  apply (X23_exists_and_del (Store.empty_at 0) "user:42" JNull 300); reflexivity.
Defined.

